(** * clio-mcp: a shallow embedding of the session broker, the resilient
    API client, the PII redaction filter, the inbound rate limiter's identity
    resolution and the three aggregation engines, with the properties the
    specification states about them.

    Conventions of the embedding.
    - A JavaScript string is the list of its UTF-16 code units ([jsstring]);
      [lit] turns an ASCII literal into one.
    - [undefined]/[null] fields are [option]; truthiness is written out.
    - Timestamps and counters are integers ([Z]), on which IEEE doubles are
      exact below 2^53.
    - [safeLog] calls only write to the console; they never change control
      flow or data and are left out. *)

From Stdlib Require Import ZArith NArith List String Ascii Bool Lia.
From stdpp Require Import base option list gmap.

Open Scope Z_scope.
Open Scope list_scope.

(** ** JavaScript strings *)

Module Js.

Abbreviation jsstring := (list N).

Definition lit (s : string) : jsstring :=
  List.map N_of_ascii (list_ascii_of_string s).

Definition dq : N := 34%N.   (* the double quote character *)
Definition nl : N := 10%N.   (* line feed *)

Definition in_range (lo hi c : N) : bool := ((lo <=? c) && (c <=? hi))%N.

Definition is_digit (c : N) : bool := in_range 48 57 c.
Definition is_upper (c : N) : bool := in_range 65 90 c.
Definition is_lower (c : N) : bool := in_range 97 122 c.
Definition is_alpha (c : N) : bool := is_upper c || is_lower c.
Definition is_alnum (c : N) : bool := is_alpha c || is_digit c.

(** [\w]: the basic word characters [A-Za-z0-9_]. *)
Definition is_word (c : N) : bool := is_alnum c || (c =? 95)%N.

(** ECMAScript LineTerminator. *)
Definition is_line_terminator (c : N) : bool :=
  ((c =? 10) || (c =? 13) || (c =? 8232) || (c =? 8233))%N.

(** ECMAScript WhiteSpace or LineTerminator: what [String.prototype.trim]
    strips and what the class [\s] matches. *)
Definition is_space (c : N) : bool :=
  ((c =? 9) || (c =? 11) || (c =? 12) || (c =? 32) || (c =? 160)
   || (c =? 5760) || in_range 8192 8202 c || (c =? 8239) || (c =? 8287)
   || (c =? 12288) || (c =? 65279))%N
  || is_line_terminator c.

Fixpoint drop_while {A} (p : A -> bool) (l : list A) : list A :=
  match l with
  | [] => []
  | x :: l' => if p x then drop_while p l' else l
  end.

(** [s.trim()] *)
Definition trim (s : jsstring) : jsstring :=
  rev (drop_while is_space (rev (drop_while is_space s))).

(** A string in a boolean context: every string but the empty one is truthy. *)
Definition truthy_str (s : jsstring) : bool :=
  match s with [] => false | _ => true end.

(** An optional string in a boolean context ([undefined] is falsy). *)
Definition truthy_ostr (o : option jsstring) : bool :=
  match o with Some s => truthy_str s | None => false end.

(** [a || b] on optional strings. *)
Definition or_ostr (a b : option jsstring) : option jsstring :=
  if truthy_ostr a then a else b.

(** [a || 'literal'] where the right operand is a string. *)
Definition or_str (a : option jsstring) (b : jsstring) : jsstring :=
  match a with
  | Some s => if truthy_str s then s else b
  | None => b
  end.

(** ASCII upper-casing. The case-insensitive flag of a non-Unicode regular
    expression compares canonicalised code units; a code unit outside ASCII
    never canonicalises to an ASCII one, so for the ASCII patterns of this
    program only the ASCII letters are folded. *)
Definition canon (c : N) : N := if is_lower c then (c - 32)%N else c.

Fixpoint starts_with (p s : jsstring) : bool :=
  match p, s with
  | [], _ => true
  | _ :: _, [] => false
  | a :: p', b :: s' => (a =? b)%N && starts_with p' s'
  end.

(** [s.substring(n)] for [0 <= n]. *)
Definition substring_from (n : nat) (s : jsstring) : jsstring := drop n s.

(** Decimal rendering of a natural number, as [String(n)] gives it. *)
Definition digit_char (d : nat) : N := (48 + N.of_nat d)%N.

Fixpoint decimal_fuel (fuel n : nat) (acc : jsstring) : jsstring :=
  match fuel with
  | O => acc
  | S fuel' =>
      let acc' := digit_char (n mod 10) :: acc in
      if (n / 10 =? 0)%nat then acc' else decimal_fuel fuel' (n / 10) acc'
  end.

Definition decimal (n : nat) : jsstring := decimal_fuel (S n) n [].

(** *** Reading a report back *)

(** Does a piece of text show anything but white space? *)
Definition has_text (s : jsstring) : bool :=
  existsb (fun c => negb (is_space c)) s.

(** What follows the first occurrence of [marker] in [s]. *)
Fixpoint after (marker s : jsstring) : option jsstring :=
  if starts_with marker s then Some (drop (length marker) s)
  else match s with
       | [] => None
       | _ :: s' => after marker s'
       end.

Fixpoint up_to_newline (s : jsstring) : jsstring :=
  match s with
  | [] => []
  | c :: s' => if (c =? nl)%N then [] else c :: up_to_newline s'
  end.

(** The rest of the line on which [marker] first occurs. *)
Definition line_after (marker s : jsstring) : option jsstring :=
  up_to_newline <$> after marker s.

End Js.

Import Js.

(** ** Regular expressions, with the backtracking semantics of ECMAScript *)

Module Regex.

Inductive regex : Type :=
| Empty                       (* the empty pattern *)
| Chr (p : N -> bool)         (* one code unit of a class *)
| Cat (r1 r2 : regex)         (* r1 r2 *)
| Alt (r1 r2 : regex)         (* r1|r2, left alternative first *)
| Opt (r : regex)             (* r?, greedy *)
| Star (r : regex)            (* r*, greedy *)
| WordB                       (* \b *)
| NotAhead (r : regex)        (* (?!r) *)
| Bol                         (* ^ without the multiline flag *)
| Eol.                        (* $ without the multiline flag *)

Definition is_word_o (o : option N) : bool :=
  match o with Some c => is_word c | None => false end.

(** The matcher in continuation-passing style: [prev] is the code unit left
    of the current position ([None] at the start of the input), [s] is what
    remains, and [k] is tried on every way [r] can match, in priority order.
    An iteration of a quantifier that consumes nothing is rejected, as the
    RepeatMatcher of the language definition does. *)
Fixpoint run {A} (r : regex) (prev : option N) (s : jsstring)
    (k : option N -> jsstring -> option A) : option A :=
  match r with
  | Empty => k prev s
  | Chr p =>
      match s with
      | c :: s' => if p c then k (Some c) s' else None
      | [] => None
      end
  | Cat r1 r2 => run r1 prev s (fun prev' s' => run r2 prev' s' k)
  | Alt r1 r2 =>
      match run r1 prev s k with
      | Some x => Some x
      | None => run r2 prev s k
      end
  | Opt r1 =>
      match run r1 prev s
              (fun prev' s' =>
                 if (length s' <? length s)%nat then k prev' s' else None) with
      | Some x => Some x
      | None => k prev s
      end
  | Star r1 =>
      (fix loop (fuel : nat) (prev : option N) (s : jsstring) : option A :=
         match fuel with
         | O => k prev s
         | S fuel' =>
             match run r1 prev s
                     (fun prev' s' =>
                        if (length s' <? length s)%nat
                        then loop fuel' prev' s' else None) with
             | Some x => Some x
             | None => k prev s
             end
         end) (length s) prev s
  | WordB =>
      if xorb (is_word_o prev) (is_word_o (head s)) then k prev s else None
  | NotAhead r1 =>
      match run r1 prev s (fun _ _ => Some tt) with
      | Some _ => None
      | None => k prev s
      end
  | Bol => match prev with None => k prev s | Some _ => None end
  | Eol => match s with [] => k prev s | _ :: _ => None end
  end.

(** The first match of [r] starting exactly here: what is left after it. *)
Definition match_here (r : regex) (prev : option N) (s : jsstring)
  : option jsstring :=
  run r prev s (fun _ s' => Some s').

(** [r.test(s)] scanning start positions left to right. *)
Fixpoint test_from (r : regex) (prev : option N) (s : jsstring) : bool :=
  match match_here r prev s with
  | Some _ => true
  | None =>
      match s with
      | [] => false
      | c :: s' => test_from r (Some c) s'
      end
  end.

Definition test (r : regex) (s : jsstring) : bool := test_from r None s.

(** [s.replace(r, f)] with the global flag: every leftmost match, found
    after the end of the previous one, is replaced by [f matched]. After an
    empty match the scan moves one code unit on. *)
Fixpoint replace_from (fuel : nat) (r : regex) (f : jsstring -> jsstring)
    (prev : option N) (s : jsstring) : jsstring :=
  match fuel with
  | O => s
  | S fuel' =>
      match match_here r prev s with
      | Some s' =>
          let matched := take (length s - length s') s in
          match matched with
          | [] =>
              f [] ++ match s with
                      | [] => []
                      | c :: s'' => c :: replace_from fuel' r f (Some c) s''
                      end
          | _ :: _ => f matched ++ replace_from fuel' r f (last matched) s'
          end
      | None =>
          match s with
          | [] => []
          | c :: s'' => c :: replace_from fuel' r f (Some c) s''
          end
      end
  end.

Definition replace_all (r : regex) (f : jsstring -> jsstring) (s : jsstring)
  : jsstring :=
  replace_from (S (length s)) r f None s.

(** *** Pattern syntax *)

Definition chr (c : N) : regex := Chr (fun x => (x =? c)%N).
Definition ichr (c : N) : regex := Chr (fun x => (canon x =? canon c)%N).

Fixpoint seq_of (mk : N -> regex) (s : jsstring) : regex :=
  match s with
  | [] => Empty
  | [c] => mk c
  | c :: s' => Cat (mk c) (seq_of mk s')
  end.

(** A literal, case-sensitive and case-insensitive. *)
Definition str (s : string) : regex := seq_of chr (lit s).
Definition istr (s : string) : regex := seq_of ichr (lit s).

Fixpoint cats (rs : list regex) : regex :=
  match rs with
  | [] => Empty
  | [r] => r
  | r :: rs' => Cat r (cats rs')
  end.

Fixpoint alts (rs : list regex) : regex :=
  match rs with
  | [] => Chr (fun _ => false)
  | [r] => r
  | r :: rs' => Alt r (alts rs')
  end.

(** r{n} *)
Fixpoint rep (n : nat) (r : regex) : regex :=
  match n with
  | O => Empty
  | S O => r
  | S n' => Cat r (rep n' r)
  end.

(** r{0,n}, greedy *)
Fixpoint upto (n : nat) (r : regex) : regex :=
  match n with
  | O => Empty
  | S n' => Opt (Cat r (upto n' r))
  end.

(** r{n,m}, r{n,} and r+ *)
Definition rep_range (n m : nat) (r : regex) : regex :=
  Cat (rep n r) (upto (m - n) r).
Definition rep_min (n : nat) (r : regex) : regex := Cat (rep n r) (Star r).
Definition plus (r : regex) : regex := Cat r (Star r).

Definition one_of (s : string) : N -> bool :=
  fun c => existsb (fun x => (x =? c)%N) (lit s).

Definition digit : regex := Chr is_digit.                 (* \d *)
Definition space : regex := Chr is_space.                 (* \s *)
Definition any : regex := Chr (fun c => negb (is_line_terminator c)).  (* . *)

End Regex.

Import Regex.

(** ** Unbilled Activity Audit: the vagueness classifier
    (src/lib/tools/audit-unbilled-activities.ts) *)

Module Vague.

(** [^(body)\s*$] *)
Definition anchored (body : regex) : regex :=
  cats [Bol; body; Star space; Eol].

Definition vaguePatterns : list regex :=
  [ anchored (alts [istr "meeting"; istr "call"; istr "email"; istr "phone";
                    istr "review"; istr "work"; istr "task"; istr "draft";
                    istr "research"; istr "prep"; istr "preparation";
                    cats [istr "follow"; Opt any; istr "up"];
                    istr "followup"]);
    anchored (alts [istr "mtg"; istr "mtng"; istr "tel"; istr "telcon";
                    istr "eml"; istr "em"; istr "rev"; istr "wk"; istr "tsk";
                    istr "drft"; istr "rsch"; istr "prep"; istr "f/u";
                    istr "f/up"]);
    anchored (alts [istr "see"; istr "see above"; istr "same";
                    istr "as above"; istr "as noted"; istr "per";
                    istr "per above"]);
    anchored (alts [istr "misc"; istr "miscellaneous"; istr "other";
                    istr "various"; istr "general";
                    istr "miscellaneous work"; istr "general work";
                    istr "other tasks"]);
    anchored (Chr is_alpha);                                   (* single letter *)
    anchored (plus digit);                                     (* just numbers *)
    anchored (plus (Chr (fun c => negb (is_word c || is_space c))))
                                                               (* just punctuation *)
  ].

Definition threshold : nat := 15.

(** [!description || description.trim().length === 0] *)
Definition is_blank (description : jsstring) : bool :=
  negb (truthy_str description) || (length (trim description) =? 0)%nat.

Definition isVagueDescription (description : jsstring) : bool :=
  if is_blank description then true
  else if (length (trim description) <? threshold)%nat then true
  else existsb (fun pattern => test pattern (trim description)) vaguePatterns.

Definition getVagueReason (description : jsstring) : jsstring :=
  if is_blank description then lit "Empty description"
  else if (length (trim description) <? threshold)%nat then
    lit "Too short (" ++ decimal (length (trim description))
      ++ lit " characters). Insurance typically requires at least 15 characters."
  else
    lit "Matches vague description pattern (e.g., " ++ [dq] ++ lit "meeting"
      ++ [dq] ++ lit ", " ++ [dq] ++ lit "call" ++ [dq] ++ lit ", " ++ [dq]
      ++ lit "review" ++ [dq] ++ lit " without context)".

End Vague.

(** ** The classifier as the specification words it *)

Module VagueSpec.

(** Two texts that are equal, the case of the ASCII letters apart. *)
Fixpoint same_text (a b : jsstring) : bool :=
  match a, b with
  | [], [] => true
  | x :: a', y :: b' => (canon x =? canon y)%N && same_text a' b'
  | _, _ => false
  end.

(** Bare common verbs and nouns. *)
Definition common_words : list string :=
  ["meeting"; "call"; "email"; "phone"; "review"; "work"; "task"; "draft";
   "research"; "prep"; "preparation"; "followup"]%string.

(** Their abbreviations. *)
Definition abbreviations : list string :=
  ["mtg"; "mtng"; "tel"; "telcon"; "eml"; "em"; "rev"; "wk"; "tsk"; "drft";
   "rsch"; "prep"; "f/u"; "f/up"]%string.

(** References to something said elsewhere. *)
Definition back_references : list string :=
  ["see"; "see above"; "same"; "as above"; "as noted"; "per"; "per above"]%string.

(** Generic filler. *)
Definition filler_words : list string :=
  ["misc"; "miscellaneous"; "other"; "various"; "general";
   "miscellaneous work"; "general work"; "other tasks"]%string.

(** The text is one of the listed words, in any letter case. *)
Definition listed (t : jsstring) : bool :=
  existsb (fun w => same_text t (lit w))
    (common_words ++ abbreviations ++ back_references ++ filler_words).

(** [follow] and [up], in any letter case, joined directly or by one code
    unit that is no line terminator. *)
Definition is_follow_up (t : jsstring) : bool :=
  same_text t (lit "followup")
  || match drop 6 t with
     | joint :: rest =>
         same_text (take 6 t) (lit "follow")
         && negb (is_line_terminator joint)
         && same_text rest (lit "up")
     | [] => false
     end.

Definition single_letter (t : jsstring) : bool :=
  match t with
  | [c] => is_alpha c
  | _ => false
  end.

Definition digits_only (t : jsstring) : bool :=
  match t with
  | [] => false
  | _ :: _ => forallb is_digit t
  end.

Definition punctuation_only (t : jsstring) : bool :=
  match t with
  | [] => false
  | _ :: _ => forallb (fun c => negb (is_word c || is_space c)) t
  end.

(** A text that carries no information: a listed word, a single letter,
    digits only or punctuation only. *)
Definition low_information (t : jsstring) : bool :=
  listed t || is_follow_up t || single_letter t || digits_only t
  || punctuation_only t.

(** Vague: blank, or under 15 code units once trimmed, or of low
    information. *)
Definition vague_per_spec (description : jsstring) : bool :=
  let t := trim description in
  (length t =? 0)%nat || (length t <? 15)%nat || low_information t.

(** A text that does not end in white space. *)
Definition ends_clean (t : jsstring) : bool :=
  match rev t with
  | c :: _ => negb (is_space c)
  | [] => true
  end.

(** What follows the body of an anchored pattern: white space up to the end
    of the text. *)
Definition to_the_end (prev : option N) (s : jsstring) : option jsstring :=
  run (Cat (Star space) Eol) prev s (fun _ s' => Some s').

End VagueSpec.

(** ** PII redaction filter (src/lib/pii-redaction.ts) *)

Module Redaction.

(** The replacement-template expansion of [String.prototype.replace]
    (GetSubstitution) for a pattern without capture groups, which is what
    every pattern below is: [$$] gives a dollar sign, [$&] the matched text,
    and a [$n] that names a group the pattern does not have stays as it is
    written. No template of this program uses the two context forms. *)
Fixpoint getSubstitution (matched template : jsstring) : jsstring :=
  match template with
  | [] => []
  | 36%N :: 36%N :: t => 36%N :: getSubstitution matched t
  | 36%N :: 38%N :: t => matched ++ getSubstitution matched t
  | c :: t => c :: getSubstitution matched t
  end.

(** [text.replace(r, template)] with the global flag. *)
Definition replace_with (r : regex) (template : jsstring) (text : jsstring)
  : jsstring :=
  replace_all r (fun matched => getSubstitution matched template) text.

Definition sep_dash_dot : regex := Opt (Chr (one_of "-.")).        (* [-.]? *)
Definition sep_dash_dot_space : regex :=
  Opt (Chr (fun c => one_of "-." c || is_space c)).                (* [-.\s]? *)
Definition sep_space_dash : regex :=
  Opt (Chr (fun c => is_space c || (c =? 45)%N)).                  (* [\s-]? *)
Definition not_dq : regex := Chr (fun c => negb (c =? dq)%N).      (* any code unit but the double quote *)

Definition email_re : regex :=
  cats [WordB;
        plus (Chr (fun c => is_alnum c || one_of "._%+-" c));
        chr 64;
        plus (Chr (fun c => is_alnum c || one_of ".-" c));
        chr 46;
        rep_min 2 (Chr (fun c => is_alpha c || (c =? 124)%N));
        WordB].

Definition phone_re1 : regex :=
  cats [WordB; rep 3 digit; sep_dash_dot; rep 3 digit; sep_dash_dot;
        rep 4 digit; WordB].

Definition phone_re2 : regex :=
  cats [WordB; chr 40; rep 3 digit; chr 41; Opt space; rep 3 digit;
        sep_dash_dot; rep 4 digit; WordB].

Definition phone_re3 : regex :=
  cats [WordB; Opt (chr 43); rep_range 1 3 digit; sep_dash_dot_space;
        Opt (chr 40); rep 3 digit; Opt (chr 41); sep_dash_dot_space;
        rep 3 digit; sep_dash_dot_space; rep 4 digit; WordB].

Definition ssn_dashed_re : regex :=
  cats [WordB; rep 3 digit; chr 45; rep 2 digit; chr 45; rep 4 digit; WordB].

Definition nine_digits_re : regex := cats [WordB; rep 9 digit; WordB].

(** [/^(?!000|666|9)\d{3}/] *)
Definition ssn_prefix_re : regex :=
  cats [Bol; NotAhead (alts [str "000"; str "666"; str "9"]); rep 3 digit].

Definition card_grouped_re : regex :=
  cats [WordB; rep 4 digit; sep_space_dash; rep 4 digit; sep_space_dash;
        rep 4 digit; sep_space_dash; rep 4 digit; WordB].

Definition card_run_re : regex := cats [WordB; rep_range 13 19 digit; WordB].

Definition name_field_re : regex :=
  cats [chr dq;
        Opt (alts [istr "first"; istr "last"; istr "full"; istr "given";
                   istr "family"; istr "middle"]);
        istr "name"; chr dq; Star space; chr 58; Star space;
        chr dq; plus not_dq; chr dq].

Definition address_re : regex :=
  cats [WordB; plus digit; plus space;
        plus (Chr (fun c => is_alnum c || is_space c));
        alts [istr "Street"; istr "St"; istr "Avenue"; istr "Ave";
              istr "Road"; istr "Rd"; istr "Drive"; istr "Dr"; istr "Lane";
              istr "Ln"; istr "Boulevard"; istr "Blvd"; istr "Court";
              istr "Ct"; istr "Place"; istr "Pl"];
        Star not_dq].

Definition EMAIL_REDACTED : jsstring := lit "[EMAIL_REDACTED]".
Definition PHONE_REDACTED : jsstring := lit "[PHONE_REDACTED]".
Definition SSN_REDACTED : jsstring := lit "[SSN_REDACTED]".
Definition CARD_REDACTED : jsstring := lit "[CARD_REDACTED]".
Definition ADDRESS_REDACTED : jsstring := lit "[ADDRESS_REDACTED]".

(** The replacement template of the name-field substitution: a quoted
    [$1name], a colon and a space, and a quoted [[NAME_REDACTED]]. *)
Definition name_template : jsstring :=
  [dq] ++ lit "$1name" ++ [dq] ++ lit ": " ++ [dq] ++ lit "[NAME_REDACTED]"
    ++ [dq].

(** The callback of the nine-digit substitution. *)
Definition ssn_callback (m : jsstring) : jsstring :=
  if test ssn_prefix_re m then SSN_REDACTED else m.

(** The callback of the digit-run substitution. *)
Definition card_callback (m : jsstring) : jsstring :=
  if (13 <=? length m)%nat && (length m <=? 19)%nat then CARD_REDACTED else m.

Definition redactPII (text : jsstring) : jsstring :=
  if negb (truthy_str text) then text
  else
    let redacted := text in
    let redacted := replace_with email_re EMAIL_REDACTED redacted in
    let redacted := replace_with phone_re1 PHONE_REDACTED redacted in
    let redacted := replace_with phone_re2 PHONE_REDACTED redacted in
    let redacted := replace_with phone_re3 PHONE_REDACTED redacted in
    let redacted := replace_with ssn_dashed_re SSN_REDACTED redacted in
    let redacted := replace_all nine_digits_re ssn_callback redacted in
    let redacted := replace_with card_grouped_re CARD_REDACTED redacted in
    let redacted := replace_all card_run_re card_callback redacted in
    let redacted := replace_with name_field_re name_template redacted in
    let redacted := replace_with address_re ADDRESS_REDACTED redacted in
    redacted.

(** Two name fields where the closing quote of the first value is directly
    followed by the second key: [name], [a], [name] and [b], each closed by a
    double quote, the first key also opened by one, and a colon and an
    opening quote before each value. *)
Definition two_name_fields : jsstring :=
  [dq] ++ lit "name" ++ [dq] ++ lit ":" ++ [dq] ++ lit "a" ++ [dq]
    ++ lit "name" ++ [dq] ++ lit ":" ++ [dq] ++ lit "b" ++ [dq].

(** The filter with the name-field template doing what it is written to do:
    [$1] standing for the part of the key that the optional group matched
    (the key without its last four letters), which takes a capturing group
    in place of the non-capturing one. Everything else is as in
    [redactPII]. *)
Fixpoint up_to_dq (s : jsstring) : jsstring :=
  match s with
  | [] => []
  | c :: s' => if (c =? dq)%N then [] else c :: up_to_dq s'
  end.

Definition key_prefix (matched : jsstring) : jsstring :=
  let key := up_to_dq (drop 1 matched) in
  take (length key - 4) key.

Definition name_keeping_key (matched : jsstring) : jsstring :=
  [dq] ++ key_prefix matched ++ lit "name" ++ [dq] ++ lit ": " ++ [dq]
    ++ lit "[NAME_REDACTED]" ++ [dq].

Definition redact_keeping_key (text : jsstring) : jsstring :=
  if negb (truthy_str text) then text
  else
    let redacted := text in
    let redacted := replace_with email_re EMAIL_REDACTED redacted in
    let redacted := replace_with phone_re1 PHONE_REDACTED redacted in
    let redacted := replace_with phone_re2 PHONE_REDACTED redacted in
    let redacted := replace_with phone_re3 PHONE_REDACTED redacted in
    let redacted := replace_with ssn_dashed_re SSN_REDACTED redacted in
    let redacted := replace_all nine_digits_re ssn_callback redacted in
    let redacted := replace_with card_grouped_re CARD_REDACTED redacted in
    let redacted := replace_all card_run_re card_callback redacted in
    let redacted := replace_all name_field_re name_keeping_key redacted in
    let redacted := replace_with address_re ADDRESS_REDACTED redacted in
    redacted.

End Redaction.

(** ** Token broker (src/lib/sessions.ts) *)

Module Sessions.

Record Session : Type := mkSession {
  token : jsstring;
  expiresAt : Z;
  createdAt : Z
}.

(** The module state: the in-memory [sessionStore] and the system clock.
    [clock n] is what the [n]-th call of [Date.now()] returns; [reads]
    counts the calls made so far. *)
Record World : Type := mkWorld {
  sessionStore : gmap jsstring Session;
  clock : nat -> Z;
  reads : nat
}.

(** A small state monad over [World]. *)
Definition M (A : Type) : Type := World -> A * World.

Definition ret {A} (a : A) : M A := fun w => (a, w).

Definition bind {A B} (c : M A) (k : A -> M B) : M B :=
  fun w => let '(a, w') := c w in k a w'.

Notation "'do' x <- c ; k" := (bind c (fun x => k))
  (at level 10, x name, c at level 100, k at level 200).
Notation "'exec' c ; k" := (bind c (fun _ => k))
  (at level 10, c at level 100, k at level 200).

(** [Date.now()] *)
Definition Date_now : M Z :=
  fun w => (clock w (reads w),
            mkWorld (sessionStore w) (clock w) (S (reads w))).

Definition store_get (sessionId : jsstring) : M (option Session) :=
  fun w => (sessionStore w !! sessionId, w).

Definition store_set (sessionId : jsstring) (s : Session) : M unit :=
  fun w => (tt, mkWorld (<[sessionId := s]> (sessionStore w)) (clock w) (reads w)).

Definition store_delete (sessionId : jsstring) : M unit :=
  fun w => (tt, mkWorld (delete sessionId (sessionStore w)) (clock w) (reads w)).

Definition days (n : Z) : Z := n * 24 * 60 * 60 * 1000.

(** [createSession]: [cookieToken] is what [getClioToken()] resolves to and
    [sessionId] the 32 random bytes in hexadecimal. *)
Definition createSession (cookieToken : option jsstring) (sessionId : jsstring)
  : M (jsstring + jsstring) :=
  if negb (truthy_ostr cookieToken) then
    ret (inl (lit "Not authenticated. Please authenticate via the web interface first."))
  else
    do now <- Date_now;
    exec store_set sessionId
           (mkSession (default [] cookieToken) (now + days 30) now);
    ret (inr sessionId).

Definition getSessionToken (sessionId : jsstring) (autoRefresh : bool)
  : M (option jsstring) :=
  do found <- store_get sessionId;
  match found with
  | None => ret None
  | Some session =>
      do t <- Date_now;
      if expiresAt session <? t then
        exec store_delete sessionId;
        ret None
      else if autoRefresh then
        do now <- Date_now;
        let timeUntilExpiry := expiresAt session - now in
        let refreshThreshold := days 7 in
        if timeUntilExpiry <? refreshThreshold then
          exec store_set sessionId
                 (mkSession (token session) (now + days 30) (createdAt session));
          ret (Some (token session))
        else ret (Some (token session))
      else ret (Some (token session))
  end.

Definition deleteSession (sessionId : jsstring) : M unit :=
  store_delete sessionId.

(** [sessionStore.get(sessionId) || null] *)
Definition getSession (sessionId : jsstring) : M (option Session) :=
  store_get sessionId.

(** The hourly clean-up callback. *)
Definition sweep : M unit :=
  do now <- Date_now;
  fun w =>
    (tt, mkWorld (filter (fun kv => ~ (expiresAt (snd kv) < now)) (sessionStore w))
                 (clock w) (reads w)).

(** The session table after a resolution. *)
Definition store_after (sessionId : jsstring) (autoRefresh : bool) (w : World)
  : gmap jsstring Session :=
  sessionStore (snd (getSessionToken sessionId autoRefresh w)).

(** *** Sample tables *)

Definition alice : Session := mkSession (lit "tok-alice") (days 5) 0.
Definition bob : Session := mkSession (lit "tok-bob") (days 20) 0.

(** A table with one session 5 days from expiry and one 20 days from it,
    under a clock that stands at 1000 ms. *)
Definition two_sessions : World :=
  mkWorld (<[lit "a" := alice]> (<[lit "b" := bob]> ∅)) (fun _ => 1000) 0.

(** A table whose only session expired at 500 ms, under the same clock. *)
Definition stale : Session := mkSession (lit "tok-stale") 500 0.

Definition stale_world : World :=
  mkWorld (<[lit "s" := stale]> ∅) (fun _ => 1000) 0.

End Sessions.

(** ** Inbound rate limiter (src/lib/rate-limiter.ts) *)

Module RateLimit.

(** ASCII lower-casing of a header name. *)
Definition lower (c : N) : N := if is_upper c then (c + 32)%N else c.
Definition lower_name (s : jsstring) : jsstring := List.map lower s.

(** An inbound request: the parsed query parameters of its URL, in order,
    and its headers, keyed by lower-cased name as the Fetch [Headers] class
    keeps them. *)
Record Request : Type := mkRequest {
  searchParams : list (jsstring * jsstring);
  headers : gmap jsstring jsstring
}.

(** [url.searchParams.get(name)]: the first value under that name. *)
Fixpoint searchParams_get (name : jsstring) (ps : list (jsstring * jsstring))
  : option jsstring :=
  match ps with
  | [] => None
  | (k, v) :: ps' =>
      if decide (k = name) then Some v else searchParams_get name ps'
  end.

(** [request.headers.get(name)] *)
Definition headers_get (name : jsstring) (r : Request) : option jsstring :=
  headers r !! lower_name name.

(** [s.split(',')[0]] *)
Fixpoint before_comma (s : jsstring) : jsstring :=
  match s with
  | [] => []
  | c :: s' => if (c =? 44)%N then [] else c :: before_comma s'
  end.

Definition bearer_session : jsstring := lit "Bearer session:".

Definition getRequestIdentifier (request : Request) : jsstring :=
  let sessionId := searchParams_get (lit "sessionId") (searchParams request) in
  if truthy_ostr sessionId then lit "session:" ++ default [] sessionId
  else
    let authHeader := headers_get (lit "Authorization") request in
    if truthy_ostr authHeader
       && starts_with bearer_session (default [] authHeader)
    then lit "session:" ++ substring_from 15 (default [] authHeader)
    else
      let forwardedFor := headers_get (lit "x-forwarded-for") request in
      let ip :=
        if truthy_ostr forwardedFor
        then trim (before_comma (default [] forwardedFor))
        else or_str (headers_get (lit "x-real-ip") request) (lit "unknown") in
      lit "ip:" ++ ip.

Record RateLimitEntry : Type := mkEntry { count : Z; resetAt : Z }.

Record Verdict : Type := mkVerdict {
  allowed : bool;
  remaining : Z;
  verdict_resetAt : Z;
  retry_after : option Z      (* the Retry-After header, in seconds *)
}.

(** [Math.ceil(a / 1000)] on integers. *)
Definition ceil_div_1000 (a : Z) : Z := - ((- a) / 1000).

(** [checkRateLimit]; of the response headers only Retry-After is kept,
    the other three repeat [maxRequests], [remaining] and the reset time. *)
Definition checkRateLimit (request : Request) (maxRequests windowMs now : Z)
    (rateLimitStore : gmap jsstring RateLimitEntry)
  : Verdict * gmap jsstring RateLimitEntry :=
  let identifier := getRequestIdentifier request in
  let entry :=
    match rateLimitStore !! identifier with
    | Some e => if resetAt e <? now then mkEntry 0 (now + windowMs) else e
    | None => mkEntry 0 (now + windowMs)
    end in
  let entry := mkEntry (count entry + 1) (resetAt entry) in
  let store' := <[identifier := entry]> rateLimitStore in
  let remaining := Z.max 0 (maxRequests - count entry) in
  let allowed := count entry <=? maxRequests in
  (mkVerdict allowed remaining (resetAt entry)
     (if allowed then None else Some (ceil_div_1000 (resetAt entry - now))),
   store').

(** The identity the specification describes: query parameter, then the
    bearer-session authorization header, then a dedicated session-id header,
    then the source address. *)
Definition identity_per_spec (request : Request) : jsstring :=
  let sessionId := searchParams_get (lit "sessionId") (searchParams request) in
  if truthy_ostr sessionId then lit "session:" ++ default [] sessionId
  else
    let authHeader := headers_get (lit "Authorization") request in
    if truthy_ostr authHeader
       && starts_with bearer_session (default [] authHeader)
    then lit "session:" ++ substring_from 15 (default [] authHeader)
    else
      let dedicated := headers_get (lit "X-MCP-Session-ID") request in
      if truthy_ostr dedicated then lit "session:" ++ default [] dedicated
      else
        let forwardedFor := headers_get (lit "x-forwarded-for") request in
        let ip :=
          if truthy_ostr forwardedFor
          then trim (before_comma (default [] forwardedFor))
          else or_str (headers_get (lit "x-real-ip") request) (lit "unknown") in
        lit "ip:" ++ ip.

(** The same request with one more header. *)
Definition with_header (name value : jsstring) (request : Request) : Request :=
  mkRequest (searchParams request) (<[lower_name name := value]> (headers request)).

Definition dedicated_header : jsstring := lit "X-MCP-Session-ID".

(** A request that carries only the dedicated session-id header and the
    address the proxy forwarded. *)
Definition header_only_request : Request :=
  mkRequest []
    (<[lit "x-mcp-session-id" := lit "abc123"]>
       (<[lit "x-forwarded-for" := lit "203.0.113.7, 10.0.0.1"]> ∅)).

End RateLimit.

(** ** Resilient API client (src/lib/clio-client-production.ts) *)

Module Client.

(** [parseInt(s, 10)]: leading white space is skipped, then an optional
    sign, then the longest run of decimal digits; [None] stands for NaN. *)
Fixpoint take_while {A} (p : A -> bool) (l : list A) : list A :=
  match l with
  | [] => []
  | x :: l' => if p x then x :: take_while p l' else []
  end.

Definition digits_value (ds : jsstring) : Z :=
  fold_left (fun acc d => acc * 10 + (Z.of_N d - 48)) ds 0.

Definition parseInt (s : jsstring) : option Z :=
  let s := drop_while is_space s in
  let '(sign, s) :=
    match s with
    | 45%N :: t => (-1, t)
    | 43%N :: t => (1, t)
    | _ => (1, s)
    end in
  match take_while is_digit s with
  | [] => None
  | ds => Some (sign * digits_value ds)
  end.

(** [n * 1000] where [n] may be NaN. *)
Definition times_1000 (n : option Z) : option Z := (fun z => z * 1000) <$> n.

Section CLIENT.

Variable Body : Type.

Record Response : Type := mkResponse {
  status : Z;
  headers : gmap jsstring jsstring;     (* keyed by lower-cased name *)
  data : Body
}.

(** What the remote side does with one dispatched request: it answers after
    some milliseconds, or never, or the connection fails. *)
Inductive Reply : Type :=
| Answers (after : Z) (r : Response)
| Silent
| Unreachable.

Inductive Cause : Type := TimedOut | NetworkDown | BadStatus.

(** An error raised by the HTTP library; [response] is set exactly when the
    remote side answered. *)
Record AxiosError : Type := mkAxiosError {
  cause : Cause;
  response : option Response
}.

(** What a call is rejected with. *)
Inductive Rejection : Type :=
| Propagated (e : AxiosError)                (* Promise.reject(error) *)
| AuthenticationFailed                       (* the 401 branch *)
| RateLimitExceeded.                         (* the exhausted 429 branch *)

Definition message (r : Rejection) : option jsstring :=
  match r with
  | Propagated _ => None
  | AuthenticationFailed =>
      Some (lit "Authentication failed. Please re-authenticate via the web interface.")
  | RateLimitExceeded =>
      Some (lit "Rate limit exceeded. Please try again later.")
  end.

(** The configuration given to [axios.create]. *)
Definition timeout : Z := 30000.

(** One dispatch through the HTTP library: a request that takes longer than
    [timeout] is aborted, and a status outside 2xx is raised as an error
    carrying the response. *)
Definition dispatch (reply : Reply) : AxiosError + Response :=
  match reply with
  | Answers after r =>
      if timeout <? after then inl (mkAxiosError TimedOut None)
      else if (200 <=? status r) && (status r <? 300) then inr r
      else inl (mkAxiosError BadStatus (Some r))
  | Silent => inl (mkAxiosError TimedOut None)
  | Unreachable => inl (mkAxiosError NetworkDown None)
  end.

(** The error of a call that ran into the time-out. *)
Definition timed_out : AxiosError := mkAxiosError TimedOut None.

Record RateLimitState : Type := mkRateLimitState {
  remaining : option Z;
  resetAt : option Z
}.

(** The state of one client instance, with what it has done so far:
    [sent] requests dispatched and the [slept] delays, oldest first. *)
Record ClientState : Type := mkClientState {
  rateLimitState : RateLimitState;
  sent : nat;
  slept : list (option Z)
}.

(** The state a fresh client starts in, constructed at time [now]. *)
Definition initial (now : Z) : ClientState :=
  mkClientState (mkRateLimitState (Some 1000) (Some (now + 60000))) 0 [].

Definition maxRetries : nat := 3.
Definition baseRetryDelay : Z := 1000.

Definition calculateBackoffDelay (retryCount : nat) : Z :=
  baseRetryDelay * 2 ^ Z.of_nat retryCount.

Definition sleep (ms : option Z) (st : ClientState) : ClientState :=
  mkClientState (rateLimitState st) (sent st) (slept st ++ [ms]).

Definition count_sent (st : ClientState) : ClientState :=
  mkClientState (rateLimitState st) (S (sent st)) (slept st).

(** The fulfilled branch of the response interceptor. *)
Definition on_response (r : Response) (st : ClientState) : ClientState :=
  let rl := rateLimitState st in
  let rl :=
    match headers r !! lit "x-ratelimit-remaining" with
    | Some v => mkRateLimitState (parseInt v) (resetAt rl)
    | None => rl
    end in
  let rl :=
    match headers r !! lit "x-ratelimit-reset" with
    | Some v => mkRateLimitState (remaining rl) (times_1000 (parseInt v))
    | None => rl
    end in
  mkClientState rl (sent st) (slept st).

(** The waiting time of the 429 branch. *)
Definition rate_limit_wait (r : Response) (retryCount : nat) : option Z :=
  let retryAfter := headers r !! lit "retry-after" in
  if truthy_ostr retryAfter
  then times_1000 (parseInt (default [] retryAfter))
  else Some (calculateBackoffDelay retryCount).

(** [axiosInstance.request(config)] with [config.__retryCount = retryCount]:
    the request is dispatched, and the rejected branch of the response
    interceptor may sleep and issue it again. [remote n] is the reply to the
    [n]-th request this client sends. *)
Fixpoint request (fuel : nat) (remote : nat -> Reply) (retryCount : nat)
    (st : ClientState) : option ((Rejection + Response) * ClientState) :=
  match fuel with
  | O => None
  | S fuel' =>
      let reply := remote (sent st) in
      let st := count_sent st in
      match dispatch reply with
      | inr r => Some (inr r, on_response r st)
      | inl error =>
          let st_code := status <$> response error in
          if decide (st_code = Some 401) then
            Some (inl AuthenticationFailed, st)
          else if decide (st_code = Some 429) then
            let waitTime :=
              match response error with
              | Some r => rate_limit_wait r retryCount
              | None => None
              end in
            if (retryCount <? maxRetries)%nat then
              request fuel' remote (S retryCount) (sleep waitTime st)
            else Some (inl RateLimitExceeded, st)
          else if match st_code with
                  | Some s => negb (s =? 0) && (500 <=? s)
                  | None => false
                  end && (retryCount <? maxRetries)%nat then
            let waitTime := calculateBackoffDelay retryCount in
            request fuel' remote (S retryCount) (sleep (Some waitTime) st)
          else Some (inl (Propagated error), st)
      end
  end.

(** A call made through [getInstance()]: the retry counter starts unset,
    and [maxRetries + 1] dispatches are all a call can make. *)
Definition call (remote : nat -> Reply) (st : ClientState)
  : option ((Rejection + Response) * ClientState) :=
  request (S maxRetries) remote 0 st.

(** A reply with the given status, no headers, delivered at once. *)
Definition plain (code : Z) (b : Body) : Reply :=
  Answers 0 (mkResponse code ∅ b).

(** The remote side answering from a fixed script, then with [last]. *)
Definition scripted (script : list Reply) (last : Reply) : nat -> Reply :=
  fun n => nth n script last.

End CLIENT.

Arguments mkResponse {Body}.
Arguments status {Body}.
Arguments headers {Body}.
Arguments data {Body}.
Arguments Answers {Body}.
Arguments Silent {Body}.
Arguments Unreachable {Body}.
Arguments mkAxiosError {Body}.
Arguments cause {Body}.
Arguments response {Body}.
Arguments Propagated {Body}.
Arguments AuthenticationFailed {Body}.
Arguments RateLimitExceeded {Body}.
Arguments dispatch {Body}.
Arguments request {Body}.
Arguments call {Body}.
Arguments plain {Body}.
Arguments scripted {Body}.
Arguments rate_limit_wait {Body}.
Arguments on_response {Body}.
Arguments timed_out {Body}.

(** *** Sample remote sides *)

(** Three rate-limited answers, then a good one. *)
Definition three_429_then_200 : nat -> Reply unit :=
  scripted [plain 429 tt; plain 429 tt; plain 429 tt] (plain 200 tt).

(** A 429 that names 7 seconds in its retry-after header. *)
Definition wait_7 : Reply unit :=
  Answers 0 (mkResponse 429 (<[lit "retry-after" := lit "7"]> ∅) tt).

(** The first request is never answered; a second one would succeed. *)
Definition hangs_once : nat -> Reply unit := scripted [Silent] (plain 200 tt).

(** The first request meets a 503; the second one succeeds. *)
Definition fails_once : nat -> Reply unit :=
  scripted [plain 503 tt] (plain 200 tt).

End Client.

(** ** Ethical Conflict Check (src/lib/tools/ethical-conflict-check.ts) *)

Module ConflictCheck.

(** A loosely typed remote attribute that the engine reads both as an object
    with a [name] and as a plain string. *)
Inductive Field : Type :=
| FUndefined
| FString (s : jsstring)
| FObject (name : option jsstring).

(** [x?.name || x] *)
Definition name_or_self (x : Field) : Field :=
  match x with
  | FObject (Some n) => if truthy_str n then FString n else x
  | _ => x
  end.

Record Contact : Type := mkContact {
  c_id : jsstring;
  c_name : option jsstring;
  c_first_name : option jsstring;
  c_last_name : option jsstring;
  c_email : option jsstring;
  c_phone : option jsstring;
  c_company : option jsstring
}.

Record Matter : Type := mkMatter {
  m_id : jsstring;
  m_display_number : option jsstring;
  m_number : option jsstring;
  m_description : option jsstring;
  m_status : option jsstring;
  m_practice_area : Field;
  m_closed_date : option jsstring;
  m_updated_at : option jsstring
}.

Record Person : Type := mkPerson {
  p_name : option jsstring;
  p_first_name : option jsstring;
  p_last_name : option jsstring
}.

Record ContactRel : Type := mkContactRel {
  cr_id : option jsstring;
  cr_contact_id : option jsstring;
  cr_name : option jsstring;
  cr_contact : option Person;
  cr_role : option jsstring;
  cr_relationship_type : option jsstring
}.

Record CustomField : Type := mkCustomField {
  cf_value : option jsstring;
  cf_name : option jsstring;
  cf_id : option jsstring
}.

Record MatterDetail : Type := mkMatterDetail {
  md_contacts : option (list ContactRel);
  md_custom_fields : option (list CustomField)
}.

Inductive Kind : Type := contact | matter.

Inductive Details : Type :=
| ContactDetails (email phone company : option jsstring)
| MatterDetails (description status : option jsstring) (practice_area : Field).

Record DirectMatch : Type := mkDirect {
  d_type : Kind;
  d_id : jsstring;
  d_name : jsstring;
  d_details : Details
}.

Record RelatedMatch : Type := mkRelated {
  r_type : Kind;
  r_id : option jsstring;
  r_name : jsstring;
  r_relationship : jsstring;
  r_source_matter_id : jsstring;
  r_source_matter_number : option jsstring
}.

Record ClosedMatter : Type := mkClosed {
  cm_matter_id : jsstring;
  cm_matter_number : jsstring;
  cm_status : option jsstring;
  cm_closed_date : option jsstring
}.

Record ConflictCheckResult : Type := mkResult {
  search_query : jsstring;
  direct_matches : list DirectMatch;
  related_party_matches : list RelatedMatch;
  closed_matter_history : list ClosedMatter
}.

(** Which of two concurrent calls settles first. *)
Inductive Side : Type := First | Second.

(** [hay.includes(needle)] *)
Fixpoint includes (needle hay : jsstring) : bool :=
  starts_with needle hay
  || match hay with
     | [] => false
     | _ :: hay' => includes needle hay'
     end.

(** [`${x}`] for an optional string. *)
Definition render (x : option jsstring) : jsstring :=
  default (lit "undefined") x.

Section ENGINE.

(** What a failed remote call is rejected with. *)
Variable Error : Type.

(** [String.prototype.toLowerCase]. *)
Variable toLowerCase : jsstring -> jsstring.

(** The remote calls the engine makes through the client, each giving the
    error it is rejected with or the [data] member of the response body
    ([None] when the body has none): GET /contacts and GET /matters with a
    query and a limit, GET /matters with a limit only, GET /matters/:id. *)
Variable search_contacts : jsstring -> nat -> Error + option (list Contact).
Variable search_matters : jsstring -> nat -> Error + option (list Matter).
Variable list_matters : nat -> Error + option (list Matter).
Variable get_matter : jsstring -> Error + MatterDetail.

(** The order in which the two initial searches settle. *)
Variable settles_first : Side.

(** [Promise.all] on two promises: both values, or the rejection that
    happens first. *)
Definition promise_all2 {A B} (a : Error + A) (b : Error + B)
  : Error + (A * B) :=
  match a, b with
  | inr x, inr y => inr (x, y)
  | inl e, inr _ => inl e
  | inr _, inl e => inl e
  | inl e1, inl e2 => inl (match settles_first with First => e1 | Second => e2 end)
  end.

Definition contact_display_name (c : Contact) : jsstring :=
  or_str (c_name c)
    (trim (or_str (c_first_name c) [] ++ lit " " ++ or_str (c_last_name c) [])).

Definition direct_contact (c : Contact) : DirectMatch :=
  mkDirect contact (c_id c) (contact_display_name c)
    (ContactDetails (c_email c) (c_phone c) (c_company c)).

Definition direct_matter (m : Matter) : DirectMatch :=
  mkDirect matter (m_id m)
    (or_str (or_ostr (or_ostr (m_display_number m) (m_number m)) (m_description m)) [])
    (MatterDetails (m_description m) (m_status m) (name_or_self (m_practice_area m))).

Definition is_closed (m : Matter) : bool :=
  bool_decide (m_status m = Some (lit "Closed")) || truthy_ostr (m_closed_date m).

Definition closed_entry (m : Matter) : ClosedMatter :=
  mkClosed (m_id m)
    (or_str (or_ostr (m_display_number m) (m_number m)) [])
    (m_status m)
    (or_ostr (m_closed_date m) (m_updated_at m)).

Definition rel_contact_name (cr : ContactRel) : jsstring :=
  let person := default (mkPerson None None None) (cr_contact cr) in
  or_str (or_ostr (cr_name cr) (p_name person))
    (trim (or_str (p_first_name person) [] ++ lit " "
           ++ or_str (p_last_name person) [])).

Definition related_contacts (searchQuery : jsstring) (m : Matter)
    (rels : list ContactRel) : list RelatedMatch :=
  flat_map
    (fun contactRel =>
       let contactName := rel_contact_name contactRel in
       if includes (toLowerCase searchQuery) (toLowerCase contactName) then
         [mkRelated contact
            (or_ostr (cr_id contactRel) (cr_contact_id contactRel))
            contactName
            (or_str (or_ostr (cr_role contactRel) (cr_relationship_type contactRel))
                    (lit "Related Contact"))
            (m_id m)
            (or_ostr (m_display_number m) (m_number m))]
       else [])
    rels.

Definition related_fields (searchQuery : jsstring) (m : Matter)
    (fields : list CustomField) : list RelatedMatch :=
  flat_map
    (fun field =>
       let fieldValue := toLowerCase (or_str (cf_value field) []) in
       if includes (toLowerCase searchQuery) fieldValue then
         let fieldName :=
           or_str (or_ostr (cf_name field) (cf_id field)) (lit "Custom Field") in
         [mkRelated matter (Some (m_id m))
            (or_str (or_ostr (m_display_number m) (m_number m)) [])
            (fieldName ++ lit ": " ++ render (cf_value field))
            (m_id m)
            (or_ostr (m_display_number m) (m_number m))]
       else [])
    fields.

(** One element of [relatedPartyPromises]: a failed detail fetch is caught
    and contributes nothing. *)
Definition related_of (searchQuery : jsstring) (m : Matter) : list RelatedMatch :=
  match get_matter (m_id m) with
  | inl _ => []
  | inr matterDetail =>
      related_contacts searchQuery m (default [] (md_contacts matterDetail))
      ++ related_fields searchQuery m (default [] (md_custom_fields matterDetail))
  end.

Definition candidates (matters : list Matter) : list Matter :=
  if (length matters <? 100)%nat then
    match list_matters 100 with
    | inr allMattersData =>
        let allMatters := default [] allMattersData in
        matters
        ++ List.filter
             (fun m => negb (existsb (fun m' => bool_decide (m_id m' = m_id m)) matters))
             allMatters
    | inl _ => matters
    end
  else matters.

(** [performEthicalConflictCheck]: the structured result that the report
    serialises, or the error the operation is rejected with. *)
Definition performEthicalConflictCheck (searchQuery : jsstring)
  : Error + ConflictCheckResult :=
  match promise_all2 (search_contacts searchQuery 100)
                     (search_matters searchQuery 100) with
  | inl error => inl error
  | inr (contactsData, mattersData) =>
      let contacts := default [] contactsData in
      let matters := default [] mattersData in
      let allMattersForCheck := candidates matters in
      inr (mkResult searchQuery
             (List.map direct_contact contacts ++ List.map direct_matter matters)
             (flat_map (related_of searchQuery) (take 20 allMattersForCheck))
             (List.map closed_entry (List.filter is_closed matters)))
  end.

End ENGINE.

(** *** A sample remote side *)

(** A remote side whose contact search works and whose matter search is
    refused. *)
Definition one_contact : list Contact :=
  [mkContact (lit "c1") (Some (lit "Jane Smith")) None None None None None].

Definition contacts_ok (q : jsstring) (limit : nat)
  : jsstring + option (list Contact) := inr (Some one_contact).

Definition matters_down (q : jsstring) (limit : nat)
  : jsstring + option (list Matter) := inl (lit "503 Service Unavailable").

Definition no_matters (limit : nat) : jsstring + option (list Matter) :=
  inr (Some []).

Definition no_detail (id : jsstring) : jsstring + MatterDetail :=
  inl (lit "404 Not Found").

End ConflictCheck.

(** ** Matter Intelligence Brief: the report
    (src/lib/tools/matter-intelligence-brief.ts) *)

Module Brief.

Section FORMAT.

(** The type of a custom field's value and its rendering in a template
    literal. *)
Variable Value : Type.
Variable String_of : Value -> jsstring.

Record MatterHead : Type := mkMatterHead {
  display_number : jsstring;
  description : option jsstring;
  status : option jsstring;
  practice_area : option jsstring
}.

Record Activity : Type := mkActivity {
  note : jsstring;
  created_at : jsstring;
  created_by : option jsstring
}.

Record Task : Type := mkTask {
  subject : jsstring;
  due_date : option jsstring;
  assigned_to : option jsstring
}.

Record RelatedContact : Type := mkRelatedContact {
  name : jsstring;
  role : option jsstring
}.

(** [custom_fields] is an object used as a map; the list holds its entries
    in the order [Object.entries] enumerates them. *)
Record CaseMetadata : Type := mkCaseMetadata {
  custom_fields : list (jsstring * Value);
  related_contacts : list RelatedContact
}.

Record MatterIntelligenceBriefResult : Type := mkBrief {
  matter : MatterHead;
  recent_activity : list Activity;
  pending_tasks : list Task;
  case_metadata : CaseMetadata
}.

Definition recent_heading : jsstring := lit "## Recent Activity" ++ [nl; nl].
Definition pending_heading : jsstring := lit "## Pending Tasks" ++ [nl; nl].
Definition metadata_heading : jsstring := lit "## Case Metadata" ++ [nl; nl].
Definition no_notes : jsstring := lit "*No recent file notes found.*" ++ [nl; nl].
Definition no_entries : jsstring :=
  lit "*No upcoming calendar entries found.*" ++ [nl; nl].

Definition formatIntelligenceBriefAsMarkdown
    (result : MatterIntelligenceBriefResult) : jsstring :=
  let markdown := lit "# Matter Intelligence Brief" ++ [nl; nl] in
  let markdown :=
    markdown ++ lit "**Matter:** " ++ display_number (matter result) ++ [nl] in
  let markdown :=
    if truthy_ostr (description (matter result))
    then markdown ++ lit "**Description:** "
           ++ default [] (description (matter result)) ++ [nl]
    else markdown in
  let markdown :=
    if truthy_ostr (status (matter result))
    then markdown ++ lit "**Status:** " ++ default [] (status (matter result)) ++ [nl]
    else markdown in
  let markdown :=
    if truthy_ostr (practice_area (matter result))
    then markdown ++ lit "**Practice Area:** "
           ++ default [] (practice_area (matter result)) ++ [nl]
    else markdown in
  let markdown := markdown ++ [nl] ++ lit "---" ++ [nl; nl] in
  (* Recent Activity *)
  let markdown := markdown ++ recent_heading in
  let markdown :=
    if (length (recent_activity result) =? 0)%nat then markdown ++ no_notes
    else
      fold_left
        (fun markdown activity =>
           let markdown := markdown ++ lit "### " ++ created_at activity ++ [nl] in
           let markdown :=
             if truthy_ostr (created_by activity)
             then markdown ++ lit "*By: " ++ default [] (created_by activity)
                    ++ lit "*" ++ [nl]
             else markdown in
           markdown ++ note activity ++ [nl; nl])
        (recent_activity result) markdown in
  (* Pending Tasks *)
  let markdown := markdown ++ pending_heading in
  let markdown :=
    if (length (pending_tasks result) =? 0)%nat then markdown ++ no_entries
    else
      fold_left
        (fun markdown task =>
           let markdown := markdown ++ lit "- **" ++ subject task ++ lit "**" in
           let markdown :=
             if truthy_ostr (due_date task)
             then markdown ++ lit " (Due: " ++ default [] (due_date task) ++ lit ")"
             else markdown in
           let markdown :=
             if truthy_ostr (assigned_to task)
             then markdown ++ lit " - Assigned to: " ++ default [] (assigned_to task)
             else markdown in
           markdown ++ [nl])
        (pending_tasks result) markdown
      ++ [nl] in
  (* Case Metadata *)
  let markdown := markdown ++ metadata_heading in
  let markdown :=
    if (0 <? length (custom_fields (case_metadata result)))%nat then
      fold_left
        (fun markdown kv =>
           markdown ++ lit "- **" ++ fst kv ++ lit ":** " ++ String_of (snd kv)
             ++ [nl])
        (custom_fields (case_metadata result))
        (markdown ++ lit "### Custom Fields" ++ [nl; nl])
      ++ [nl]
    else markdown in
  let markdown :=
    if (0 <? length (related_contacts (case_metadata result)))%nat then
      fold_left
        (fun markdown c =>
           let markdown := markdown ++ lit "- **" ++ name c ++ lit "**" in
           let markdown :=
             if truthy_ostr (role c)
             then markdown ++ lit " (" ++ default [] (role c) ++ lit ")"
             else markdown in
           markdown ++ [nl])
        (related_contacts (case_metadata result))
        (markdown ++ lit "### Related Contacts" ++ [nl; nl])
      ++ [nl]
    else markdown in
  markdown.

(** The pieces of the report, section by section. *)
Definition render_head (m : MatterHead) : jsstring :=
  lit "# Matter Intelligence Brief" ++ [nl; nl]
  ++ lit "**Matter:** " ++ display_number m ++ [nl]
  ++ (if truthy_ostr (description m)
      then lit "**Description:** " ++ default [] (description m) ++ [nl] else [])
  ++ (if truthy_ostr (status m)
      then lit "**Status:** " ++ default [] (status m) ++ [nl] else [])
  ++ (if truthy_ostr (practice_area m)
      then lit "**Practice Area:** " ++ default [] (practice_area m) ++ [nl]
      else [])
  ++ [nl] ++ lit "---" ++ [nl; nl].

Definition render_activity (a : Activity) : jsstring :=
  lit "### " ++ created_at a ++ [nl]
  ++ (if truthy_ostr (created_by a)
      then lit "*By: " ++ default [] (created_by a) ++ lit "*" ++ [nl] else [])
  ++ note a ++ [nl; nl].

Definition render_task (t : Task) : jsstring :=
  lit "- **" ++ subject t ++ lit "**"
  ++ (if truthy_ostr (due_date t)
      then lit " (Due: " ++ default [] (due_date t) ++ lit ")" else [])
  ++ (if truthy_ostr (assigned_to t)
      then lit " - Assigned to: " ++ default [] (assigned_to t) else [])
  ++ [nl].

Definition render_field (kv : jsstring * Value) : jsstring :=
  lit "- **" ++ fst kv ++ lit ":** " ++ String_of (snd kv) ++ [nl].

Definition render_contact (c : RelatedContact) : jsstring :=
  lit "- **" ++ name c ++ lit "**"
  ++ (if truthy_ostr (role c)
      then lit " (" ++ default [] (role c) ++ lit ")" else [])
  ++ [nl].

Definition render_recent (l : list Activity) : jsstring :=
  match l with
  | [] => no_notes
  | _ :: _ => concat (List.map render_activity l)
  end.

Definition render_pending (l : list Task) : jsstring :=
  match l with
  | [] => no_entries
  | _ :: _ => concat (List.map render_task l) ++ [nl]
  end.

Definition render_fields (l : list (jsstring * Value)) : jsstring :=
  match l with
  | [] => []
  | _ :: _ =>
      lit "### Custom Fields" ++ [nl; nl] ++ concat (List.map render_field l) ++ [nl]
  end.

Definition render_contacts (l : list RelatedContact) : jsstring :=
  match l with
  | [] => []
  | _ :: _ =>
      lit "### Related Contacts" ++ [nl; nl]
      ++ concat (List.map render_contact l) ++ [nl]
  end.

(** A brief none of whose three sections has any data. *)
Definition empty_brief (number : jsstring) : MatterIntelligenceBriefResult :=
  mkBrief (mkMatterHead number None None None) [] [] (mkCaseMetadata [] []).

End FORMAT.

Arguments mkCaseMetadata {Value}.
Arguments custom_fields {Value}.
Arguments related_contacts {Value}.
Arguments mkBrief {Value}.
Arguments matter {Value}.
Arguments recent_activity {Value}.
Arguments pending_tasks {Value}.
Arguments case_metadata {Value}.
Arguments formatIntelligenceBriefAsMarkdown {Value}.
Arguments empty_brief {Value}.
Arguments render_field {Value}.
Arguments render_fields {Value}.

(** *** Sample briefs *)

(** The report for a matter with no data at all. *)
Definition bare_brief : jsstring :=
  formatIntelligenceBriefAsMarkdown (Value := unit) (fun _ => [])
    (empty_brief (lit "2024-001")).

(** A brief with one note, one calendar entry, one custom field and one
    related contact. *)
Definition full_brief : MatterIntelligenceBriefResult jsstring :=
  mkBrief
    (mkMatterHead (lit "2024-001") (Some (lit "Motor Vehicle Accident"))
       (Some (lit "Open")) (Some (lit "Personal Injury")))
    [mkActivity (lit "Client called to discuss settlement offer")
       (lit "2024-02-10") (Some (lit "A. Lee"))]
    [mkTask (lit "Court Hearing") (Some (lit "2024-03-01")) None]
    (mkCaseMetadata [(lit "Date of Accident", lit "2024-01-15")]
       [mkRelatedContact (lit "John Doe") (Some (lit "Client"))]).


End Brief.

(** ** Unbilled Activity Audit (src/lib/tools/audit-unbilled-activities.ts) *)

Module Audit.

Import Vague.

(** The JavaScript numbers the audit computes with: the literal [0], [+],
    [*], truthiness, [toFixed(2)] and the rendering in a template literal. *)
Class JsNumber (num : Type) : Type := {
  nzero : num;
  nadd : num -> num -> num;
  nmul : num -> num -> num;
  ntruthy : num -> bool;
  toFixed2 : num -> jsstring;
  nstr : num -> jsstring
}.

(** Decimal rendering of an integer. *)
Definition decimalZ (z : Z) : jsstring :=
  (if z <? 0 then lit "-" else []) ++ decimal (Z.abs_nat z).

(** Whole amounts: integers, on which the arithmetic of doubles is exact
    below 2^53. *)
#[export] Instance Z_number : JsNumber Z := {
  nzero := 0;
  nadd := Z.add;
  nmul := Z.mul;
  ntruthy := fun z => negb (z =? 0);
  toFixed2 := fun z => decimalZ z ++ lit ".00";
  nstr := decimalZ
}.

Section AUDIT.

Context {num : Type} `{JsNumber num}.

(** An activity as the remote API returns it. *)
Record Activity : Type := mkActivity {
  a_id : jsstring;
  a_description : option jsstring;
  a_note : option jsstring;
  a_subject : option jsstring;
  a_date : option jsstring;
  a_created_at : option jsstring;
  a_time_spent : option num;
  a_rate : option num;
  a_billable_amount : option num
}.

Record UnbilledActivity : Type := mkUnbilled {
  id : jsstring;
  description : jsstring;
  date : jsstring;
  time_spent : option num;
  rate : option num;
  billable_amount : num;
  vague_description_flag : bool;
  vague_reason : option jsstring
}.

Record AuditResult : Type := mkAudit {
  matter_id : jsstring;
  total_unbilled_activities : nat;
  total_billable_amount : num;
  vague_descriptions_count : nat;
  activities : list UnbilledActivity
}.

(** An optional number in a boolean context. *)
Definition truthy_onum (o : option num) : bool :=
  match o with Some n => ntruthy n | None => false end.

(** [activity.billable_amount ||
     (activity.time_spent && activity.rate
        ? activity.time_spent * activity.rate : 0) || 0] *)
Definition billableAmount (activity : Activity) : num :=
  if truthy_onum (a_billable_amount activity)
  then default nzero (a_billable_amount activity)
  else
    let computed :=
      if truthy_onum (a_time_spent activity) && truthy_onum (a_rate activity)
      then nmul (default nzero (a_time_spent activity))
                (default nzero (a_rate activity))
      else nzero in
    if ntruthy computed then computed else nzero.

(** The body of the loop over the fetched activities. *)
Definition process (auditResult : AuditResult) (activity : Activity)
  : AuditResult :=
  let description :=
    or_str (or_ostr (or_ostr (a_description activity) (a_note activity))
                    (a_subject activity)) [] in
  let isVague := isVagueDescription description in
  let billableAmount := billableAmount activity in
  mkAudit
    (matter_id auditResult)
    (total_unbilled_activities auditResult)
    (nadd (total_billable_amount auditResult) billableAmount)
    (if isVague then S (vague_descriptions_count auditResult)
     else vague_descriptions_count auditResult)
    (activities auditResult
     ++ [mkUnbilled (a_id activity) description
           (or_str (or_ostr (a_date activity) (a_created_at activity)) [])
           (a_time_spent activity) (a_rate activity) billableAmount isVague
           (if isVague then Some (getVagueReason description) else None)]).

(** The audit result before its activities are sorted by date. *)
Definition audit (matterId : jsstring) (fetched : list Activity) : AuditResult :=
  fold_left process fetched
    (mkAudit matterId (length fetched) nzero 0%nat []).

Definition warning_sign : jsstring := [9888%N; 65039%N].
Definition check_mark : jsstring := [10003%N].

(** The amount at the end of a clear item, when there is one. *)
Definition amount_suffix (a : UnbilledActivity) : jsstring :=
  if ntruthy (billable_amount a)
  then lit " - $" ++ toFixed2 (billable_amount a)
  else [].

Definition formatAuditReport (result : AuditResult) : jsstring :=
  let report := lit "# Unbilled Activities Audit" ++ [nl; nl] in
  let report := report ++ lit "**Matter ID:** " ++ matter_id result ++ [nl] in
  let report :=
    report ++ lit "**Total Unbilled Activities:** "
      ++ decimal (total_unbilled_activities result) ++ [nl] in
  let report :=
    report ++ lit "**Total Billable Amount:** $"
      ++ toFixed2 (total_billable_amount result) ++ [nl] in
  let report :=
    report ++ lit "**Vague Descriptions:** "
      ++ decimal (vague_descriptions_count result) ++ lit " ("
      ++ (if (0 <? vague_descriptions_count result)%nat
          then warning_sign ++ lit " Review Required"
          else check_mark ++ lit " All Clear")
      ++ lit ")" ++ [nl; nl] in
  let report := report ++ lit "---" ++ [nl; nl] in
  if (length (activities result) =? 0)%nat then
    report ++ lit "*No unbilled activities found.*" ++ [nl]
  else
    let vagueActivities := List.filter vague_description_flag (activities result) in
    let clearActivities :=
      List.filter (fun a => negb (vague_description_flag a)) (activities result) in
    let report :=
      if (0 <? length vagueActivities)%nat then
        let report :=
          report ++ lit "## " ++ warning_sign ++ lit " Vague Descriptions ("
            ++ decimal (length vagueActivities) ++ lit ")" ++ [nl; nl] in
        let report :=
          report
            ++ lit "*These descriptions may be rejected by insurance. Please review and update.*"
            ++ [nl; nl] in
        fold_left
          (fun report activity =>
             let report := report ++ lit "### Activity " ++ id activity ++ [nl] in
             let report := report ++ lit "- **Date:** " ++ date activity ++ [nl] in
             let report :=
               report ++ lit "- **Description:** " ++ [dq] ++ description activity
                 ++ [dq] ++ [nl] in
             let report :=
               report ++ lit "- **Issue:** "
                 ++ default (lit "undefined") (vague_reason activity) ++ [nl] in
             let report :=
               if truthy_onum (time_spent activity)
               then report ++ lit "- **Time:** "
                      ++ from_option nstr [] (time_spent activity)
                      ++ lit " hours" ++ [nl]
               else report in
             let report :=
               if ntruthy (billable_amount activity)
               then report ++ lit "- **Amount:** $"
                      ++ toFixed2 (billable_amount activity) ++ [nl]
               else report in
             report ++ [nl])
          vagueActivities report
        ++ [nl]
      else report in
    let report :=
      if (0 <? length clearActivities)%nat then
        let report :=
          report ++ lit "## " ++ check_mark ++ lit " Clear Descriptions ("
            ++ decimal (length clearActivities) ++ lit ")" ++ [nl; nl] in
        let report :=
          fold_left
            (fun report activity =>
               report ++ lit "- **" ++ date activity ++ lit "** - "
                 ++ description activity
                 ++ amount_suffix activity ++ [nl])
            (take 20 clearActivities) report in
        let report :=
          if (20 <? length clearActivities)%nat
          then report ++ [nl] ++ lit "*... and "
                 ++ decimal (length clearActivities - 20)
                 ++ lit " more clear activities*" ++ [nl]
          else report in
        report ++ [nl]
      else report in
    report.

(** The remote side: the primary endpoint and the fall-back one, each giving
    the [data] member of the response body or failing. *)
Variable Error : Type.
Variable get_activities : jsstring -> Error + option (list Activity).
Variable get_time_entries : jsstring -> Error + option (list Activity).

(** [Array.prototype.sort] with the date comparator; all that is used of it
    is that it reorders. *)
Variable sort_by_date : list UnbilledActivity -> list UnbilledActivity.

Definition unavailable : jsstring :=
  lit "Unable to fetch activities. Endpoint may not be available for this matter.".

Definition auditUnbilledActivities (matterId : jsstring) : jsstring + jsstring :=
  let activitiesResponse :=
    match get_activities matterId with
    | inr data => inr data
    | inl _ =>
        match get_time_entries matterId with
        | inr data => inr data
        | inl _ => inl unavailable
        end
    end in
  match activitiesResponse with
  | inl message => inl message
  | inr data =>
      let auditResult := audit matterId (default [] data) in
      let auditResult :=
        mkAudit (matter_id auditResult) (total_unbilled_activities auditResult)
          (total_billable_amount auditResult)
          (vague_descriptions_count auditResult)
          (sort_by_date (activities auditResult)) in
      inr (formatAuditReport auditResult)
  end.

(** The billable amount as the specification words it: the provided amount
    when one is given, else time spent times rate when both are given, else
    zero. *)
Definition billable_per_spec (activity : Activity) : num :=
  match a_billable_amount activity with
  | Some amount => amount
  | None =>
      match a_time_spent activity, a_rate activity with
      | Some t, Some r => nmul t r
      | _, _ => nzero
      end
  end.

End AUDIT.

(** An activity that carries only a provided amount. *)
Definition priced (n : nat) (amount : Z) : Activity (num := Z) :=
  mkActivity (decimal n)
    (Some (lit "Prepared comprehensive discovery responses")) None None
    (Some (lit "2024-02-01")) None None None (Some amount).

Definition five_activities : list (Activity (num := Z)) :=
  [priced 1 875; priced 2 500; priced 3 375; priced 4 1000; priced 5 125].

(** An activity given a zero amount together with two hours at rate 100. *)
Definition zero_priced : Activity (num := Z) :=
  mkActivity (lit "7") (Some (lit "Reviewed and revised settlement agreement"))
    None None (Some (lit "2024-02-01")) None (Some 2) (Some 100) (Some 0).

(** *** The amounts and the report, piece by piece *)

(** The sum of a list of whole amounts. *)
Definition sumZ (l : list Z) : Z := fold_right Z.add 0 l.

(** Time spent times rate when both are given, else zero. *)
Definition from_time (a : Activity (num := Z)) : Z :=
  match a_time_spent a, a_rate a with
  | Some t, Some r => t * r
  | _, _ => 0
  end.

(** The provided amount when one is given and is not zero, else
    [from_time]. *)
Definition billable_amended (a : Activity (num := Z)) : Z :=
  match a_billable_amount a with
  | Some amount => if amount =? 0 then from_time a else amount
  | None => from_time a
  end.

(** The report of the five priced activities under a given sort. *)
Definition five_report (sort : list UnbilledActivity -> list UnbilledActivity)
  : jsstring + jsstring :=
  auditUnbilledActivities unit (fun _ => inr (Some five_activities))
    (fun _ => inl tt) sort (lit "12345").

(** The first four lines of a report. *)
Definition summary (result : AuditResult (num := Z)) : jsstring :=
  lit "# Unbilled Activities Audit" ++ [nl; nl]
  ++ lit "**Matter ID:** " ++ matter_id result ++ [nl]
  ++ lit "**Total Unbilled Activities:** "
  ++ decimal (total_unbilled_activities result) ++ [nl]
  ++ lit "**Total Billable Amount:** $"
  ++ toFixed2 (total_billable_amount result) ++ [nl].

Definition render_vague_item (activity : UnbilledActivity (num := Z)) : jsstring :=
  lit "### Activity " ++ id activity ++ [nl]
  ++ lit "- **Date:** " ++ date activity ++ [nl]
  ++ lit "- **Description:** " ++ [dq] ++ description activity ++ [dq] ++ [nl]
  ++ lit "- **Issue:** " ++ default (lit "undefined") (vague_reason activity)
  ++ [nl]
  ++ (if truthy_onum (time_spent activity)
      then lit "- **Time:** " ++ from_option nstr [] (time_spent activity)
           ++ lit " hours" ++ [nl]
      else [])
  ++ (if ntruthy (billable_amount activity)
      then lit "- **Amount:** $" ++ toFixed2 (billable_amount activity) ++ [nl]
      else [])
  ++ [nl].

Definition render_clear_item (activity : UnbilledActivity (num := Z)) : jsstring :=
  lit "- **" ++ date activity ++ lit "** - " ++ description activity
  ++ amount_suffix activity ++ [nl].

End Audit.

(** ** More of the token broker: sample worlds *)

Module SessionSamples.

Import Sessions.

(** An empty table under a clock that stands at 1000 ms. *)
Definition fresh_world : World := mkWorld ∅ (fun _ => 1000) 0.

End SessionSamples.

(** ** More of the inbound rate limiter: the clean-up and a run of requests *)

Module RateLimitRuns.

Import RateLimit.

(** The clean-up callback that runs every five minutes. *)
Definition sweep_limits (now : Z) (rateLimitStore : gmap jsstring RateLimitEntry)
  : gmap jsstring RateLimitEntry :=
  filter (fun kv => ~ (resetAt (snd kv) < now)) rateLimitStore.

(** The same caller's requests checked one after the other, at the given
    times: the verdicts, oldest first. *)
Fixpoint serve (request : Request) (maxRequests windowMs : Z) (times : list Z)
    (rateLimitStore : gmap jsstring RateLimitEntry) : list Verdict :=
  match times with
  | [] => []
  | now :: later =>
      let '(verdict, store') :=
        checkRateLimit request maxRequests windowMs now rateLimitStore in
      verdict :: serve request maxRequests windowMs later store'
  end.

(** The entry a request is counted on: the stored one while its window has
    not elapsed, a new one otherwise. *)
Definition current (windowMs now : Z) (stored : option RateLimitEntry)
  : RateLimitEntry :=
  match stored with
  | Some e => if resetAt e <? now then mkEntry 0 (now + windowMs) else e
  | None => mkEntry 0 (now + windowMs)
  end.

(** A request with nothing but a forwarded address. *)
Definition plain_request : Request :=
  mkRequest [] (<[lit "x-forwarded-for" := lit "203.0.113.7"]> ∅).

End RateLimitRuns.

(** ** More of the resilient client: sample remote sides *)

Module ClientSamples.

Import Client.

(** A missing resource, then a good answer that would never be asked for. *)
Definition not_found_once : nat -> Reply unit :=
  scripted [plain 404 tt] (plain 200 tt).

(** A rate-limited answer that carries the remote side's own estimate, then
    a failure of the server that never ends. *)
Definition limited_then_down : nat -> Reply unit :=
  scripted
    [Answers 0 (mkResponse 429 (<[lit "x-ratelimit-remaining" := lit "0"]> ∅) tt)]
    (plain 503 tt).

(** Two failures of the server, then a good answer with the remote side's
    estimate. *)
Definition down_twice : nat -> Reply unit :=
  scripted [plain 500 tt; plain 502 tt]
    (Answers 0 (mkResponse 200 (<[lit "x-ratelimit-remaining" := lit "41"]> ∅) tt)).

(** The exponential delays before the retries numbered [from],
    [from + 1], ... *)
Definition schedule (from retries : nat) : list (option Z) :=
  List.map (fun i => Some (calculateBackoffDelay i)) (seq from retries).

End ClientSamples.

(** ** Credential resolution of the client factory
    (src/lib/clio-client-production.ts, createClioClient) *)

Module Credentials.

Import Sessions RateLimit.

(** What the factory hands back: the mock client, or a client bound to a
    credential, in the state its constructor leaves it in. *)
Inductive Created : Type :=
| MockClient
| RealClient (token : jsstring) (state : Client.ClientState).

Definition token_not_found : jsstring :=
  lit "Clio token not found. Please authenticate first via https://clio-mcp.th3-sh0p.com and get a session ID from /api/auth/session".

Definition bearer : jsstring := lit "Bearer ".

(** The session identifier of the query string. *)
Definition from_query (request : Request) : M (option jsstring) :=
  let sessionIdFromQuery := searchParams_get (lit "sessionId") (searchParams request) in
  if truthy_ostr sessionIdFromQuery
  then getSessionToken (default [] sessionIdFromQuery) true
  else ret None.

(** The first [if (!token)] block: the Authorization header, as a session
    reference or as a credential of its own. *)
Definition from_authorization (request : Request) (token : option jsstring)
  : M (option jsstring) :=
  if negb (truthy_ostr token) then
    let authHeader := headers_get (lit "Authorization") request in
    if truthy_ostr authHeader then
      if starts_with bearer_session (default [] authHeader) then
        getSessionToken (substring_from 15 (default [] authHeader)) true
      else if starts_with bearer (default [] authHeader) then
        ret (Some (substring_from 7 (default [] authHeader)))
      else ret token
    else ret token
  else ret token.

(** The second [if (!token)] block: the dedicated session header. *)
Definition from_session_header (request : Request) (token : option jsstring)
  : M (option jsstring) :=
  if negb (truthy_ostr token) then
    let sessionId := headers_get (lit "X-MCP-Session-ID") request in
    if truthy_ostr sessionId
    then getSessionToken (default [] sessionId) true
    else ret token
  else ret token.

(** [createClioClient]: [useMock] says whether USE_MOCK_DATA is the string
    true, [request] is the inbound request when there is one, and
    [cookieToken] is what [getClioToken()] resolves to. The constructor of
    the client reads the clock for its first rate-limit estimate. *)
Definition createClioClient (useMock : bool) (request : option Request)
    (cookieToken : option jsstring) : M (jsstring + Created) :=
  if useMock then ret (inr MockClient)
  else
    do token <-
      match request with
      | Some request =>
          do token <- from_query request;
          do token <- from_authorization request token;
          from_session_header request token
      | None => ret None
      end;
    let token := if negb (truthy_ostr token) then cookieToken else token in
    if negb (truthy_ostr token) then ret (inl token_not_found)
    else
      do now <- Date_now;
      ret (inr (RealClient (default [] token) (Client.initial now))).

(** The credential a created client is bound to. *)
Definition bound_token (result : jsstring + Created) : option jsstring :=
  match result with
  | inr (RealClient token _) => Some token
  | _ => None
  end.

(** *** Sample requests *)

(** A request that names the session [a] in its query string and carries a
    credential and the session [b] in its headers. *)
Definition crowded_request : Request :=
  mkRequest [(lit "sessionId", lit "a")]
    (<[lit "authorization" := lit "Bearer direct-token"]>
       (<[lit "x-mcp-session-id" := lit "b"]> ∅)).

(** A request whose only credential is a reference to an unknown session. *)
Definition dangling_request : Request :=
  mkRequest [] (<[lit "authorization" := lit "Bearer session:gone"]> ∅).

(** A request that carries a credential of its own. *)
Definition direct_request : Request :=
  mkRequest [] (<[lit "authorization" := lit "Bearer direct-token"]> ∅).

(** A request that names the session [b] in the dedicated header only. *)
Definition header_session_request : Request :=
  mkRequest [] (<[lit "x-mcp-session-id" := lit "b"]> ∅).

End Credentials.

(** ** More of the redaction filter: nested values
    (src/lib/pii-redaction.ts, redactPIIFromObject) *)

Module DeepRedaction.

Import Redaction.

(** The values that are logged: what JSON can hold, and [undefined]. An
    object is the list of its entries in the order [Object.entries]
    enumerates them; numbers only pass through, and are kept as integers. *)
#[warnings="-register-all"]
Inductive json : Type :=
| JNull
| JUndefined
| JBool (b : bool)
| JNum (z : Z)
| JStr (s : jsstring)
| JArr (items : list json)
| JObj (entries : list (jsstring * json)).

Definition safeKeys : list jsstring :=
  [lit "id"; lit "type"; lit "status"; lit "created_at"; lit "updated_at";
   lit "meta"; lit "paging"].

(** [safeKeys.includes(key.toLowerCase())]. The safe keys are ASCII and hold
    no letter that a character outside ASCII lower-cases to, so lower-casing
    the ASCII letters of the key decides the test. *)
Definition is_safe_key (key : jsstring) : bool :=
  existsb (fun safe => bool_decide (safe = RateLimit.lower_name key)) safeKeys.

Fixpoint redactPIIFromObject (obj : json) : json :=
  match obj with
  | JNull => obj
  | JUndefined => obj
  | JStr s => JStr (redactPII s)
  | JArr items => JArr (List.map redactPIIFromObject items)
  | JObj entries =>
      JObj (List.map
              (fun entry =>
                 match entry with
                 | (key, value) =>
                     if is_safe_key key then (key, value)
                     else (key, redactPIIFromObject value)
                 end)
              entries)
  | JBool _ => obj
  | JNum _ => obj
  end.

(** A value with the text of every string leaf taken out: what is left is
    its shape. *)
Fixpoint shape (v : json) : json :=
  match v with
  | JStr _ => JStr []
  | JArr items => JArr (List.map shape items)
  | JObj entries =>
      JObj (List.map (fun entry => match entry with (key, value) => (key, shape value) end)
              entries)
  | _ => v
  end.

Definition fields_of (v : json) : list (jsstring * json) :=
  match v with
  | JObj entries => entries
  | _ => []
  end.

(** The code units that a substitution of the filter needs to see at least
    one of: a digit, the at sign, the double quote. *)
Definition is_trigger (c : N) : bool := is_digit c || (c =? 64)%N || (c =? dq)%N.

(** A pattern every match of which consumes a code unit of the class [P]. *)
Inductive needs (P : N -> bool) : regex -> Prop :=
| needs_chr (q : N -> bool) :
    (forall c, q c = true -> P c = true) -> needs P (Chr q)
| needs_cat_l (r1 r2 : regex) : needs P r1 -> needs P (Cat r1 r2)
| needs_cat_r (r1 r2 : regex) : needs P r2 -> needs P (Cat r1 r2)
| needs_alt (r1 r2 : regex) : needs P r1 -> needs P r2 -> needs P (Alt r1 r2).

(** A text none of whose code units is in the class [P]. *)
Definition free (P : N -> bool) (s : jsstring) : Prop :=
  Forall (fun c => P c = false) s.

(** A logged record with a number-like id, an e-mail address under the key
    Meta, and an e-mail address as a key. *)
Definition record_with_meta : json :=
  JObj [(lit "id", JStr (lit "5551234567"));
        (lit "Meta", JObj [(lit "email", JStr (lit "jo@example.com"))]);
        (lit "jo@example.com", JArr [JStr (lit "jo@example.com"); JNum 5; JNull])].

End DeepRedaction.

(** ** More of the audit: the entries and sample results
    (src/lib/tools/audit-unbilled-activities.ts) *)

Module AuditViews.

Import Vague Audit.

Section ENTRY.

Context {num : Type} `{JsNumber num}.

(** The entry that the loop over the fetched activities pushes for one
    activity. *)
Definition entry_of (activity : Activity (num := num))
  : UnbilledActivity (num := num) :=
  let description :=
    or_str (or_ostr (or_ostr (a_description activity) (a_note activity))
                    (a_subject activity)) [] in
  let isVague := isVagueDescription description in
  mkUnbilled (a_id activity) description
    (or_str (or_ostr (a_date activity) (a_created_at activity)) [])
    (a_time_spent activity) (a_rate activity) (billableAmount activity) isVague
    (if isVague then Some (getVagueReason description) else None).

Definition is_clear (a : UnbilledActivity (num := num)) : bool :=
  negb (vague_description_flag a).

End ENTRY.

(** A clearly described entry of a given number and amount. *)
Definition clear_entry (n : nat) (amount : Z) : UnbilledActivity (num := Z) :=
  mkUnbilled (decimal n) (lit "Prepared comprehensive discovery responses")
    (lit "2024-02-01") None None amount false None.

(** Twenty-two clear entries, the last two with a given amount. *)
Definition long_result (amount : Z) : AuditResult (num := Z) :=
  mkAudit (lit "12345") 22 2200 0
    (List.map (fun n => clear_entry n 100) (seq 1 20)
     ++ [clear_entry 21 amount; clear_entry 22 amount]).

(** A remote side whose activities endpoint is missing. *)
Definition no_activities (matterId : jsstring)
  : jsstring + option (list (Activity (num := Z))) := inl (lit "404 Not Found").

Definition time_entries_ok (matterId : jsstring)
  : jsstring + option (list (Activity (num := Z))) := inr (Some five_activities).

Definition time_entries_down (matterId : jsstring)
  : jsstring + option (list (Activity (num := Z))) :=
  inl (lit "503 Service Unavailable").

End AuditViews.

(** ** Assembling the brief
    (src/lib/tools/matter-intelligence-brief.ts, getMatterIntelligenceBrief) *)

Module BriefFetch.

Import ConflictCheck Brief.

(** *** An object used as a map *)

(** The number a property key denotes when it is an array index: a decimal
    numeral without superfluous zero, below 2^32 - 1. *)
Definition index_of (key : jsstring) : option N :=
  let canonical :=
    match key with
    | [] => false
    | [c] => is_digit c
    | c :: _ => forallb is_digit key && negb (c =? 48)%N
    end in
  let n := fold_left (fun acc c => (10 * acc + (c - 48))%N) key 0%N in
  if canonical && (n <? 4294967295)%N then Some n else None.

Definition has_key {V} (key : jsstring) (entries : list (jsstring * V)) : bool :=
  existsb (fun entry => bool_decide (fst entry = key)) entries.

(** A new index key goes in front of the first key that is no index or a
    greater one. *)
Fixpoint insert_index {V} (n : N) (key : jsstring) (value : V)
    (entries : list (jsstring * V)) : list (jsstring * V) :=
  match entries with
  | [] => [(key, value)]
  | entry :: rest =>
      match index_of (fst entry) with
      | Some m =>
          if (n <? m)%N then (key, value) :: entries
          else entry :: insert_index n key value rest
      | None => (key, value) :: entries
      end
  end.

(** [obj[key] = value] on the entries of [obj] in the order [Object.entries]
    enumerates them: index keys in ascending order first, then the other
    keys in the order they were created; assigning to a key the object has
    keeps its place. *)
Definition set_property {V} (key : jsstring) (value : V)
    (entries : list (jsstring * V)) : list (jsstring * V) :=
  if has_key key entries then
    List.map (fun entry =>
                if bool_decide (fst entry = key) then (key, value) else entry)
      entries
  else
    match index_of key with
    | Some n => insert_index n key value entries
    | None => entries ++ [(key, value)]
    end.

(** [obj[key]] *)
Fixpoint get_property {V} (key : jsstring) (entries : list (jsstring * V))
  : option V :=
  match entries with
  | [] => None
  | entry :: rest =>
      if bool_decide (fst entry = key) then Some (snd entry)
      else get_property key rest
  end.

(** *** What the remote side returns *)

(** An object of which only the [name] is read. *)
Record Named : Type := mkNamed { nm_name : option jsstring }.

(** [x?.name] *)
Definition name_of (x : option Named) : option jsstring :=
  match x with
  | Some named => nm_name named
  | None => None
  end.

Record Note : Type := mkNote {
  n_note : option jsstring;
  n_body : option jsstring;
  n_created_at : option jsstring;
  n_date : option jsstring;
  n_created_by : option Named;
  n_user : option Named
}.

Record Entry : Type := mkEntry {
  e_subject : option jsstring;
  e_title : option jsstring;
  e_start_at : option jsstring;
  e_due_date : option jsstring;
  e_assigned_to : option Named;
  e_user : option Named
}.

Record RemoteContact : Type := mkRemoteContact {
  rc_name : option jsstring;
  rc_contact : option Named;
  rc_role : option jsstring;
  rc_relationship_type : option jsstring
}.

Section FETCH.

(** The type of a custom field's value, its rendering in a template literal
    and the test [value === '']. *)
Variable Value : Type.
Variable String_of : Value -> jsstring.
Variable is_empty_string : Value -> bool.

(** A custom field as the remote side lists it; a value that is [null] or
    [undefined] is [None]. *)
Record RemoteField : Type := mkRemoteField {
  rf_value : option Value;
  rf_name : option jsstring;
  rf_id : option jsstring
}.

Record RemoteMatter : Type := mkRemoteMatter {
  rm_display_number : option jsstring;
  rm_number : option jsstring;
  rm_description : option jsstring;
  rm_status : option jsstring;
  rm_practice_area : Field;
  rm_custom_fields : option (list RemoteField);
  rm_contacts : option (list RemoteContact)
}.

(** The object [{}] that stands for the matter when its fetch fails. *)
Definition no_matter : RemoteMatter :=
  mkRemoteMatter None None None None FUndefined None None.

(** What a failed remote call is rejected with. *)
Variable Error : Type.

(** The three remote calls, each giving the error it is rejected with or
    what the response body holds: the matter, and the [data] member of the
    two listings ([None] when the body has none). *)
Variable get_matter : jsstring -> Error + RemoteMatter.
Variable get_file_notes : jsstring -> Error + option (list Note).
Variable get_calendar_entries : jsstring -> Error + option (list Entry).

(** [field.name || field.id] used as a property key. *)
Definition field_key (field : RemoteField) : jsstring :=
  render (or_ostr (rf_name field) (rf_id field)).

(** [field.value !== null && field.value !== undefined && field.value !== ''] *)
Definition has_value (field : RemoteField) : bool :=
  match rf_value field with
  | Some value => negb (is_empty_string value)
  | None => false
  end.

(** The loop that fills [customFields]. *)
Definition collect (fields : list RemoteField) : list (jsstring * Value) :=
  fold_left
    (fun customFields field =>
       match rf_value field with
       | Some value =>
           if negb (is_empty_string value)
           then set_property (field_key field) value customFields
           else customFields
       | None => customFields
       end)
    fields [].

Definition activity_of (note : Note) : Activity :=
  mkActivity
    (or_str (or_ostr (n_note note) (n_body note)) [])
    (render (or_ostr (n_created_at note) (n_date note)))
    (or_ostr (name_of (n_created_by note)) (name_of (n_user note))).

Definition task_of (entry : Entry) : Task :=
  mkTask
    (or_str (or_ostr (e_subject entry) (e_title entry)) [])
    (or_ostr (e_start_at entry) (e_due_date entry))
    (or_ostr (name_of (e_assigned_to entry)) (name_of (e_user entry))).

Definition contact_of (contact : RemoteContact) : RelatedContact :=
  mkRelatedContact
    (or_str (or_ostr (rc_name contact) (name_of (rc_contact contact))) [])
    (or_ostr (rc_role contact) (rc_relationship_type contact)).

(** [matter.practice_area?.name || matter.practice_area] as the brief shows
    it: an object without a usable name is truthy and renders as the fixed
    text of an object. *)
Definition practice_area_of (x : Field) : option jsstring :=
  match name_or_self x with
  | FUndefined => None
  | FString s => Some s
  | FObject _ => Some (lit "[object Object]")
  end.

(** The structured result: [Promise.allSettled] never rejects, the matter
    falls back to [{}] and each listing to the empty list. The [id] members,
    which the brief does not show, are left out as in [Brief]. *)
Definition brief_result (matterId : jsstring)
  : MatterIntelligenceBriefResult Value :=
  let matter :=
    match get_matter matterId with
    | inr matter => matter
    | inl _ => no_matter
    end in
  let fileNotes :=
    match get_file_notes matterId with
    | inr data => default [] data
    | inl _ => []
    end in
  let calendarEntries :=
    match get_calendar_entries matterId with
    | inr data => default [] data
    | inl _ => []
    end in
  let customFields := collect (default [] (rm_custom_fields matter)) in
  let recentActivity := List.map activity_of (take 5 fileNotes) in
  let pendingTasks := List.map task_of calendarEntries in
  let relatedContacts :=
    List.map contact_of (default [] (rm_contacts matter)) in
  mkBrief
    (mkMatterHead
       (or_str (or_ostr (rm_display_number matter) (rm_number matter)) [])
       (rm_description matter) (rm_status matter)
       (practice_area_of (rm_practice_area matter)))
    recentActivity pendingTasks
    (mkCaseMetadata customFields relatedContacts).

Definition getMatterIntelligenceBrief (matterId : jsstring) : jsstring :=
  formatIntelligenceBriefAsMarkdown String_of (brief_result matterId).

End FETCH.

Arguments mkRemoteField {Value}.
Arguments rf_value {Value}.
Arguments rf_name {Value}.
Arguments rf_id {Value}.
Arguments mkRemoteMatter {Value}.
Arguments no_matter {Value}.
Arguments field_key {Value}.
Arguments has_value {Value}.
Arguments collect {Value}.

(** *** A sample remote side *)

Definition sample_fields : list (RemoteField jsstring) :=
  [mkRemoteField (Some (lit "Smith & Co")) (Some (lit "Opposing Counsel")) None;
   mkRemoteField (Some (lit "2024-01-15")) None (Some (lit "17"));
   mkRemoteField (Some []) (Some (lit "Judge")) None;
   mkRemoteField None (Some (lit "Court")) None;
   mkRemoteField (Some (lit "Jones LLP")) (Some (lit "Opposing Counsel")) None;
   mkRemoteField (Some (lit "high")) None (Some (lit "4"))].

Definition sample_matter : RemoteMatter jsstring :=
  mkRemoteMatter (Some (lit "2024-001")) None (Some (lit "Motor Vehicle Accident"))
    (Some (lit "Open")) (FObject (Some (lit "Personal Injury")))
    (Some sample_fields) None.

Definition numbered_note (n : nat) : Note :=
  mkNote (Some (lit "Note " ++ decimal n)) None (Some (lit "2024-02-10")) None
    None None.

Definition matter_ok (matterId : jsstring) : jsstring + RemoteMatter jsstring :=
  inr sample_matter.

Definition matter_down (matterId : jsstring) : jsstring + RemoteMatter jsstring :=
  inl (lit "404 Not Found").

Definition notes_of (count : nat) (matterId : jsstring)
  : jsstring + option (list Note) :=
  inr (Some (List.map numbered_note (seq 1 count))).

Definition notes_down (matterId : jsstring) : jsstring + option (list Note) :=
  inl (lit "404 Not Found").

Definition entries_down (matterId : jsstring) : jsstring + option (list Entry) :=
  inl (lit "404 Not Found").

Definition is_empty (value : jsstring) : bool := negb (truthy_str value).

End BriefFetch.

(** ** A sample remote side for the conflict check with matters to look into *)

Module ConflictSamples.

Import ConflictCheck.

Definition numbered_matter (n : nat) : Matter :=
  mkMatter (decimal n) (Some (lit "2024-" ++ decimal n)) None
    (Some (lit "Smith v. Jones")) (Some (lit "Open")) FUndefined None None.

(** A search that finds twenty matters. *)
Definition twenty_matters (q : jsstring) (limit : nat)
  : jsstring + option (list Matter) :=
  inr (Some (List.map numbered_matter (seq 1 20))).

(** A search that finds one matter. *)
Definition one_matter (q : jsstring) (limit : nat)
  : jsstring + option (list Matter) :=
  inr (Some [numbered_matter 1]).

(** A listing with one more matter. *)
Definition listing (limit : nat) : jsstring + option (list Matter) :=
  inr (Some [numbered_matter 1; numbered_matter 30]).

Definition listing_down (limit : nat) : jsstring + option (list Matter) :=
  inl (lit "503 Service Unavailable").

(** Every matter has one related contact and one custom field. *)
Definition detail (id : jsstring) : jsstring + MatterDetail :=
  inr (mkMatterDetail
         (Some [mkContactRel (Some (lit "c9")) None (Some (lit "John Smithson"))
                  None (Some (lit "Opposing Party")) None])
         (Some [mkCustomField (Some (lit "Smith & Co")) (Some (lit "Counsel")) None])).

End ConflictSamples.

(** * Properties *)

(** ** Strings *)

Section StringFacts.

Lemma drop_while_length {A} (p : A -> bool) (l : list A) :
  (length (Js.drop_while p l) <= length l)%nat.
Proof.
  induction l as [|x l IH]; simpl; [lia|].
  destruct (p x); simpl; lia.
Qed.

Lemma trim_length (s : jsstring) : (length (trim s) <= length s)%nat.
Proof.
  unfold trim. rewrite length_rev.
  etransitivity; [apply drop_while_length|].
  rewrite length_rev. apply drop_while_length.
Qed.

Lemma trim_nil : trim [] = [].
Proof. reflexivity. Qed.

Lemma length_zero_nil {A} (l : list A) : (length l =? 0)%nat = true <-> l = [].
Proof.
  rewrite Nat.eqb_eq. split; [apply nil_length_inv | intros ->; reflexivity].
Qed.

(** Repeated [+=] in a loop appends the pieces in order. *)
Lemma fold_left_append {A} (f : A -> jsstring) (l : list A) (init : jsstring) :
  fold_left (fun acc x => acc ++ f x) l init = init ++ concat (List.map f l).
Proof.
  revert init. induction l as [|x l IH]; intros init; simpl.
  - now rewrite app_nil_r.
  - rewrite IH. now rewrite <- app_assoc.
Qed.

Lemma fold_left_pieces {A} (g : jsstring -> A -> jsstring) (f : A -> jsstring)
    (l : list A) (init : jsstring) :
  (forall acc x, g acc x = acc ++ f x) ->
  fold_left g l init = init ++ concat (List.map f l).
Proof.
  intros Hg. rewrite <- fold_left_append.
  revert init. induction l as [|x l IH]; intros init; simpl; [reflexivity|].
  now rewrite Hg, IH.
Qed.

Lemma starts_with_length (p s : jsstring) :
  starts_with p s = true -> (length p <= length s)%nat.
Proof.
  revert s. induction p as [|a p IH]; intros [|b s]; simpl;
    try lia; try discriminate.
  intros Hs. apply andb_true_iff in Hs as [_ Hs]. apply IH in Hs. lia.
Qed.

Lemma starts_with_app_l (p s rest : jsstring) :
  starts_with p s = true -> starts_with p (s ++ rest) = true.
Proof.
  revert s. induction p as [|a p IH]; intros [|b s]; simpl;
    try reflexivity; try discriminate.
  intros Hs. apply andb_true_iff in Hs as [Hab Hs].
  now rewrite Hab, (IH s Hs).
Qed.

Lemma starts_with_app_false (p s rest : jsstring) :
  starts_with p s = false -> (length p <= length s)%nat ->
  starts_with p (s ++ rest) = false.
Proof.
  revert s. induction p as [|a p IH]; intros [|b s]; simpl;
    try discriminate; try lia.
  intros Hs Hlen. destruct (a =? b)%N; simpl in *; [|reflexivity].
  apply IH; [exact Hs | lia].
Qed.

Lemma after_length (marker s x : jsstring) :
  after marker s = Some x -> (length marker <= length s)%nat.
Proof.
  induction s as [|c s IH]; simpl.
  - destruct (starts_with marker []) eqn:Hs; [|discriminate].
    intros _. now apply starts_with_length in Hs.
  - destruct (starts_with marker (c :: s)) eqn:Hs.
    + intros _. now apply starts_with_length in Hs.
    + intros Hx. apply IH in Hx. simpl. lia.
Qed.

(** What follows a marker is not disturbed by text appended to a report in
    which the marker already occurs. *)
Lemma after_app (marker s rest x : jsstring) :
  after marker s = Some x -> after marker (s ++ rest) = Some (x ++ rest).
Proof.
  induction s as [|c s IH]; simpl.
  - destruct (starts_with marker []) eqn:Hs; [|discriminate].
    intros Hx. injection Hx as <-.
    destruct marker; [|discriminate]. simpl.
    destruct rest; reflexivity.
  - destruct (starts_with marker (c :: s)) eqn:Hs.
    + intros Hx. injection Hx as <-.
      pose proof (starts_with_length _ _ Hs) as Hlen.
      change (c :: s ++ rest) with ((c :: s) ++ rest).
      rewrite (starts_with_app_l _ _ rest Hs).
      now rewrite drop_app_le.
    + intros Hx. pose proof (after_length _ _ _ Hx) as Hlen.
      change (c :: s ++ rest) with ((c :: s) ++ rest).
      rewrite (starts_with_app_false _ _ rest Hs) by (simpl; lia).
      simpl. now apply IH.
Qed.

Lemma up_to_newline_app (x rest : jsstring) :
  existsb (fun c => (c =? nl)%N) x = true ->
  up_to_newline (x ++ rest) = up_to_newline x.
Proof.
  induction x as [|c x IH]; simpl; [discriminate|].
  destruct (c =? nl)%N; simpl; [reflexivity|].
  intros Hx. now rewrite IH.
Qed.

Lemma line_after_app (marker s rest x : jsstring) :
  after marker s = Some x -> existsb (fun c => (c =? nl)%N) x = true ->
  line_after marker (s ++ rest) = Some (up_to_newline x).
Proof.
  intros Ha Hnl. unfold line_after.
  rewrite (after_app _ _ rest _ Ha). simpl. now rewrite up_to_newline_app.
Qed.

End StringFacts.

(** ** The regular-expression matcher on small inputs *)

Module RegexExamples.

Import Redaction.

(** The alternation backtracks: [prep] matches first, the anchor fails, and
    the longer alternative is tried. *)
Example alternation_backtracks :
  test (cats [Bol; alts [istr "prep"; istr "preparation"]; Star space; Eol])
       (lit "Preparation") = true.
Proof. reflexivity. Qed.

(** A word boundary is needed on both sides of a phone number. *)
Example boundary_is_required :
  replace_with phone_re1 PHONE_REDACTED (lit "x5551234567 5551234567y 555-123-4567")
  = lit "x5551234567 5551234567y [PHONE_REDACTED]".
Proof. vm_compute. reflexivity. Qed.

(** The look-ahead of the nine-digit callback rejects the prefixes 000, 666
    and 9. *)
Example implausible_prefixes_stay :
  replace_all nine_digits_re ssn_callback
    (lit "123456789 000123456 666123456 912345678")
  = lit "[SSN_REDACTED] 000123456 666123456 912345678".
Proof. vm_compute. reflexivity. Qed.

(** A greedy class gives text back to let the suffix match. *)
Example address_backtracks :
  replace_with address_re ADDRESS_REDACTED (lit "at 12 Main Street today")
  = lit "at [ADDRESS_REDACTED]".
Proof. vm_compute. reflexivity. Qed.

End RegexExamples.

(** ** The vagueness classifier *)

(** ** The vagueness classifier and its word lists *)

Module VagueSpecFacts.

Import Vague VagueSpec.

Lemma same_text_length (a b : jsstring) :
  same_text a b = true -> length a = length b.
Proof.
  revert b. induction a as [|x a IH]; intros [|y b]; cbn; try discriminate;
    [reflexivity|].
  intros Heq. apply andb_true_iff in Heq as [_ Heq]. now rewrite (IH b Heq).
Qed.

(** A literal, letter case apart: it matches exactly when the text starts
    with it, and hands on what follows. *)
Lemma run_literal {A : Set} (w : jsstring) :
  w <> [] ->
  forall (prev : option N) (s : jsstring) (k : option N -> jsstring -> option A),
    run (seq_of ichr w) prev s k
    = if same_text (take (length w) s) w
      then k (last (take (length w) s)) (drop (length w) s)
      else None.
Proof.
  induction w as [|c w IH]; [congruence|]. intros _ prev s k.
  destruct w as [|c' w].
  - cbn [seq_of length]. unfold ichr. cbn [run].
    destruct s as [|x s]; [reflexivity|].
    cbn [take drop same_text].
    destruct (canon x =? canon c)%N; [|reflexivity].
    cbn [andb]. now destruct s.
  - change (seq_of ichr (c :: c' :: w)) with (Cat (ichr c) (seq_of ichr (c' :: w))).
    unfold ichr at 1. cbn [run].
    destruct s as [|x s]; [reflexivity|].
    change (length (c :: c' :: w)) with (S (length (c' :: w))).
    cbn [take drop]. cbn [same_text].
    destruct (canon x =? canon c)%N; [|reflexivity].
    rewrite IH by discriminate. cbn [andb].
    destruct (same_text (take (length (c' :: w)) s) (c' :: w)) eqn:Hs;
      [|reflexivity].
    f_equal. apply same_text_length in Hs.
    destruct (take (length (c' :: w)) s) as [|y l] eqn:Ht; [discriminate|].
    reflexivity.
Qed.

Lemma run_star_hit {A : Set} (p : N -> bool) (prev : option N) (c : N)
    (s : jsstring) (k : option N -> jsstring -> option A) :
  p c = true ->
  run (Star (Chr p)) prev (c :: s) k
  = match run (Star (Chr p)) (Some c) s k with
    | Some x => Some x
    | None => k prev (c :: s)
    end.
Proof.
  intros Hp. simpl. rewrite Hp.
  replace (length s <? S (length s))%nat with true
    by (symmetry; apply Nat.ltb_lt; lia).
  reflexivity.
Qed.

Lemma run_star_miss {A : Set} (p : N -> bool) (prev : option N) (c : N)
    (s : jsstring) (k : option N -> jsstring -> option A) :
  p c = false ->
  run (Star (Chr p)) prev (c :: s) k = k prev (c :: s).
Proof. intros Hp. simpl. now rewrite Hp. Qed.

Lemma run_star_nil {A : Set} (p : N -> bool) (prev : option N)
    (k : option N -> jsstring -> option A) :
  run (Star (Chr p)) prev [] k = k prev [].
Proof. reflexivity. Qed.

Lemma run_cat {A : Set} (r1 r2 : regex) (prev : option N) (s : jsstring)
    (k : option N -> jsstring -> option A) :
  run (Cat r1 r2) prev s k = run r1 prev s (fun prev' s' => run r2 prev' s' k).
Proof. reflexivity. Qed.

(** White space up to the end. *)
Lemma to_the_end_spaces (prev : option N) (s : jsstring) :
  to_the_end prev s = if forallb is_space s then Some [] else None.
Proof.
  unfold to_the_end. rewrite run_cat. unfold space. revert prev.
  induction s as [|c s IH]; intros prev; [reflexivity|].
  cbn [forallb]. destruct (is_space c) eqn:Hc.
  - rewrite run_star_hit by exact Hc. rewrite IH. cbn [andb].
    destruct (forallb is_space s); reflexivity.
  - now rewrite run_star_miss by exact Hc.
Qed.

(** A run of one class, none of whose members is white space, followed by
    white space up to the end. *)
Lemma run_class_to_the_end (p : N -> bool) (prev : option N) (s : jsstring) :
  (forall c, p c = true -> is_space c = false) ->
  run (Star (Chr p)) prev s to_the_end
  = if forallb is_space (Js.drop_while p s) then Some [] else None.
Proof.
  intros Hdisjoint. revert prev.
  induction s as [|c s IH]; intros prev; [reflexivity|].
  cbn [Js.drop_while]. destruct (p c) eqn:Hc.
  - rewrite run_star_hit by exact Hc. rewrite IH.
    destruct (forallb is_space (Js.drop_while p s)); [reflexivity|].
    rewrite to_the_end_spaces. cbn [forallb]. now rewrite (Hdisjoint c Hc).
  - rewrite run_star_miss by exact Hc. apply to_the_end_spaces.
Qed.

(** The alternatives are tried in turn. *)
Lemma run_alts (rs : list regex) (bs : list bool) (prev : option N)
    (s : jsstring) (k : option N -> jsstring -> option jsstring) :
  Forall2 (fun r (b : bool) => run r prev s k = if b then Some [] else None) rs bs ->
  run (alts rs) prev s k = if existsb (fun b => b) bs then Some [] else None.
Proof.
  induction 1 as [|r b rs bs Hr Hrs IH].
  - simpl. now destruct s.
  - destruct Hrs as [|r' b' rs bs Hr' Hrs].
    + cbn. rewrite Hr. now destruct b.
    + change (alts (r :: r' :: rs)) with (Alt r (alts (r' :: rs))).
      cbn [run]. rewrite Hr, IH. cbn [existsb]. now destruct b.
Qed.

(** An anchored pattern is tried at the start of the text only. *)
Lemma test_anchored (body : regex) (t : jsstring) :
  test (anchored body) t
  = match run body None t to_the_end with
    | Some _ => true
    | None => false
    end.
Proof.
  unfold test.
  assert (Hlater : forall s c, test_from (anchored body) (Some c) s = false).
  { induction s as [|x s IH]; intros c; [reflexivity|].
    cbn [test_from].
    change (match_here (anchored body) (Some c) (x :: s)) with (@None jsstring).
    apply IH. }
  assert (Hhere : match_here (anchored body) None t
                  = run body None t to_the_end) by reflexivity.
  destruct t as [|c t]; cbn [test_from]; rewrite Hhere.
  - now destruct (run body None [] to_the_end).
  - destruct (run body None (c :: t) to_the_end); [reflexivity|]. apply Hlater.
Qed.

(** *** Texts that do not end in white space *)

Lemma clean_suffix (pre s : jsstring) :
  ends_clean (pre ++ s) = true -> s <> [] -> forallb is_space s = false.
Proof.
  intros Hclean Hne. destruct s as [|x s _] using rev_ind; [congruence|].
  unfold ends_clean in Hclean. rewrite app_assoc, rev_app_distr in Hclean.
  cbn in Hclean. rewrite forallb_app. cbn.
  apply negb_true_iff in Hclean. rewrite Hclean.
  now destruct (forallb is_space s).
Qed.

Lemma clean_rest (t : jsstring) (n : nat) :
  ends_clean t = true -> forallb is_space (drop n t) = (length t <=? n)%nat.
Proof.
  intros Hclean. destruct (Nat.leb_spec (length t) n) as [Hle|Hlt].
  - now rewrite drop_ge.
  - apply (clean_suffix (take n t)); [now rewrite take_drop|].
    intros Hnil. apply (f_equal (@length N)) in Hnil.
    rewrite length_drop in Hnil. simpl in Hnil. lia.
Qed.

Lemma same_text_take (t w : jsstring) :
  same_text (take (length w) t) w && (length t <=? length w)%nat
  = same_text t w.
Proof.
  revert t. induction w as [|c w IH]; intros [|x t]; try reflexivity.
  cbn [length take same_text]. rewrite <- (IH t).
  change (S (length t) <=? S (length w))%nat with (length t <=? length w)%nat.
  now rewrite andb_assoc.
Qed.

(** On a text that does not end in white space a listed word matches
    exactly when the text is that word. *)
Lemma word_clean (t w : jsstring) :
  ends_clean t = true ->
  same_text (take (length w) t) w && forallb is_space (drop (length w) t)
  = same_text t w.
Proof.
  intros Hclean. rewrite clean_rest by exact Hclean. apply same_text_take.
Qed.

Lemma drop_while_nil {A} (p : A -> bool) (l : list A) :
  forallb p l = true -> Js.drop_while p l = [].
Proof.
  induction l as [|x l IH]; cbn; [reflexivity|].
  destruct (p x); [exact IH | discriminate].
Qed.

Lemma drop_while_suffix {A} (p : A -> bool) (l : list A) :
  exists pre, l = pre ++ Js.drop_while p l.
Proof.
  induction l as [|x l [pre IH]]; cbn; [now exists []|].
  destruct (p x); [|now exists []].
  exists (x :: pre). cbn. now rewrite <- IH.
Qed.

Lemma drop_while_stops {A} (p : A -> bool) (l : list A) :
  forallb p l = false -> Js.drop_while p l <> [].
Proof.
  induction l as [|x l IH]; cbn; [discriminate|].
  destruct (p x); [exact IH | discriminate].
Qed.

(** On a text that does not end in white space, what is left after a run
    of one class is white space only when nothing is left. *)
Lemma class_clean (p : N -> bool) (pre s : jsstring) :
  ends_clean (pre ++ s) = true ->
  forallb is_space (Js.drop_while p s) = forallb p s.
Proof.
  intros Hclean. destruct (forallb p s) eqn:Hall.
  - now rewrite drop_while_nil.
  - destruct (drop_while_suffix p s) as [mid Hmid].
    apply (clean_suffix (pre ++ mid)).
    + now rewrite <- app_assoc, <- Hmid.
    + now apply drop_while_stops.
Qed.

Lemma drop_while_clean (p : N -> bool) (l : jsstring) :
  match Js.drop_while p l with
  | c :: _ => p c = false
  | [] => True
  end.
Proof.
  induction l as [|x l IH]; cbn; [exact I|].
  destruct (p x) eqn:Hx; [exact IH | exact Hx].
Qed.

Lemma trim_ends_clean (d : jsstring) : ends_clean (trim d) = true.
Proof.
  unfold ends_clean, trim. rewrite rev_involutive.
  pose proof (drop_while_clean is_space (rev (Js.drop_while is_space d))) as H.
  destruct (Js.drop_while is_space (rev (Js.drop_while is_space d)));
    [reflexivity|].
  now rewrite H.
Qed.

Lemma ends_clean_drop (t : jsstring) (n : nat) :
  ends_clean t = true -> ends_clean (drop n t) = true.
Proof.
  intros Hclean. destruct (drop n t) as [|x s] eqn:Hd; [reflexivity|].
  rewrite <- (take_drop n t), Hd in Hclean.
  unfold ends_clean in *. rewrite rev_app_distr in Hclean.
  destruct (rev (x :: s)) as [|c l] eqn:Hr; [|exact Hclean].
  apply (f_equal (@length N)) in Hr. rewrite length_rev in Hr. discriminate.
Qed.

Lemma same_text_split (t w1 w2 : jsstring) :
  same_text t (w1 ++ w2)
  = same_text (take (length w1) t) w1 && same_text (drop (length w1) t) w2.
Proof.
  revert t. induction w1 as [|c w1 IH]; intros t.
  - cbn. now destruct t.
  - destruct t as [|x t]; [reflexivity|].
    cbn [app length take drop same_text]. rewrite (IH t).
    now rewrite andb_assoc.
Qed.

(** *** The patterns, one by one *)

Lemma existsb_map_id {A} (f : A -> bool) (l : list A) :
  existsb (fun b : bool => b) (List.map f l) = existsb f l.
Proof. induction l as [|x l IH]; cbn; [reflexivity | now rewrite IH]. Qed.

Lemma run_word_list (ws : list string) (t : jsstring) :
  Forall (fun w => lit w <> []) ws ->
  ends_clean t = true ->
  Forall2 (fun r (b : bool) =>
             run r None t to_the_end = if b then Some [] else None)
    (List.map istr ws) (List.map (fun w => same_text t (lit w)) ws).
Proof.
  intros Hne Hclean. induction Hne as [|w ws Hw _ IH]; constructor; [|exact IH].
  unfold istr. rewrite run_literal by exact Hw.
  rewrite <- (word_clean t (lit w) Hclean).
  destruct (same_text _ _); [|reflexivity].
  now rewrite to_the_end_spaces.
Qed.

Lemma run_opt_any {A : Set} (r : regex) (prev : option N) (s : jsstring)
    (k : option N -> jsstring -> option A) :
  run (Cat (Opt any) r) prev s k
  = match match s with
          | c :: s' =>
              if negb (is_line_terminator c) then run r (Some c) s' k else None
          | [] => None
          end with
    | Some x => Some x
    | None => run r prev s k
    end.
Proof.
  rewrite run_cat. destruct s as [|c s]; [reflexivity|].
  cbn [run any]. destruct (negb (is_line_terminator c)); [|reflexivity].
  replace (length s <? length (c :: s))%nat with true
    by (symmetry; apply Nat.ltb_lt; cbn; lia).
  reflexivity.
Qed.

Lemma run_word_to_the_end (w s : jsstring) (prev : option N) :
  w <> [] -> ends_clean s = true ->
  run (seq_of ichr w) prev s to_the_end
  = if same_text s w then Some [] else None.
Proof.
  intros Hw Hclean. rewrite run_literal by exact Hw.
  rewrite <- (word_clean s w Hclean).
  destruct (same_text _ _); [|reflexivity].
  now rewrite to_the_end_spaces.
Qed.

Lemma run_follow_up (t : jsstring) :
  ends_clean t = true ->
  run (cats [istr "follow"; Opt any; istr "up"]) None t to_the_end
  = if is_follow_up t then Some [] else None.
Proof.
  intros Hclean.
  change (cats [istr "follow"; Opt any; istr "up"])
    with (Cat (seq_of ichr (lit "follow")) (Cat (Opt any) (seq_of ichr (lit "up")))).
  rewrite run_cat, run_literal by discriminate.
  change (length (lit "follow")) with 6%nat.
  unfold is_follow_up.
  change (lit "followup") with (lit "follow" ++ lit "up").
  rewrite same_text_split. change (length (lit "follow")) with 6%nat.
  destruct (same_text (take 6 t) (lit "follow")); cbn [andb orb].
  2:{ now destruct (drop 6 t). }
  rewrite run_opt_any.
  pose proof (ends_clean_drop t 6 Hclean) as Hrest.
  rewrite (run_word_to_the_end (lit "up") (drop 6 t) (last (take 6 t)))
    by (discriminate || exact Hrest).
  destruct (drop 6 t) as [|joint rest] eqn:Hd; [reflexivity|].
  assert (Hrest' : ends_clean rest = true).
  { replace rest with (drop 7 t); [now apply ends_clean_drop|].
    change 7%nat with (6 + 1)%nat. rewrite <- drop_drop, Hd. reflexivity. }
  rewrite (run_word_to_the_end (lit "up") rest (Some joint))
    by (discriminate || exact Hrest').
  destruct (negb (is_line_terminator joint)); cbn [andb];
    destruct (same_text rest (lit "up")), (same_text (joint :: rest) (lit "up"));
    reflexivity.
Qed.

Lemma test_words (ws : list string) (t : jsstring) :
  Forall (fun w => lit w <> []) ws ->
  ends_clean t = true ->
  test (anchored (alts (List.map istr ws))) t
  = existsb (fun w => same_text t (lit w)) ws.
Proof.
  intros Hne Hclean. rewrite test_anchored.
  rewrite (run_alts _ _ _ _ _ (run_word_list ws t Hne Hclean)).
  rewrite existsb_map_id. now destruct (existsb _ ws).
Qed.

Lemma test_single_letter (t : jsstring) :
  ends_clean t = true ->
  test (anchored (Chr is_alpha)) t = single_letter t.
Proof.
  intros Hclean. rewrite test_anchored. destruct t as [|c s]; [reflexivity|].
  cbn [run single_letter]. destruct (is_alpha c).
  - rewrite to_the_end_spaces.
    change s with (drop 1 (c :: s)). rewrite clean_rest by exact Hclean.
    now destruct s.
  - now destruct s.
Qed.

Lemma test_class_only (p : N -> bool) (t : jsstring) :
  (forall c, p c = true -> is_space c = false) ->
  ends_clean t = true ->
  test (anchored (plus (Chr p))) t
  = match t with
    | [] => false
    | _ :: _ => forallb p t
    end.
Proof.
  intros Hdisjoint Hclean. rewrite test_anchored. unfold plus. rewrite run_cat.
  destruct t as [|c s]; [reflexivity|].
  change (run (Chr p) None (c :: s)
            (fun prev' s' => run (Star (Chr p)) prev' s' to_the_end))
    with (if p c then run (Star (Chr p)) (Some c) s to_the_end else None).
  cbn [forallb]. destruct (p c); [|reflexivity].
  rewrite run_class_to_the_end by exact Hdisjoint.
  rewrite (class_clean p [c] s Hclean). now destruct (forallb p s).
Qed.

Lemma digit_no_space (c : N) : is_digit c = true -> is_space c = false.
Proof.
  unfold is_digit, in_range. intros Hd. apply andb_true_iff in Hd as [Hlo Hhi].
  apply N.leb_le in Hlo, Hhi.
  unfold is_space, is_line_terminator, in_range.
  repeat match goal with
         | |- context [(c =? ?k)%N] =>
             destruct (N.eqb_spec c k); [lia|]
         end.
  destruct (N.leb_spec 8192 c); [lia|]. reflexivity.
Qed.

Lemma punctuation_no_space (c : N) :
  negb (is_word c || is_space c) = true -> is_space c = false.
Proof.
  intros Hp. apply negb_true_iff, orb_false_iff in Hp. tauto.
Qed.

(** The pattern table, with its literals gathered into word lists. *)
Lemma vaguePatterns_words :
  vaguePatterns
  = [anchored (alts (List.map istr (take 11 common_words)
                     ++ [cats [istr "follow"; Opt any; istr "up"];
                         istr "followup"]));
     anchored (alts (List.map istr abbreviations));
     anchored (alts (List.map istr back_references));
     anchored (alts (List.map istr filler_words));
     anchored (Chr is_alpha);
     anchored (plus digit);
     anchored (plus (Chr (fun c => negb (is_word c || is_space c))))].
Proof. reflexivity. Qed.

Lemma words_not_empty :
  Forall (fun w => lit w <> [])
    (common_words ++ abbreviations ++ back_references ++ filler_words).
Proof. repeat constructor; discriminate. Qed.

(** On a text that does not end in white space the pattern table accepts
    exactly the texts of low information. *)
Lemma patterns_low_information (t : jsstring) :
  ends_clean t = true ->
  existsb (fun pattern => test pattern t) vaguePatterns = low_information t.
Proof.
  intros Hclean. rewrite vaguePatterns_words. cbn [existsb].
  pose proof words_not_empty as Hne.
  apply Forall_app in Hne as [Hcommon Hne].
  apply Forall_app in Hne as [Habbr Hne].
  apply Forall_app in Hne as [Hback Hfill].
  rewrite (test_words abbreviations t Habbr Hclean).
  rewrite (test_words back_references t Hback Hclean).
  rewrite (test_words filler_words t Hfill Hclean).
  rewrite (test_single_letter t Hclean).
  unfold digit.
  rewrite (test_class_only is_digit t digit_no_space Hclean).
  rewrite (test_class_only _ t punctuation_no_space Hclean).
  assert (Hfirst :
            test (anchored (alts (List.map istr (take 11 common_words)
                                  ++ [cats [istr "follow"; Opt any; istr "up"];
                                      istr "followup"]))) t
            = existsb (fun w => same_text t (lit w)) (take 11 common_words)
              || is_follow_up t || same_text t (lit "followup")).
  { rewrite test_anchored.
    assert (Hw : Forall (fun w => lit w <> []) (take 11 common_words))
      by (repeat constructor; discriminate).
    rewrite (run_alts _
               (List.map (fun w => same_text t (lit w)) (take 11 common_words)
                ++ [is_follow_up t; same_text t (lit "followup")])).
    - rewrite existsb_app, existsb_map_id. cbn [existsb].
      rewrite orb_false_r, orb_assoc.
      now destruct (_ || _ || _).
    - apply Forall2_app; [now apply run_word_list|].
      constructor; [now apply run_follow_up|].
      constructor; [|constructor].
      unfold istr. apply run_word_to_the_end; [discriminate | exact Hclean]. }
  rewrite Hfirst. clear Hfirst.
  unfold low_information, listed, digits_only, punctuation_only.
  set (first_words := take 11 common_words).
  assert (Hwords : common_words = first_words ++ ["followup"%string])
    by reflexivity.
  rewrite Hwords, !existsb_app. cbn [existsb]. rewrite !orb_false_r.
  destruct (existsb _ first_words), (is_follow_up t),
    (same_text t (lit "followup")), (existsb _ abbreviations),
    (existsb _ back_references), (existsb _ filler_words), (single_letter t);
    cbn [orb]; try reflexivity;
    destruct t; cbn [orb]; try reflexivity;
    now rewrite ?orb_true_r.
Qed.

Lemma is_blank_length (d : jsstring) :
  is_blank d = (length (trim d) =? 0)%nat.
Proof. unfold is_blank. now destruct d. Qed.

End VagueSpecFacts.

Module VagueFacts.

Import Vague VagueSpec VagueSpecFacts.

Lemma is_blank_iff (d : jsstring) : is_blank d = true <-> trim d = [].
Proof.
  unfold is_blank. rewrite orb_true_iff, length_zero_nil.
  split.
  - intros [Hd | Ht]; [|exact Ht].
    destruct d; [reflexivity | discriminate].
  - intros Ht. now right.
Qed.

Lemma short_is_vague (d : jsstring) :
  (length (trim d) < threshold)%nat -> isVagueDescription d = true.
Proof.
  intros Hlen. unfold isVagueDescription.
  destruct (is_blank d); [reflexivity|].
  apply Nat.ltb_lt in Hlen. now rewrite Hlen.
Qed.

(** C8. The classifier answers vague exactly when the description is blank,
    or its trimmed length is under the 15-character threshold, or its
    trimmed text is of low information: one of the listed words in any
    letter case, follow and up joined directly or by one character, a single
    letter, digits only or punctuation only. [Call] is vague, and is one of
    the listed words; every description of 10 code units is vague; the long
    motion description is not; and the empty string is vague with the
    reason [Empty description]. *)
Theorem vagueness_classifier :
  (forall d, isVagueDescription d = vague_per_spec d)
  /\ threshold = 15%nat
  /\ isVagueDescription (lit "Call") = true
  /\ low_information (lit "Call") = true
  /\ (forall d, length d = 10%nat -> isVagueDescription d = true)
  /\ isVagueDescription
       (lit "Drafted Motion to Dismiss defendant's counterclaim") = false
  /\ isVagueDescription [] = true
  /\ getVagueReason [] = lit "Empty description".
Proof.
  split; [|repeat split; try reflexivity].
  - intros d. unfold isVagueDescription, vague_per_spec.
    rewrite is_blank_length.
    destruct (length (trim d) =? 0)%nat; [reflexivity|].
    unfold threshold. destruct (length (trim d) <? 15)%nat; [reflexivity|].
    cbn [orb]. apply patterns_low_information, trim_ends_clean.
  - intros d Hd. unfold isVagueDescription.
    destruct (is_blank d); [reflexivity|].
    pose proof (trim_length d) as Hlen.
    destruct (Nat.ltb_spec (length (trim d)) threshold) as [_|Hge];
      [reflexivity|].
    unfold threshold in Hge. lia.
Qed.

End VagueFacts.

Module VagueExamples.

Import Vague.

(** The pattern branch decides descriptions of 15 code units and more. *)
Example long_filler_is_vague :
  isVagueDescription (lit "Miscellaneous Work") = true
  /\ isVagueDescription (lit "123456789012345") = true
  /\ isVagueDescription (lit "Miscellaneous Works") = false.
Proof. repeat split; reflexivity. Qed.

(** [Call] also matches the first pattern, but the length test comes first
    and gives the reason. *)
Example call_reason :
  existsb (fun p => test p (lit "Call")) vaguePatterns = true
  /\ getVagueReason (lit "Call")
     = lit "Too short (4 characters). Insurance typically requires at least 15 characters.".
Proof. split; reflexivity. Qed.

End VagueExamples.

(** ** The redaction filter *)

Module RedactionFacts.

Import Redaction.

Example redacts_contact_details :
  redactPII (lit "mail jo@example.com, call 555-123-4567, ssn 123-45-6789")
  = lit "mail [EMAIL_REDACTED], call [PHONE_REDACTED], ssn [SSN_REDACTED]".
Proof. vm_compute. reflexivity. Qed.

(** The first pass rewrites the first field and leaves the second key
    without an opening quote of its own. *)
Lemma first_pass :
  redactPII two_name_fields
  = name_template ++ lit "name" ++ [dq] ++ lit ":" ++ [dq] ++ lit "b" ++ [dq].
Proof. vm_compute. reflexivity. Qed.

(** The rewritten key [$1name] no longer matches, so the second pass starts
    a match at the closing quote of the first field and rewrites the second. *)
Lemma second_pass :
  redactPII (redactPII two_name_fields)
  = [dq] ++ lit "$1name" ++ [dq] ++ lit ": " ++ [dq] ++ lit "[NAME_REDACTED]"
      ++ name_template.
Proof. vm_compute. reflexivity. Qed.

(** With the key kept, as the template's [$1] is written to do, the first
    field is matched again on the second pass, its closing quote is consumed
    again, and the text is stable. *)
Lemma stable_when_key_is_kept :
  redact_keeping_key two_name_fields
  = [dq] ++ lit "name" ++ [dq] ++ lit ": " ++ [dq] ++ lit "[NAME_REDACTED]"
      ++ [dq] ++ lit "name" ++ [dq] ++ lit ":" ++ [dq] ++ lit "b" ++ [dq]
  /\ redact_keeping_key (redact_keeping_key two_name_fields)
     = redact_keeping_key two_name_fields.
Proof. split; vm_compute; reflexivity. Qed.

(** C6. Applying the filter twice to the two-field input does not give what
    applying it once gives: the filter is not idempotent there. *)
Theorem redactPII_twice_differs :
  redactPII (redactPII two_name_fields) <> redactPII two_name_fields.
Proof. rewrite second_pass, first_pass. vm_compute. discriminate. Qed.

End RedactionFacts.

(** ** The token broker *)

Module SessionFacts.

Import Sessions.

Lemma days_7 : days 7 = 604800000.
Proof. reflexivity. Qed.

Lemma days_30 : days 30 = 2592000000.
Proof. reflexivity. Qed.

(** C3. For a stored session that has not expired at the time of the
    look-up, resolving with [autoRefresh] returns the bound credential; if
    the time left at the refresh check is under 7 days the entry's
    [expiresAt] becomes that time plus 30 days, and otherwise the table is
    left as it was. *)
Theorem sliding_refresh (w : World) (sessionId : jsstring) (s : Session) :
  sessionStore w !! sessionId = Some s ->
  ~ (expiresAt s < clock w (reads w)) ->
  let now := clock w (S (reads w)) in
  fst (getSessionToken sessionId true w) = Some (token s)
  /\ (expiresAt s - now < days 7 ->
      store_after sessionId true w
      = <[sessionId := mkSession (token s) (now + days 30) (createdAt s)]>
          (sessionStore w))
  /\ (days 7 <= expiresAt s - now ->
      store_after sessionId true w = sessionStore w).
Proof.
  intros Hget Hlive now.
  unfold store_after, getSessionToken, bind, store_get, Date_now; simpl.
  rewrite Hget; simpl.
  destruct (expiresAt s <? clock w (reads w)) eqn:Hexp.
  { apply Z.ltb_lt in Hexp. contradiction. }
  simpl. fold now.
  destruct (expiresAt s - now <? days 7) eqn:Httl; simpl.
  - apply Z.ltb_lt in Httl. split; [reflexivity|]. split.
    + intros _. reflexivity.
    + intros Hge. lia.
  - apply Z.ltb_ge in Httl. split; [reflexivity|]. split.
    + intros Hlt. lia.
    + intros _. reflexivity.
Qed.

Lemma sliding_refresh_witness :
  fst (getSessionToken (lit "a") true two_sessions) = Some (lit "tok-alice")
  /\ (expiresAt alice - 1000 < days 7 ->
      store_after (lit "a") true two_sessions
      = <[lit "a" := mkSession (lit "tok-alice") (1000 + days 30) 0]>
          (sessionStore two_sessions))
  /\ (days 7 <= expiresAt alice - 1000 ->
      store_after (lit "a") true two_sessions = sessionStore two_sessions).
Proof.
  apply (sliding_refresh two_sessions (lit "a") alice).
  - reflexivity.
  - vm_compute. discriminate.
Defined.

Example refresh_extends_alice :
  expiresAt <$> (store_after (lit "a") true two_sessions !! lit "a")
  = Some (1000 + days 30).
Proof. vm_compute. reflexivity. Qed.

Example refresh_keeps_bob :
  expiresAt <$> (store_after (lit "b") true two_sessions !! lit "b")
  = Some (days 20).
Proof. vm_compute. reflexivity. Qed.

(** C10. For a stored entry that is already expired, [getSession] returns
    the whole record, credential included, and changes nothing, while
    [getSessionToken] returns nothing and deletes the entry; after the
    sweep the entry is gone for [getSession] too. *)
Theorem getSession_returns_expired (w : World) (sessionId : jsstring)
    (s : Session) (autoRefresh : bool) :
  sessionStore w !! sessionId = Some s ->
  expiresAt s < clock w (reads w) ->
  getSession sessionId w = (Some s, w)
  /\ fst (getSessionToken sessionId autoRefresh w) = None
  /\ store_after sessionId autoRefresh w = delete sessionId (sessionStore w)
  /\ fst (getSession sessionId (snd (sweep w))) = None.
Proof.
  intros Hget Hexp. repeat split.
  - unfold getSession, store_get. now rewrite Hget.
  - unfold getSessionToken, bind, store_get, Date_now; simpl.
    rewrite Hget; simpl.
    apply Z.ltb_lt in Hexp. now rewrite Hexp.
  - unfold store_after, getSessionToken, bind, store_get, Date_now; simpl.
    rewrite Hget; simpl.
    apply Z.ltb_lt in Hexp. now rewrite Hexp.
  - unfold getSession, store_get, sweep, bind, Date_now; simpl.
    apply map_lookup_filter_None. right.
    intros s' Hs' Hkeep. simpl in Hkeep.
    rewrite Hget in Hs'. injection Hs' as <-. contradiction.
Qed.

Lemma getSession_returns_expired_witness :
  getSession (lit "s") stale_world = (Some stale, stale_world)
  /\ fst (getSessionToken (lit "s") true stale_world) = None
  /\ store_after (lit "s") true stale_world
     = delete (lit "s") (sessionStore stale_world)
  /\ fst (getSession (lit "s") (snd (sweep stale_world))) = None.
Proof.
  apply (getSession_returns_expired stale_world (lit "s") stale true).
  - reflexivity.
  - reflexivity.
Defined.

End SessionFacts.

(** ** Identity resolution of the inbound rate limiter *)

Module RateLimitFacts.

Import RateLimit.

(** C5, as stated, fails: with no query parameter and no authorization
    header, a request that has the dedicated session-id header is counted
    under its source address, not under that session. *)
Lemma dedicated_header_not_consulted :
  getRequestIdentifier header_only_request = lit "ip:203.0.113.7"
  /\ identity_per_spec header_only_request = lit "session:abc123"
  /\ getRequestIdentifier header_only_request
     <> identity_per_spec header_only_request.
Proof.
  assert (H1 : getRequestIdentifier header_only_request = lit "ip:203.0.113.7")
    by (vm_compute; reflexivity).
  assert (H2 : identity_per_spec header_only_request = lit "session:abc123")
    by (vm_compute; reflexivity).
  split; [exact H1 | split; [exact H2 |]].
  rewrite H1, H2. vm_compute. discriminate.
Qed.

Lemma headers_get_with_header_ne (name name' value : jsstring) (r : Request) :
  lower_name name <> lower_name name' ->
  headers_get name' (with_header name value r) = headers_get name' r.
Proof.
  intros Hne. unfold headers_get, with_header; simpl.
  now apply lookup_insert_ne.
Qed.

Lemma starts_with_app (p s : jsstring) : starts_with p (p ++ s) = true.
Proof.
  induction p as [|c p IH]; simpl; [reflexivity|].
  now rewrite N.eqb_refl.
Qed.

(** C5, amended. The identity is taken from the first source present in the
    order: a non-empty [sessionId] query parameter; an authorization header
    of the form [Bearer session:<id>]; the source address, which is the
    first element of the forwarded-for header, else the real-ip header, else
    [unknown]. The dedicated session-id header plays no part, and the
    identity is the key under which the request is counted. *)
Theorem identity_resolution_order (request : Request) :
  let query := searchParams_get (lit "sessionId") (searchParams request) in
  let auth := headers_get (lit "Authorization") request in
  let forwarded := headers_get (lit "x-forwarded-for") request in
  let real_ip := headers_get (lit "x-real-ip") request in
  let no_query := query = None \/ query = Some [] in
  let no_bearer :=
    forall h, auth = Some h -> starts_with bearer_session h = false in
  let no_forwarded := forwarded = None \/ forwarded = Some [] in
  (forall id, query = Some id -> id <> [] ->
     getRequestIdentifier request = lit "session:" ++ id)
  /\ (forall id, no_query -> auth = Some (bearer_session ++ id) ->
        getRequestIdentifier request = lit "session:" ++ id)
  /\ (forall f, no_query -> no_bearer -> forwarded = Some f -> f <> [] ->
        getRequestIdentifier request = lit "ip:" ++ trim (before_comma f))
  /\ (forall ip, no_query -> no_bearer -> no_forwarded ->
        real_ip = Some ip -> ip <> [] ->
        getRequestIdentifier request = lit "ip:" ++ ip)
  /\ (no_query -> no_bearer -> no_forwarded ->
        real_ip = None \/ real_ip = Some [] ->
        getRequestIdentifier request = lit "ip:unknown")
  /\ (forall v,
        getRequestIdentifier (with_header dedicated_header v request)
        = getRequestIdentifier request)
  /\ (forall maxRequests windowMs now store,
        is_Some (snd (checkRateLimit request maxRequests windowMs now store)
                 !! getRequestIdentifier request)
        /\ forall k, k <> getRequestIdentifier request ->
             snd (checkRateLimit request maxRequests windowMs now store) !! k
             = store !! k).
Proof.
  intros query auth forwarded real_ip no_query no_bearer no_forwarded.
  assert (Hq : no_query -> truthy_ostr query = false).
  { intros [-> | ->]; reflexivity. }
  assert (Hb : no_bearer ->
               truthy_ostr auth && starts_with bearer_session (default [] auth)
               = false).
  { intros Hnb. destruct auth as [h|] eqn:Ha; [|reflexivity].
    change (default [] (Some h)) with h.
    rewrite (Hnb h eq_refl). apply andb_false_r. }
  assert (Hf : no_forwarded -> truthy_ostr forwarded = false).
  { intros [-> | ->]; reflexivity. }
  split; [|split; [|split; [|split; [|split; [|split; [|intros; split]]]]]].
  - intros id Hid Hne. unfold getRequestIdentifier. fold query.
    rewrite Hid. destruct id; [contradiction | reflexivity].
  - intros id Hnq Hauth. unfold getRequestIdentifier. fold query.
    rewrite (Hq Hnq). fold auth. rewrite Hauth.
    change (default [] (Some (bearer_session ++ id))) with (bearer_session ++ id).
    rewrite starts_with_app.
    replace (truthy_ostr (Some (bearer_session ++ id))) with true by reflexivity.
    reflexivity.
  - intros f Hnq Hnb Hfw Hne. unfold getRequestIdentifier. fold query.
    rewrite (Hq Hnq). fold auth. rewrite (Hb Hnb). fold forwarded.
    rewrite Hfw. destruct f; [contradiction | reflexivity].
  - intros ip Hnq Hnb Hnf Hip Hne. unfold getRequestIdentifier. fold query.
    rewrite (Hq Hnq). fold auth. rewrite (Hb Hnb). fold forwarded.
    rewrite (Hf Hnf). fold real_ip. rewrite Hip.
    destruct ip; [contradiction | reflexivity].
  - intros Hnq Hnb Hnf Hip. unfold getRequestIdentifier. fold query.
    rewrite (Hq Hnq). fold auth. rewrite (Hb Hnb). fold forwarded.
    rewrite (Hf Hnf). fold real_ip.
    destruct Hip as [-> | ->]; reflexivity.
  - intros v. unfold getRequestIdentifier.
    rewrite !headers_get_with_header_ne by (vm_compute; discriminate).
    reflexivity.
  - unfold checkRateLimit; simpl. rewrite lookup_insert_eq. eauto.
  - intros k Hk. unfold checkRateLimit; simpl.
    now rewrite lookup_insert_ne by congruence.
Qed.

End RateLimitFacts.

(** ** The retry policy of the resilient client *)

Module ClientFacts.

Import Client.

Section Facts.

Context {Body : Type}.

Implicit Types (remote : nat -> Reply Body) (st : ClientState)
  (r : Response Body) (n fuel : nat).

Lemma dispatch_late after r :
  timeout < after -> dispatch (Answers after r) = inl timed_out.
Proof.
  intros Hlate. unfold dispatch.
  apply Z.ltb_lt in Hlate. now rewrite Hlate.
Qed.

Lemma dispatch_ok after r :
  after <= timeout -> 200 <= status r < 300 ->
  dispatch (Answers after r) = inr r.
Proof.
  intros Hin [Hlo Hhi]. unfold dispatch.
  apply Z.ltb_ge in Hin. rewrite Hin.
  apply Z.leb_le in Hlo. apply Z.ltb_lt in Hhi. now rewrite Hlo, Hhi.
Qed.

Lemma dispatch_bad after r :
  after <= timeout -> ~ (200 <= status r < 300) ->
  dispatch (Answers after r) = inl (mkAxiosError BadStatus (Some r)).
Proof.
  intros Hin Hbad. unfold dispatch.
  apply Z.ltb_ge in Hin. rewrite Hin.
  destruct (200 <=? status r) eqn:Hlo; [|reflexivity].
  destruct (status r <? 300) eqn:Hhi; [|reflexivity].
  apply Z.leb_le in Hlo. apply Z.ltb_lt in Hhi. lia.
Qed.

Lemma request_success fuel remote n st after r :
  remote (sent st) = Answers after r -> after <= timeout ->
  200 <= status r < 300 ->
  request (S fuel) remote n st = Some (inr r, on_response r (count_sent st)).
Proof.
  intros Hrep Hin Hok. simpl. rewrite Hrep, (dispatch_ok _ _ Hin Hok).
  reflexivity.
Qed.

Lemma request_429_retry fuel remote n st after r :
  remote (sent st) = Answers after r -> after <= timeout -> status r = 429 ->
  (n < maxRetries)%nat ->
  request (S fuel) remote n st
  = request fuel remote (S n) (sleep (rate_limit_wait r n) (count_sent st)).
Proof.
  intros Hrep Hin Hst Hn. simpl.
  rewrite Hrep, (dispatch_bad _ _ Hin) by lia. simpl. rewrite Hst.
  destruct (decide (Some 429 = Some 401)) as [Heq|_]; [discriminate|].
  destruct (decide (Some 429 = Some 429)) as [_|Hne]; [|congruence].
  apply Nat.ltb_lt in Hn. now rewrite Hn.
Qed.

Lemma request_429_exhausted fuel remote n st after r :
  remote (sent st) = Answers after r -> after <= timeout -> status r = 429 ->
  (maxRetries <= n)%nat ->
  request (S fuel) remote n st = Some (inl RateLimitExceeded, count_sent st).
Proof.
  intros Hrep Hin Hst Hn. simpl.
  rewrite Hrep, (dispatch_bad _ _ Hin) by lia. simpl. rewrite Hst.
  destruct (decide (Some 429 = Some 401)) as [Heq|_]; [discriminate|].
  destruct (decide (Some 429 = Some 429)) as [_|Hne]; [|congruence].
  apply Nat.ltb_ge in Hn. now rewrite Hn.
Qed.

Lemma request_5xx_retry fuel remote n st after r :
  remote (sent st) = Answers after r -> after <= timeout -> 500 <= status r ->
  (n < maxRetries)%nat ->
  request (S fuel) remote n st
  = request fuel remote (S n)
      (sleep (Some (calculateBackoffDelay n)) (count_sent st)).
Proof.
  intros Hrep Hin Hst Hn. simpl.
  rewrite Hrep, (dispatch_bad _ _ Hin) by lia. simpl.
  destruct (decide (Some (status r) = Some 401)) as [Heq|_].
  { injection Heq as Heq. lia. }
  destruct (decide (Some (status r) = Some 429)) as [Heq|_].
  { injection Heq as Heq. lia. }
  apply Nat.ltb_lt in Hn. rewrite Hn.
  replace (status r =? 0) with false by (symmetry; apply Z.eqb_neq; lia).
  replace (500 <=? status r) with true by (symmetry; apply Z.leb_le; lia).
  reflexivity.
Qed.

Lemma request_5xx_exhausted fuel remote n st after r :
  remote (sent st) = Answers after r -> after <= timeout -> 500 <= status r ->
  (maxRetries <= n)%nat ->
  request (S fuel) remote n st
  = Some (inl (Propagated (mkAxiosError BadStatus (Some r))), count_sent st).
Proof.
  intros Hrep Hin Hst Hn. simpl.
  rewrite Hrep, (dispatch_bad _ _ Hin) by lia. simpl.
  destruct (decide (Some (status r) = Some 401)) as [Heq|_].
  { injection Heq as Heq. lia. }
  destruct (decide (Some (status r) = Some 429)) as [Heq|_].
  { injection Heq as Heq. lia. }
  apply Nat.ltb_ge in Hn. rewrite Hn. now rewrite andb_false_r.
Qed.

(** An error without a response is handed on at once. *)
Lemma request_no_response fuel remote n st c :
  dispatch (remote (sent st)) = inl (mkAxiosError c None) ->
  request (S fuel) remote n st
  = Some (inl (Propagated (mkAxiosError c None)), count_sent st).
Proof.
  intros Hd. simpl. rewrite Hd. simpl.
  destruct (decide (None = Some 401)) as [Heq|_]; [discriminate|].
  destruct (decide (None = Some 429)) as [Heq|_]; [discriminate|].
  reflexivity.
Qed.

(** With one unit of fuel for every dispatch the policy still allows, a
    request ends with an outcome, having dispatched and slept within the
    budget that is left. *)
Lemma request_total fuel remote n st :
  (maxRetries - n < fuel)%nat ->
  exists out st',
    request fuel remote n st = Some (out, st')
    /\ (sent st < sent st' <= sent st + S (maxRetries - n))%nat
    /\ (length (slept st) <= length (slept st')
        <= length (slept st) + (maxRetries - n))%nat.
Proof.
  revert n st. induction fuel as [|fuel IH]; intros n st Hfuel.
  { lia. }
  simpl.
  destruct (dispatch (remote (sent st))) as [error | r].
  2:{ eexists _, _. split; [reflexivity|]. simpl. lia. }
  set (st_code := status <$> response error).
  destruct (decide (st_code = Some 401)).
  { eexists _, _. split; [reflexivity|]. simpl. lia. }
  destruct (decide (st_code = Some 429)).
  { destruct (Nat.ltb_spec n maxRetries) as [Hlt|Hge].
    - destruct (IH (S n)
                  (sleep match response error with
                         | Some r => rate_limit_wait r n
                         | None => None
                         end (count_sent st))) as (out & st' & Hreq & Hs & Hl).
      { unfold maxRetries in *. lia. }
      exists out, st'. split; [exact Hreq|].
      simpl in Hs, Hl. rewrite length_app in Hl. simpl in Hl.
      unfold maxRetries in *. lia.
    - eexists _, _. split; [reflexivity|]. simpl. lia. }
  destruct (match st_code with
            | Some s => negb (s =? 0) && (500 <=? s)
            | None => false
            end && (n <? maxRetries)%nat) eqn:Hretry.
  - apply andb_true_iff in Hretry as [_ Hlt]. apply Nat.ltb_lt in Hlt.
    destruct (IH (S n) (sleep (Some (calculateBackoffDelay n)) (count_sent st)))
      as (out & st' & Hreq & Hs & Hl).
    { unfold maxRetries in *. lia. }
    exists out, st'. split; [exact Hreq|].
    simpl in Hs, Hl. rewrite length_app in Hl. simpl in Hl.
      unfold maxRetries in *. lia.
  - eexists _, _. split; [reflexivity|]. simpl. lia.
Qed.

End Facts.

End ClientFacts.

Module RetryPolicy.

Import Client ClientFacts.

(** C1, as stated, fails: a call that meets 429 on its first three attempts
    has not used up its budget. It sleeps a third time, makes a fourth
    attempt and returns that attempt's 200 instead of failing with
    RateLimitExceeded. *)
Lemma fourth_attempt_is_made :
  call three_429_then_200 (initial 0)
  = Some (inr (mkResponse 200 ∅ tt),
          mkClientState (mkRateLimitState (Some 1000) (Some 60000)) 4
            [Some 1000; Some 2000; Some 4000])
  /\ call three_429_then_200 (initial 0)
     <> Some (inl RateLimitExceeded,
              mkClientState (mkRateLimitState (Some 1000) (Some 60000)) 3
                [Some 1000; Some 2000]).
Proof.
  assert (H : call three_429_then_200 (initial 0)
              = Some (inr (mkResponse 200 ∅ tt),
                      mkClientState (mkRateLimitState (Some 1000) (Some 60000)) 4
                        [Some 1000; Some 2000; Some 4000]))
    by (vm_compute; reflexivity).
  split; [exact H|]. rewrite H. discriminate.
Qed.

Section Policy.

Context {Body : Type}.

Lemma wait_without_header (r : Response Body) (n : nat) :
  headers r !! lit "retry-after" = None ->
  rate_limit_wait r n = Some (1000 * 2 ^ Z.of_nat n).
Proof. intros Hh. unfold rate_limit_wait. now rewrite Hh. Qed.

Lemma wait_with_header (r : Response Body) (n : nat) (h : jsstring) (secs : Z) :
  headers r !! lit "retry-after" = Some h -> h <> [] -> parseInt h = Some secs ->
  rate_limit_wait r n = Some (secs * 1000).
Proof.
  intros Hh Hne Hp. unfold rate_limit_wait. rewrite Hh.
  destruct h; [contradiction|]. simpl truthy_ostr. cbv iota.
  change (default [] (Some (n0 :: h))) with (n0 :: h). now rewrite Hp.
Qed.

(** C1, amended. On a 429 the client waits the retry-after header's number
    of seconds when the header holds one, and 1 s times 2 to the number of
    retries already made when there is no such header; it retries while
    fewer than 3 retries were made, so a call makes at most 4 attempts and
    sleeps at most 3 times, and a 429 on the fourth attempt fails with
    RateLimitExceeded. Answers 429, 429, 200 give the 200 after two
    delays. *)
Theorem rate_limit_retry_policy (remote : nat -> Reply Body) (st : ClientState) :
  (forall (r : Response Body) n, headers r !! lit "retry-after" = None ->
     rate_limit_wait r n = Some (1000 * 2 ^ Z.of_nat n))
  /\ (forall (r : Response Body) n h secs,
        headers r !! lit "retry-after" = Some h -> h <> [] ->
        parseInt h = Some secs ->
        rate_limit_wait r n = Some (secs * 1000))
  /\ (forall fuel n after r,
        remote (sent st) = Answers after r -> after <= timeout ->
        status r = 429 ->
        if (n <? 3)%nat
        then request (S fuel) remote n st
             = request fuel remote (S n)
                 (sleep (rate_limit_wait r n) (count_sent st))
        else request (S fuel) remote n st
             = Some (inl RateLimitExceeded, count_sent st))
  /\ (exists out st',
        call remote st = Some (out, st')
        /\ (sent st' <= sent st + 4)%nat
        /\ (length (slept st') <= length (slept st) + 3)%nat)
  /\ ((forall k, (k < 4)%nat ->
         exists after r, remote (sent st + k)%nat = Answers after r
                         /\ after <= timeout /\ status r = 429) ->
      exists st',
        call remote st = Some (inl RateLimitExceeded, st')
        /\ sent st' = (sent st + 4)%nat
        /\ length (slept st') = (length (slept st) + 3)%nat)
  /\ (forall a1 r1 a2 r2 a3 r3,
        remote (sent st) = Answers a1 r1 ->
        remote (S (sent st)) = Answers a2 r2 ->
        remote (S (S (sent st))) = Answers a3 r3 ->
        a1 <= timeout -> a2 <= timeout -> a3 <= timeout ->
        status r1 = 429 -> status r2 = 429 -> status r3 = 200 ->
        exists st',
          call remote st = Some (inr r3, st')
          /\ sent st' = (sent st + 3)%nat
          /\ slept st'
             = slept st ++ [rate_limit_wait r1 0; rate_limit_wait r2 1]).
Proof.
  split; [exact wait_without_header|].
  split; [exact wait_with_header|].
  split; [|split; [|split]].
  - intros fuel n after r Hrep Hin Hst.
    destruct (Nat.ltb_spec n 3) as [Hlt|Hge].
    + now apply (request_429_retry fuel remote n st after r).
    + now apply (request_429_exhausted fuel remote n st after r).
  - destruct (request_total (S maxRetries) remote 0 st) as (out & st' & Hc & Hs & Hl).
    { unfold maxRetries. lia. }
    exists out, st'. split; [exact Hc|]. unfold maxRetries in *. simpl in *. lia.
  - intros Hall.
    destruct (Hall 0%nat) as (a0 & r0 & H0 & Hin0 & Hs0); [lia|].
    destruct (Hall 1%nat) as (a1 & r1 & H1 & Hin1 & Hs1); [lia|].
    destruct (Hall 2%nat) as (a2 & r2 & H2 & Hin2 & Hs2); [lia|].
    destruct (Hall 3%nat) as (a3 & r3 & H3 & Hin3 & Hs3); [lia|].
    rewrite Nat.add_0_r in H0.
    replace (sent st + 1)%nat with (S (sent st)) in H1 by lia.
    replace (sent st + 2)%nat with (S (S (sent st))) in H2 by lia.
    replace (sent st + 3)%nat with (S (S (S (sent st)))) in H3 by lia.
    unfold call. change (S maxRetries) with 4%nat.
    rewrite (request_429_retry _ remote 0 st a0 r0)
      by (auto; unfold maxRetries; lia).
    rewrite (request_429_retry _ remote 1 _ a1 r1)
      by (auto; unfold maxRetries; lia).
    rewrite (request_429_retry _ remote 2 _ a2 r2)
      by (auto; unfold maxRetries; lia).
    rewrite (request_429_exhausted _ remote 3 _ a3 r3)
      by (auto; unfold maxRetries; lia).
    eexists. split; [reflexivity|]. simpl.
    rewrite !length_app. simpl. lia.
  - intros a1 r1 a2 r2 a3 r3 H1 H2 H3 Hin1 Hin2 Hin3 Hs1 Hs2 Hs3.
    unfold call. change (S maxRetries) with 4%nat.
    rewrite (request_429_retry _ remote 0 st a1 r1)
      by (auto; unfold maxRetries; lia).
    rewrite (request_429_retry _ remote 1 _ a2 r2)
      by (auto; unfold maxRetries; lia).
    rewrite (request_success _ remote 2 _ a3 r3) by (auto; lia).
    eexists. split; [reflexivity|]. simpl.
    split; [lia|]. now rewrite <- app_assoc.
Qed.

End Policy.

Example two_backoffs_then_200 :
  call (scripted [plain 429 tt; plain 429 tt; plain 200 tt] (plain 200 tt))
       (initial 0)
  = Some (inr (mkResponse 200 ∅ tt),
          mkClientState (mkRateLimitState (Some 1000) (Some 60000)) 3
            [Some 1000; Some 2000]).
Proof. vm_compute. reflexivity. Qed.

Example always_429_gives_up :
  call (scripted [] (plain 429 tt)) (initial 0)
  = Some (inl RateLimitExceeded,
          mkClientState (mkRateLimitState (Some 1000) (Some 60000)) 4
            [Some 1000; Some 2000; Some 4000]).
Proof. vm_compute. reflexivity. Qed.

Example retry_after_is_obeyed :
  snd <$> call (scripted [wait_7] (plain 200 tt)) (initial 0)
  = Some (mkClientState (mkRateLimitState (Some 1000) (Some 60000)) 2 [Some 7000]).
Proof. vm_compute. reflexivity. Qed.

Example unauthorized_fails_at_once :
  call (scripted [plain 401 tt] (plain 200 tt)) (initial 0)
  = Some (inl AuthenticationFailed,
          mkClientState (mkRateLimitState (Some 1000) (Some 60000)) 1 []).
Proof. vm_compute. reflexivity. Qed.

End RetryPolicy.

Module TimeoutPolicy.

Import Client ClientFacts.


Section Policy.

Context {Body : Type}.


End Policy.

Example slow_answer_times_out :
  call (scripted [Answers 30001 (mkResponse 200 ∅ tt)] (plain 200 tt)) (initial 0)
  = Some (inl (Propagated (mkAxiosError TimedOut None)),
          mkClientState (mkRateLimitState (Some 1000) (Some 60000)) 1 []).
Proof. vm_compute. reflexivity. Qed.

Example always_503_is_handed_on :
  call (scripted [] (plain 503 tt)) (initial 0)
  = Some (inl (Propagated (mkAxiosError BadStatus (Some (mkResponse 503 ∅ tt)))),
          mkClientState (mkRateLimitState (Some 1000) (Some 60000)) 4
            [Some 1000; Some 2000; Some 4000]).
Proof. vm_compute. reflexivity. Qed.

End TimeoutPolicy.

(** ** The join of the two initial searches of the conflict check *)

Module ConflictCheckFacts.

Import ConflictCheck.

Section Join.

Variable Error : Type.
Variable toLowerCase : jsstring -> jsstring.
Variable search_contacts : jsstring -> nat -> Error + option (list Contact).
Variable search_matters : jsstring -> nat -> Error + option (list Matter).
Variable list_matters : nat -> Error + option (list Matter).
Variable get_matter : jsstring -> Error + MatterDetail.
Variable settles_first : Side.

(** When both searches succeed a report is produced, whatever the later
    fetches do. *)
Lemma both_succeed_gives_report (q : jsstring) cs ms :
  search_contacts q 100 = inr cs -> search_matters q 100 = inr ms ->
  exists report,
    performEthicalConflictCheck Error toLowerCase search_contacts
      search_matters list_matters get_matter settles_first q = inr report
    /\ search_query report = q
    /\ length (direct_matches report)
       = (length (default [] cs) + length (default [] ms))%nat.
Proof.
  intros Hc Hm. unfold performEthicalConflictCheck, promise_all2.
  rewrite Hc, Hm. eexists. split; [reflexivity|]. simpl.
  split; [reflexivity|]. now rewrite length_app, !length_map.
Qed.

(** C4. If either of the two initial searches fails, the operation fails
    with the error of a failed search and produces no report. *)
Theorem dual_search_all_or_nothing (q : jsstring) :
  (exists e, search_contacts q 100 = inl e)
  \/ (exists e, search_matters q 100 = inl e) ->
  (exists e,
     performEthicalConflictCheck Error toLowerCase search_contacts
       search_matters list_matters get_matter settles_first q = inl e
     /\ (search_contacts q 100 = inl e \/ search_matters q 100 = inl e))
  /\ (forall report,
        performEthicalConflictCheck Error toLowerCase search_contacts
          search_matters list_matters get_matter settles_first q
        <> inr report).
Proof.
  intros Hfail.
  assert (Hres : exists e,
             performEthicalConflictCheck Error toLowerCase search_contacts
               search_matters list_matters get_matter settles_first q = inl e
             /\ (search_contacts q 100 = inl e \/ search_matters q 100 = inl e)).
  { unfold performEthicalConflictCheck, promise_all2.
    destruct (search_contacts q 100) as [e1|cs] eqn:Hc;
      destruct (search_matters q 100) as [e2|ms] eqn:Hm.
    - destruct settles_first; eexists; split; eauto.
    - eexists; split; eauto.
    - eexists; split; eauto.
    - destruct Hfail as [[e He] | [e He]]; discriminate. }
  split; [exact Hres|].
  destruct Hres as (e & He & _). intros report Hr. rewrite He in Hr. discriminate.
Qed.

End Join.

Lemma dual_search_all_or_nothing_witness :
  (exists e,
     performEthicalConflictCheck jsstring id contacts_ok matters_down
       no_matters no_detail First (lit "Jane Smith") = inl e
     /\ (contacts_ok (lit "Jane Smith") 100 = inl e
         \/ matters_down (lit "Jane Smith") 100 = inl e))
  /\ (forall report,
        performEthicalConflictCheck jsstring id contacts_ok matters_down
          no_matters no_detail First (lit "Jane Smith") <> inr report).
Proof.
  apply (dual_search_all_or_nothing jsstring id contacts_ok matters_down
           no_matters no_detail First (lit "Jane Smith")).
  right. exists (lit "503 Service Unavailable"). reflexivity.
Defined.

Example surviving_search_is_dropped :
  performEthicalConflictCheck jsstring id contacts_ok matters_down
    no_matters no_detail First (lit "Jane Smith")
  = inl (lit "503 Service Unavailable").
Proof. reflexivity. Qed.

End ConflictCheckFacts.

(** ** The structure of the intelligence brief *)

Module BriefFacts.

Import Brief.

(** C7, as stated, fails: with no custom fields and no related contacts the
    Case Metadata heading is followed by nothing but the blank line, while
    the two other empty sections show their placeholder lines. *)
Lemma case_metadata_has_no_placeholder :
  after (lit "## Case Metadata") bare_brief = Some [nl; nl]
  /\ has_text [nl; nl] = false
  /\ line_after (recent_heading) bare_brief
     = Some (lit "*No recent file notes found.*")
  /\ line_after (pending_heading) bare_brief
     = Some (lit "*No upcoming calendar entries found.*").
Proof. repeat split; vm_compute; reflexivity. Qed.

Section Structure.

Context {Value : Type} (String_of : Value -> jsstring).

Local Abbreviation format := (formatIntelligenceBriefAsMarkdown String_of).

Lemma activity_step (acc : jsstring) (a : Activity) :
  (let markdown := acc ++ lit "### " ++ created_at a ++ [nl] in
   let markdown :=
     if truthy_ostr (created_by a)
     then markdown ++ lit "*By: " ++ default [] (created_by a) ++ lit "*" ++ [nl]
     else markdown in
   markdown ++ note a ++ [nl; nl])
  = acc ++ render_activity a.
Proof.
  unfold render_activity. cbv zeta.
  destruct (truthy_ostr (created_by a)); now rewrite <- ?app_assoc.
Qed.

Lemma task_step (acc : jsstring) (t : Task) :
  (let markdown := acc ++ lit "- **" ++ subject t ++ lit "**" in
   let markdown :=
     if truthy_ostr (due_date t)
     then markdown ++ lit " (Due: " ++ default [] (due_date t) ++ lit ")"
     else markdown in
   let markdown :=
     if truthy_ostr (assigned_to t)
     then markdown ++ lit " - Assigned to: " ++ default [] (assigned_to t)
     else markdown in
   markdown ++ [nl])
  = acc ++ render_task t.
Proof.
  unfold render_task. cbv zeta.
  destruct (truthy_ostr (due_date t)), (truthy_ostr (assigned_to t));
    now rewrite <- ?app_assoc.
Qed.

Lemma contact_step (acc : jsstring) (c : RelatedContact) :
  (let markdown := acc ++ lit "- **" ++ name c ++ lit "**" in
   let markdown :=
     if truthy_ostr (role c)
     then markdown ++ lit " (" ++ default [] (role c) ++ lit ")"
     else markdown in
   markdown ++ [nl])
  = acc ++ render_contact c.
Proof.
  unfold render_contact. cbv zeta.
  destruct (truthy_ostr (role c)); now rewrite <- ?app_assoc.
Qed.

Lemma format_sections (result : MatterIntelligenceBriefResult Value) :
  format result
  = render_head (matter result)
    ++ recent_heading ++ render_recent (recent_activity result)
    ++ pending_heading ++ render_pending (pending_tasks result)
    ++ metadata_heading
    ++ render_fields String_of (custom_fields (case_metadata result))
    ++ render_contacts (related_contacts (case_metadata result)).
Proof.
  destruct result as [m acts tasks [fields contacts]].
  unfold formatIntelligenceBriefAsMarkdown, render_head. cbn [matter
    recent_activity pending_tasks case_metadata custom_fields related_contacts].
  set (head := lit "# Matter Intelligence Brief" ++ [nl; nl]).
  rewrite (fold_left_pieces _ render_activity) by (intros; apply activity_step).
  rewrite (fold_left_pieces _ render_task) by (intros; apply task_step).
  rewrite (fold_left_pieces _ (render_field String_of)) by reflexivity.
  rewrite (fold_left_pieces _ render_contact) by (intros; apply contact_step).
  destruct (truthy_ostr (description m)), (truthy_ostr (status m)),
    (truthy_ostr (practice_area m));
    destruct acts, tasks, fields, contacts; cbn [length Nat.eqb Nat.ltb Nat.leb
      render_recent render_pending render_fields render_contacts];
    rewrite <- ?app_assoc, ?app_nil_r; reflexivity.
Qed.

End Structure.

End BriefFacts.

Module BriefStructure.

Import Brief BriefFacts.

Section Claim.

Context {Value : Type} (String_of : Value -> jsstring).

(** C7, amended. The report always has the three sections, in the order
    Recent Activity, Pending Tasks, Case Metadata. An empty Recent Activity
    or Pending Tasks section shows its placeholder line. The Case Metadata
    heading is always there, but its two subsections, custom fields and
    related contacts, are each left out when empty, and no placeholder
    stands in for them. *)
Theorem brief_fixed_structure (result : MatterIntelligenceBriefResult Value) :
  formatIntelligenceBriefAsMarkdown String_of result
  = render_head (matter result)
    ++ recent_heading ++ render_recent (recent_activity result)
    ++ pending_heading ++ render_pending (pending_tasks result)
    ++ metadata_heading
    ++ render_fields String_of (custom_fields (case_metadata result))
    ++ render_contacts (related_contacts (case_metadata result))
  /\ render_recent [] = no_notes
  /\ render_pending [] = no_entries
  /\ render_fields String_of [] = []
  /\ render_contacts [] = []
  /\ (forall kv l, exists rest,
        render_fields String_of (kv :: l)
        = lit "### Custom Fields" ++ [nl; nl] ++ render_field String_of kv ++ rest)
  /\ (forall c l, exists rest,
        render_contacts (c :: l)
        = lit "### Related Contacts" ++ [nl; nl] ++ render_contact c ++ rest)
  /\ (recent_activity result = [] -> pending_tasks result = [] ->
      custom_fields (case_metadata result) = [] ->
      related_contacts (case_metadata result) = [] ->
      formatIntelligenceBriefAsMarkdown String_of result
      = render_head (matter result) ++ recent_heading ++ no_notes
        ++ pending_heading ++ no_entries ++ metadata_heading).
Proof.
  split; [apply format_sections|].
  do 4 (split; [reflexivity|]).
  split; [|split].
  - intros kv l.
    exists (concat (List.map (render_field String_of) l) ++ [nl]).
    unfold render_fields.
    change (concat (List.map (render_field String_of) (kv :: l)))
      with (render_field String_of kv
            ++ concat (List.map (render_field String_of) l)).
    now rewrite <- !app_assoc.
  - intros c l.
    exists (concat (List.map render_contact l) ++ [nl]).
    unfold render_contacts.
    change (concat (List.map render_contact (c :: l)))
      with (render_contact c ++ concat (List.map render_contact l)).
    now rewrite <- !app_assoc.
  - intros Ha Ht Hf Hc. rewrite format_sections, Ha, Ht, Hf, Hc.
    simpl render_recent. simpl render_pending.
    unfold render_fields, render_contacts. now rewrite !app_nil_r.
Qed.

End Claim.

Example full_brief_sections :
  line_after recent_heading (formatIntelligenceBriefAsMarkdown id full_brief)
  = Some (lit "### 2024-02-10")
  /\ line_after pending_heading (formatIntelligenceBriefAsMarkdown id full_brief)
     = Some (lit "- **Court Hearing** (Due: 2024-03-01)")
  /\ line_after metadata_heading (formatIntelligenceBriefAsMarkdown id full_brief)
     = Some (lit "### Custom Fields").
Proof. repeat split; vm_compute; reflexivity. Qed.

End BriefStructure.

(** ** Billable amounts of the unbilled activity audit *)

Module AuditFacts.

Import Audit.

Section Totals.

Context {num : Type} `{JsNumber num}.

Lemma process_total (acc : AuditResult) (a : Activity) :
  total_billable_amount (process acc a)
  = nadd (total_billable_amount acc) (billableAmount a).
Proof. reflexivity. Qed.

Lemma fold_process_total (l : list Activity) (acc : AuditResult) :
  total_billable_amount (fold_left process l acc)
  = fold_left nadd (List.map billableAmount l) (total_billable_amount acc).
Proof.
  revert acc. induction l as [|a l IH]; intros acc; simpl; [reflexivity|].
  now rewrite IH, process_total.
Qed.

(** Whatever the arithmetic, the reported total is the running [+] over the
    per-activity amounts, in the order fetched, starting from [0]. *)
Lemma audit_total (matterId : jsstring) (fetched : list Activity) :
  total_billable_amount (audit matterId fetched)
  = fold_left nadd (List.map billableAmount fetched) nzero.
Proof. unfold audit. now rewrite fold_process_total. Qed.

Lemma fold_process_count (l : list Activity) (acc : AuditResult) :
  total_unbilled_activities (fold_left process l acc)
  = total_unbilled_activities acc
  /\ length (activities (fold_left process l acc))
     = (length (activities acc) + length l)%nat.
Proof.
  revert acc. induction l as [|a l IH]; intros acc; simpl; [lia|].
  destruct (IH (process acc a)) as [Hn Hl]. rewrite Hn, Hl. simpl.
  rewrite length_app. simpl. lia.
Qed.

End Totals.

Lemma fold_left_add (l : list Z) (acc : Z) :
  fold_left Z.add l acc = acc + sumZ l.
Proof.
  revert acc. induction l as [|x l IH]; intros acc; simpl; [lia|].
  rewrite IH. lia.
Qed.

Lemma billableAmount_amended (a : Activity (num := Z)) :
  billableAmount a = billable_amended a.
Proof.
  unfold billableAmount, billable_amended, from_time, truthy_onum.
  destruct (a_billable_amount a) as [b|], (a_time_spent a) as [t|],
    (a_rate a) as [r|]; simpl;
    try destruct (Z.eqb_spec b 0); try destruct (Z.eqb_spec t 0);
    try destruct (Z.eqb_spec r 0); subst; simpl; try reflexivity; try lia;
    destruct (Z.eqb_spec (t * r) 0); simpl; nia.
Qed.


Lemma vague_item_step (acc : jsstring) (activity : UnbilledActivity (num := Z)) :
  (let report := acc ++ lit "### Activity " ++ id activity ++ [nl] in
   let report := report ++ lit "- **Date:** " ++ date activity ++ [nl] in
   let report :=
     report ++ lit "- **Description:** " ++ [dq] ++ description activity
       ++ [dq] ++ [nl] in
   let report :=
     report ++ lit "- **Issue:** "
       ++ default (lit "undefined") (vague_reason activity) ++ [nl] in
   let report :=
     if truthy_onum (time_spent activity)
     then report ++ lit "- **Time:** "
            ++ from_option nstr [] (time_spent activity)
            ++ lit " hours" ++ [nl]
     else report in
   let report :=
     if ntruthy (billable_amount activity)
     then report ++ lit "- **Amount:** $"
            ++ toFixed2 (billable_amount activity) ++ [nl]
     else report in
   report ++ [nl])
  = acc ++ render_vague_item activity.
Proof.
  unfold render_vague_item. cbv zeta.
  destruct (truthy_onum (time_spent activity)),
    (ntruthy (billable_amount activity));
    now rewrite <- ?app_assoc.
Qed.

(** Every report opens with its summary lines. *)
Lemma formatAuditReport_summary (result : AuditResult (num := Z)) :
  exists rest, formatAuditReport result = summary result ++ rest.
Proof.
  unfold formatAuditReport, summary. cbv zeta.
  repeat match goal with
         | |- context [fold_left ?g ?l ?init] =>
             first
               [ rewrite (fold_left_pieces g render_vague_item l init)
                   by (intros acc x; exact (vague_item_step acc x))
               | rewrite (fold_left_pieces g render_clear_item l init)
                   by (intros acc x; reflexivity) ]
         end.
  repeat match goal with
         | |- context [if ?b then _ else _] => destruct b
         end;
    eexists; rewrite <- ?app_assoc; reflexivity.
Qed.


End AuditFacts.

(** ** More of the token broker *)

Module SessionMore.

Import Sessions SessionSamples.

(** The four ways a resolution can go. *)
Lemma getSessionToken_absent (w : World) (sessionId : jsstring) (autoRefresh : bool) :
  sessionStore w !! sessionId = None ->
  getSessionToken sessionId autoRefresh w = (None, w).
Proof.
  intros Hget. unfold getSessionToken, bind, store_get. now rewrite Hget.
Qed.

Lemma getSessionToken_expired (w : World) (sessionId : jsstring) (s : Session)
    (autoRefresh : bool) :
  sessionStore w !! sessionId = Some s ->
  expiresAt s < clock w (reads w) ->
  getSessionToken sessionId autoRefresh w
  = (None, mkWorld (delete sessionId (sessionStore w)) (clock w) (S (reads w))).
Proof.
  intros Hget Hexp. unfold getSessionToken, bind, store_get, Date_now; simpl.
  rewrite Hget; simpl. apply Z.ltb_lt in Hexp. now rewrite Hexp.
Qed.

Lemma getSessionToken_plain (w : World) (sessionId : jsstring) (s : Session) :
  sessionStore w !! sessionId = Some s ->
  ~ (expiresAt s < clock w (reads w)) ->
  getSessionToken sessionId false w
  = (Some (token s), mkWorld (sessionStore w) (clock w) (S (reads w))).
Proof.
  intros Hget Hlive. unfold getSessionToken, bind, store_get, Date_now; simpl.
  rewrite Hget; simpl.
  destruct (expiresAt s <? clock w (reads w)) eqn:Hexp; [|reflexivity].
  apply Z.ltb_lt in Hexp. contradiction.
Qed.

Lemma getSessionToken_refreshing (w : World) (sessionId : jsstring) (s : Session) :
  sessionStore w !! sessionId = Some s ->
  ~ (expiresAt s < clock w (reads w)) ->
  getSessionToken sessionId true w
  = (Some (token s),
     mkWorld
       (if expiresAt s - clock w (S (reads w)) <? days 7
        then <[sessionId := mkSession (token s) (clock w (S (reads w)) + days 30)
                              (createdAt s)]> (sessionStore w)
        else sessionStore w)
       (clock w) (S (S (reads w)))).
Proof.
  intros Hget Hlive. unfold getSessionToken, bind, store_get, Date_now; simpl.
  rewrite Hget; simpl.
  destruct (expiresAt s <? clock w (reads w)) eqn:Hexp.
  { apply Z.ltb_lt in Hexp. contradiction. }
  simpl. now destruct (expiresAt s - clock w (S (reads w)) <? days 7).
Qed.

(** X1. A session resolved after its creation, before its 30 days are over,
    gives back the credential it was created with. *)
Theorem create_then_resolve (w : World) (tok sid : jsstring) (autoRefresh : bool) :
  tok <> [] ->
  ~ (clock w (reads w) + days 30 < clock w (S (reads w))) ->
  fst (createSession (Some tok) sid w) = inr sid
  /\ fst (getSessionToken sid autoRefresh (snd (createSession (Some tok) sid w)))
     = Some tok.
Proof.
  intros Htok Hlive.
  destruct tok as [|c tok]; [contradiction|].
  split; [reflexivity|].
  set (s := mkSession (c :: tok) (clock w (reads w) + days 30) (clock w (reads w))).
  assert (Hw : snd (createSession (Some (c :: tok)) sid w)
               = mkWorld (<[sid := s]> (sessionStore w)) (clock w) (S (reads w)))
    by reflexivity.
  rewrite Hw. destruct autoRefresh.
  - rewrite (getSessionToken_refreshing _ sid s); [reflexivity | | exact Hlive].
    simpl. apply lookup_insert_eq.
  - rewrite (getSessionToken_plain _ sid s); [reflexivity | | exact Hlive].
    simpl. apply lookup_insert_eq.
Qed.

Lemma create_then_resolve_witness :
  fst (createSession (Some (lit "tok")) (lit "sid") fresh_world) = inr (lit "sid")
  /\ fst (getSessionToken (lit "sid") true
            (snd (createSession (Some (lit "tok")) (lit "sid") fresh_world)))
     = Some (lit "tok").
Proof.
  apply (create_then_resolve fresh_world (lit "tok") (lit "sid") true).
  - discriminate.
  - vm_compute. discriminate.
Defined.

Lemma getSessionToken_live (w : World) (sessionId t : jsstring)
    (autoRefresh : bool) :
  fst (getSessionToken sessionId autoRefresh w) = Some t
  <-> exists s, sessionStore w !! sessionId = Some s
                /\ token s = t
                /\ ~ (expiresAt s < clock w (reads w)).
Proof.
  destruct (sessionStore w !! sessionId) as [s|] eqn:Hget.
  - destruct (Z.lt_ge_cases (expiresAt s) (clock w (reads w))) as [Hexp|Hlive].
    + rewrite (getSessionToken_expired w sessionId s autoRefresh Hget Hexp). simpl.
      split; [discriminate|].
      intros (s' & Hs' & _ & Hnot). injection Hs' as <-. contradiction.
    + assert (Hl : ~ (expiresAt s < clock w (reads w))) by lia.
      assert (Hres : fst (getSessionToken sessionId autoRefresh w) = Some (token s)).
      { destruct autoRefresh.
        - now rewrite (getSessionToken_refreshing w sessionId s Hget Hl).
        - now rewrite (getSessionToken_plain w sessionId s Hget Hl). }
      rewrite Hres. split.
      * intros Ht. injection Ht as <-. exists s. auto.
      * intros (s' & Hs' & Ht & _). injection Hs' as <-. now rewrite Ht.
  - rewrite (getSessionToken_absent w sessionId autoRefresh Hget). simpl.
    split; [discriminate|]. intros (s' & Hs' & _). discriminate.
Qed.

(** X2. A resolution gives a credential exactly for the sessions that are
    stored and not past their expiry at the time of the look-up; it gives
    none exactly for an identifier that is unknown or whose session is
    expired. *)
Theorem resolves_exactly_live_sessions (w : World) (sessionId : jsstring)
    (autoRefresh : bool) :
  (forall t,
     fst (getSessionToken sessionId autoRefresh w) = Some t
     <-> exists s, sessionStore w !! sessionId = Some s
                   /\ token s = t
                   /\ ~ (expiresAt s < clock w (reads w)))
  /\ (fst (getSessionToken sessionId autoRefresh w) = None
      <-> sessionStore w !! sessionId = None
          \/ exists s, sessionStore w !! sessionId = Some s
                       /\ expiresAt s < clock w (reads w)).
Proof.
  split; [intros t; apply getSessionToken_live|].
  destruct (fst (getSessionToken sessionId autoRefresh w)) as [t|] eqn:Hres.
  - apply getSessionToken_live in Hres as (s & Hget & _ & Hlive).
    split; [discriminate|].
    intros [Hnone | (s' & Hget' & Hexp)]; [congruence|].
    rewrite Hget in Hget'. injection Hget' as <-. contradiction.
  - split; [intros _ | reflexivity].
    destruct (sessionStore w !! sessionId) as [s|] eqn:Hget; [|now left].
    right. exists s. split; [reflexivity|].
    destruct (Z.lt_ge_cases (expiresAt s) (clock w (reads w))) as [Hexp|Hlive];
      [exact Hexp|].
    assert (Hsome : fst (getSessionToken sessionId autoRefresh w)
                    = Some (token s)).
    { apply getSessionToken_live. exists s. repeat split; [exact Hget | lia]. }
    congruence.
Qed.

(** X3. A resolution leaves every other session as it was, and of the
    resolved session it changes neither the credential nor the creation
    time, and moves the expiry only later. *)
Theorem resolution_only_extends (w : World) (sessionId : jsstring)
    (autoRefresh : bool) :
  (forall k, k <> sessionId ->
     store_after sessionId autoRefresh w !! k = sessionStore w !! k)
  /\ (forall s', store_after sessionId autoRefresh w !! sessionId = Some s' ->
        exists s, sessionStore w !! sessionId = Some s
                  /\ token s' = token s
                  /\ createdAt s' = createdAt s
                  /\ expiresAt s <= expiresAt s').
Proof.
  unfold store_after.
  destruct (sessionStore w !! sessionId) as [s|] eqn:Hget.
  - destruct (Z.lt_ge_cases (expiresAt s) (clock w (reads w))) as [Hexp|Hlive].
    + rewrite (getSessionToken_expired w sessionId s autoRefresh Hget Hexp). simpl.
      split.
      * intros k Hk. now apply lookup_delete_ne.
      * intros s'. rewrite lookup_delete_eq. discriminate.
    + assert (Hl : ~ (expiresAt s < clock w (reads w))) by lia.
      destruct autoRefresh.
      * rewrite (getSessionToken_refreshing w sessionId s Hget Hl). simpl.
        destruct (expiresAt s - clock w (S (reads w)) <? days 7) eqn:Httl.
        -- apply Z.ltb_lt in Httl. split.
           ++ intros k Hk. now apply lookup_insert_ne.
           ++ intros s'. rewrite lookup_insert_eq. intros Hs'. injection Hs' as <-.
              exists s. simpl. repeat split; auto.
              unfold days in *. lia.
        -- split; [reflexivity|]. intros s' Hs'. exists s.
           rewrite Hget in Hs'. injection Hs' as <-. repeat split; auto. lia.
      * rewrite (getSessionToken_plain w sessionId s Hget Hl). simpl.
        split; [reflexivity|]. intros s' Hs'. exists s.
        rewrite Hget in Hs'. injection Hs' as <-. repeat split; auto. lia.
  - rewrite (getSessionToken_absent w sessionId autoRefresh Hget). simpl.
    split; [reflexivity|]. intros s' Hs'. rewrite Hget in Hs'. discriminate.
Qed.

(** X4. After a successful resolution with the sliding refresh on, the
    session has at least 7 days left, counted from the time of the refresh
    check. *)
Theorem resolved_session_has_a_week (w : World) (sessionId t : jsstring) :
  fst (getSessionToken sessionId true w) = Some t ->
  exists s', store_after sessionId true w !! sessionId = Some s'
             /\ token s' = t
             /\ days 7 <= expiresAt s' - clock w (S (reads w)).
Proof.
  intros Hres.
  apply getSessionToken_live in Hres as (s & Hget & Ht & Hl).
  unfold store_after. rewrite (getSessionToken_refreshing w sessionId s Hget Hl).
  simpl. destruct (expiresAt s - clock w (S (reads w)) <? days 7) eqn:Httl.
  - eexists. rewrite lookup_insert_eq. split; [reflexivity|]. simpl.
    split; [exact Ht|]. unfold days. lia.
  - apply Z.ltb_ge in Httl. exists s. auto.
Qed.

Lemma resolved_session_has_a_week_witness :
  exists s', store_after (lit "a") true two_sessions !! lit "a" = Some s'
             /\ token s' = lit "tok-alice"
             /\ days 7 <= expiresAt s' - clock two_sessions (S (reads two_sessions)).
Proof.
  apply (resolved_session_has_a_week two_sessions (lit "a") (lit "tok-alice")).
  vm_compute. reflexivity.
Defined.

(** X5. The periodic sweep keeps exactly the sessions that are not expired
    when it runs, and it is housekeeping only: under a clock that does not
    run backwards, a resolution that follows a sweep succeeds exactly for
    the sessions stored before the sweep and live at the look-up. *)
Theorem sweep_is_housekeeping (w : World) :
  (forall k s,
     sessionStore (snd (sweep w)) !! k = Some s
     <-> sessionStore w !! k = Some s /\ ~ (expiresAt s < clock w (reads w)))
  /\ (clock w (reads w) <= clock w (S (reads w)) ->
      forall sessionId t autoRefresh,
        fst (getSessionToken sessionId autoRefresh (snd (sweep w))) = Some t
        <-> exists s, sessionStore w !! sessionId = Some s
                      /\ token s = t
                      /\ ~ (expiresAt s < clock w (S (reads w)))).
Proof.
  assert (Hkeep : forall k s,
             sessionStore (snd (sweep w)) !! k = Some s
             <-> sessionStore w !! k = Some s
                 /\ ~ (expiresAt s < clock w (reads w))).
  { intros k s. unfold sweep, bind, Date_now; simpl.
    rewrite map_lookup_filter_Some. reflexivity. }
  split; [exact Hkeep|].
  intros Hmono sessionId t autoRefresh.
  rewrite getSessionToken_live.
  change (clock (snd (sweep w)) (reads (snd (sweep w))))
    with (clock w (S (reads w))).
  split.
  - intros (s & Hs & Ht & Hl). apply Hkeep in Hs as [Hs _]. eauto.
  - intros (s & Hs & Ht & Hl). exists s.
    split; [apply Hkeep; split; [exact Hs | lia] | auto].
Qed.

(** X6. Creating a session under an unused identifier and deleting it again
    restores the table, and the deleted session can no longer be resolved. *)
Theorem create_then_delete (w : World) (tok sid : jsstring) (autoRefresh : bool) :
  sessionStore w !! sid = None ->
  let w' := snd (deleteSession sid (snd (createSession (Some tok) sid w))) in
  sessionStore w' = sessionStore w
  /\ fst (getSessionToken sid autoRefresh w') = None
  /\ fst (getSession sid w') = None.
Proof.
  intros Hfresh w'.
  assert (Hstore : sessionStore w' = sessionStore w).
  { unfold w', deleteSession, store_delete, createSession.
    destruct (negb (truthy_ostr (Some tok))); simpl.
    - now apply delete_id.
    - rewrite delete_insert_eq. now apply delete_id. }
  assert (Hnone : sessionStore w' !! sid = None) by now rewrite Hstore.
  split; [exact Hstore|]. split.
  - now rewrite (getSessionToken_absent w' sid autoRefresh Hnone).
  - unfold getSession, store_get. simpl. exact Hnone.
Qed.

Lemma create_then_delete_witness :
  let w' := snd (deleteSession (lit "sid")
                   (snd (createSession (Some (lit "tok")) (lit "sid") fresh_world))) in
  sessionStore w' = sessionStore fresh_world
  /\ fst (getSessionToken (lit "sid") true w') = None
  /\ fst (getSession (lit "sid") w') = None.
Proof.
  apply (create_then_delete fresh_world (lit "tok") (lit "sid") true).
  reflexivity.
Defined.

End SessionMore.

(** ** More of the inbound rate limiter *)

Module RateLimitMore.

Import RateLimit RateLimitRuns.

Lemma checkRateLimit_counts (request : Request) (maxRequests windowMs now : Z)
    (store : gmap jsstring RateLimitEntry) :
  let e := current windowMs now (store !! getRequestIdentifier request) in
  checkRateLimit request maxRequests windowMs now store
  = (mkVerdict (count e + 1 <=? maxRequests)
       (Z.max 0 (maxRequests - (count e + 1))) (resetAt e)
       (if count e + 1 <=? maxRequests then None
        else Some (ceil_div_1000 (resetAt e - now))),
     <[getRequestIdentifier request := mkEntry (count e + 1) (resetAt e)]> store).
Proof.
  unfold checkRateLimit, current.
  destruct (store !! getRequestIdentifier request) as [e|]; [|reflexivity].
  destruct (resetAt e <? now); reflexivity.
Qed.

Lemma map_seq_S {A} (f : nat -> A) (a n : nat) :
  List.map f (seq (S a) n) = List.map (fun k => f (S k)) (seq a n).
Proof. now rewrite <- seq_shift, List.map_map. Qed.

(** Within a window every request is counted once more. *)
Lemma serve_in_window (request : Request) (maxRequests windowMs : Z)
    (times : list Z) (store : gmap jsstring RateLimitEntry) (c R : Z) :
  store !! getRequestIdentifier request = Some (mkEntry c R) ->
  Forall (fun t => ~ (R < t)) times ->
  List.map allowed (serve request maxRequests windowMs times store)
  = List.map (fun k => c + Z.of_nat k <=? maxRequests) (seq 1 (length times))
  /\ List.map remaining (serve request maxRequests windowMs times store)
     = List.map (fun k => Z.max 0 (maxRequests - (c + Z.of_nat k)))
         (seq 1 (length times))
  /\ Forall (fun v => verdict_resetAt v = R)
       (serve request maxRequests windowMs times store).
Proof.
  revert store c. induction times as [|t times IH]; intros store c Hget Hall.
  { repeat split; constructor. }
  inversion Hall as [|? ? Ht Hrest]; subst.
  cbn [serve]. rewrite checkRateLimit_counts, Hget. cbn [current resetAt].
  replace (R <? t) with false by (symmetry; apply Z.ltb_ge; lia).
  cbn [count resetAt length seq List.map].
  destruct (IH (<[getRequestIdentifier request := mkEntry (c + 1) R]> store)
              (c + 1)) as (Ha & Hr & Hw);
    [apply lookup_insert_eq | exact Hrest |].
  cbn [allowed remaining]. rewrite Ha, Hr. split; [|split].
  - f_equal; try (f_equal; lia). rewrite (map_seq_S _ 1).
    apply List.map_ext. intros k. f_equal. lia.
  - f_equal; try (f_equal; lia). rewrite (map_seq_S _ 1).
    apply List.map_ext. intros k. f_equal. lia.
  - constructor; [reflexivity | exact Hw].
Qed.

(** X7. The counter is a fixed window: when a caller has no entry, or one
    whose window has elapsed, its request opens a window of [windowMs], and
    of the requests made until that window ends the [k]-th is allowed
    exactly when [k <= maxRequests], with [maxRequests - k] remaining (never
    below 0), all reporting the same reset time. *)
Theorem fixed_window_counting (request : Request) (maxRequests windowMs t0 : Z)
    (later : list Z) (store : gmap jsstring RateLimitEntry) :
  match store !! getRequestIdentifier request with
  | Some e => resetAt e < t0
  | None => True
  end ->
  Forall (fun t => ~ (t0 + windowMs < t)) later ->
  let verdicts := serve request maxRequests windowMs (t0 :: later) store in
  List.map allowed verdicts
  = List.map (fun k => Z.of_nat k <=? maxRequests) (seq 1 (S (length later)))
  /\ List.map remaining verdicts
     = List.map (fun k => Z.max 0 (maxRequests - Z.of_nat k))
         (seq 1 (S (length later)))
  /\ Forall (fun v => verdict_resetAt v = t0 + windowMs) verdicts.
Proof.
  intros Hopen Hall verdicts. unfold verdicts.
  cbn [serve]. rewrite checkRateLimit_counts.
  assert (Hcur : current windowMs t0 (store !! getRequestIdentifier request)
                 = mkEntry 0 (t0 + windowMs)).
  { unfold current. destruct (store !! getRequestIdentifier request) as [e|];
      [|reflexivity].
    apply Z.ltb_lt in Hopen. now rewrite Hopen. }
  rewrite Hcur. cbn [count resetAt length seq List.map allowed remaining].
  destruct (serve_in_window request maxRequests windowMs later
              (<[getRequestIdentifier request := mkEntry (0 + 1) (t0 + windowMs)]> store)
              (0 + 1) (t0 + windowMs)) as (Ha & Hr & Hw);
    [apply lookup_insert_eq | exact Hall |].
  rewrite Ha, Hr. split; [|split].
  - f_equal. rewrite (map_seq_S _ 1). apply List.map_ext. intros k. f_equal. lia.
  - f_equal. rewrite (map_seq_S _ 1). apply List.map_ext. intros k. f_equal. lia.
  - constructor; [reflexivity | exact Hw].
Qed.

Lemma fixed_window_counting_witness :
  let verdicts :=
    serve plain_request 10 60000
      (0 :: [1000; 2000; 3000; 4000; 5000; 6000; 7000; 8000; 9000; 60000]) ∅ in
  List.map allowed verdicts
  = List.map (fun k => Z.of_nat k <=? 10) (seq 1 11)
  /\ List.map remaining verdicts
     = List.map (fun k => Z.max 0 (10 - Z.of_nat k)) (seq 1 11)
  /\ Forall (fun v => verdict_resetAt v = 0 + 60000) verdicts.
Proof.
  apply (fixed_window_counting plain_request 10 60000 0
           [1000; 2000; 3000; 4000; 5000; 6000; 7000; 8000; 9000; 60000] ∅).
  - rewrite lookup_empty. exact I.
  - repeat constructor; vm_compute; discriminate.
Defined.

Example eleventh_request_is_denied :
  List.map allowed
    (serve plain_request 10 60000
       [0; 1000; 2000; 3000; 4000; 5000; 6000; 7000; 8000; 9000; 10000; 60001] ∅)
  = [true; true; true; true; true; true; true; true; true; true; false; true].
Proof. vm_compute. reflexivity. Qed.

Lemma ceil_div_1000_bounds (a : Z) :
  1000 * (ceil_div_1000 a - 1) < a <= 1000 * ceil_div_1000 a.
Proof.
  unfold ceil_div_1000.
  pose proof (Z.div_mod (- a) 1000 ltac:(lia)) as Hdm.
  pose proof (Z.mod_pos_bound (- a) 1000 ltac:(lia)) as Hb.
  lia.
Qed.

(** X8. A verdict carries a retry-after exactly when it denies the request;
    it is then the time left until the window resets, in seconds rounded up,
    with nothing remaining. With a non-negative window the reset time is
    never before the time of the request, so the retry-after is never
    negative. *)
Theorem retry_after_on_denial (request : Request) (maxRequests windowMs now : Z)
    (store : gmap jsstring RateLimitEntry) :
  let v := fst (checkRateLimit request maxRequests windowMs now store) in
  (allowed v = true -> retry_after v = None)
  /\ (allowed v = false ->
      remaining v = 0
      /\ exists r, retry_after v = Some r
                   /\ 1000 * (r - 1) < verdict_resetAt v - now <= 1000 * r)
  /\ (0 <= windowMs -> now <= verdict_resetAt v)
  /\ (0 <= windowMs -> forall r, retry_after v = Some r -> 0 <= r).
Proof.
  intros v. unfold v. rewrite checkRateLimit_counts. cbn [fst].
  set (e := current windowMs now (store !! getRequestIdentifier request)).
  cbn [allowed retry_after remaining verdict_resetAt].
  assert (Hreset : 0 <= windowMs -> now <= resetAt e).
  { intros Hw. unfold e, current.
    destruct (store !! getRequestIdentifier request) as [e0|]; simpl; [|lia].
    destruct (Z.ltb_spec (resetAt e0) now); simpl; lia. }
  destruct (Z.leb_spec (count e + 1) maxRequests) as [Hle|Hgt].
  - split; [reflexivity|]. split; [discriminate|]. split; [exact Hreset|].
    intros _ r Hr. discriminate.
  - split; [discriminate|]. split.
    + intros _. split; [lia|]. eexists. split; [reflexivity|].
      apply ceil_div_1000_bounds.
    + split; [exact Hreset|]. intros Hw r Hr. injection Hr as <-.
      pose proof (ceil_div_1000_bounds (resetAt e - now)).
      specialize (Hreset Hw). lia.
Qed.

(** X9. The clean-up changes no verdict: a check made at or after a sweep
    gives the verdict, and stores the entry, that it would have given
    without the sweep. *)
Theorem sweep_changes_no_verdict (request : Request)
    (maxRequests windowMs swept now : Z) (store : gmap jsstring RateLimitEntry) :
  swept <= now ->
  fst (checkRateLimit request maxRequests windowMs now (sweep_limits swept store))
  = fst (checkRateLimit request maxRequests windowMs now store)
  /\ snd (checkRateLimit request maxRequests windowMs now (sweep_limits swept store))
     !! getRequestIdentifier request
     = snd (checkRateLimit request maxRequests windowMs now store)
       !! getRequestIdentifier request.
Proof.
  intros Hle. rewrite !checkRateLimit_counts. cbn [fst snd].
  assert (Hcur : current windowMs now
                   (sweep_limits swept store !! getRequestIdentifier request)
                 = current windowMs now (store !! getRequestIdentifier request)).
  { unfold sweep_limits.
    destruct (store !! getRequestIdentifier request) as [e|] eqn:Hget.
    - destruct (Z.lt_ge_cases (resetAt e) swept) as [Hgone|Hkept].
      + assert (Hnone : filter (fun kv => ~ resetAt (snd kv) < swept) store
                        !! getRequestIdentifier request = None).
        { apply map_lookup_filter_None. right. intros e' He' Hk. simpl in Hk.
          rewrite Hget in He'. injection He' as <-. contradiction. }
        rewrite Hnone. unfold current.
        replace (resetAt e <? now) with true by (symmetry; apply Z.ltb_lt; lia).
        reflexivity.
      + assert (Hsome : filter (fun kv => ~ resetAt (snd kv) < swept) store
                        !! getRequestIdentifier request = Some e).
        { apply map_lookup_filter_Some. split; [exact Hget | simpl; lia]. }
        now rewrite Hsome.
    - assert (Hnone : filter (fun kv => ~ resetAt (snd kv) < swept) store
                      !! getRequestIdentifier request = None).
      { apply map_lookup_filter_None. left. exact Hget. }
      now rewrite Hnone. }
  rewrite Hcur. split; [reflexivity|]. now rewrite !lookup_insert_eq.
Qed.

Lemma sweep_changes_no_verdict_witness :
  fst (checkRateLimit plain_request 10 60000 5000
         (sweep_limits 4000 (<[lit "ip:203.0.113.7" := mkEntry 3 4500]> ∅)))
  = fst (checkRateLimit plain_request 10 60000 5000
           (<[lit "ip:203.0.113.7" := mkEntry 3 4500]> ∅))
  /\ snd (checkRateLimit plain_request 10 60000 5000
            (sweep_limits 4000 (<[lit "ip:203.0.113.7" := mkEntry 3 4500]> ∅)))
     !! getRequestIdentifier plain_request
     = snd (checkRateLimit plain_request 10 60000 5000
              (<[lit "ip:203.0.113.7" := mkEntry 3 4500]> ∅))
       !! getRequestIdentifier plain_request.
Proof.
  apply (sweep_changes_no_verdict plain_request 10 60000 4000 5000).
  lia.
Defined.

End RateLimitMore.

(** ** More of the resilient client *)

Module ClientMore.

Import Client ClientFacts ClientSamples.

Section More.

Context {Body : Type}.

Implicit Types (remote : nat -> Reply Body) (st : ClientState)
  (r : Response Body) (n fuel : nat).

(** X10. An answer whose status is neither 2xx, nor 429, nor 5xx is never
    retried, whatever the retry counter: the call ends after that one
    dispatch without sleeping, with the re-authentication error for a 401
    and with the error of the HTTP library, response included, for any
    other status. *)
Theorem client_errors_are_final remote st n fuel after r :
  remote (sent st) = Answers after r ->
  after <= timeout ->
  ~ (200 <= status r < 300) -> status r <> 429 -> status r < 500 ->
  request (S fuel) remote n st
  = Some (inl (if decide (status r = 401) then AuthenticationFailed
               else Propagated (mkAxiosError BadStatus (Some r))),
          mkClientState (rateLimitState st) (S (sent st)) (slept st)).
Proof.
  intros Hrep Hin Hbad H429 H5xx. simpl.
  rewrite Hrep, (dispatch_bad _ _ Hin Hbad). simpl.
  destruct (decide (status r = 401)) as [H401|H401].
  - destruct (decide (Some (status r) = Some 401)) as [_|Hne]; [reflexivity|].
    congruence.
  - destruct (decide (Some (status r) = Some 401)) as [Heq|_]; [congruence|].
    destruct (decide (Some (status r) = Some 429)) as [Heq|_]; [congruence|].
    replace (500 <=? status r) with false by (symmetry; apply Z.leb_gt; lia).
    now rewrite andb_false_r.
Qed.

Lemma request_sent_grows fuel remote n st out st' :
  request fuel remote n st = Some (out, st') -> (sent st < sent st')%nat.
Proof.
  revert n st. induction fuel as [|fuel IH]; intros n st; [discriminate|].
  simpl. destruct (dispatch (remote (sent st))) as [error | r].
  2:{ intros Heq. injection Heq as _ <-. simpl. lia. }
  destruct (decide (status <$> response error = Some 401)).
  { intros Heq. injection Heq as _ <-. simpl. lia. }
  destruct (decide (status <$> response error = Some 429)).
  { destruct (n <? maxRetries)%nat.
    - intros Heq. apply IH in Heq. simpl in Heq. lia.
    - intros Heq. injection Heq as _ <-. simpl. lia. }
  destruct (match status <$> response error with
            | Some s => negb (s =? 0) && (500 <=? s)
            | None => false
            end && (n <? maxRetries)%nat).
  - intros Heq. apply IH in Heq. simpl in Heq. lia.
  - intros Heq. injection Heq as _ <-. simpl. lia.
Qed.

Lemma request_estimate fuel remote n st out st' :
  request fuel remote n st = Some (out, st') ->
  match out with
  | inl _ => rateLimitState st' = rateLimitState st
  | inr r => rateLimitState st' = rateLimitState (on_response r st)
  end.
Proof.
  revert n st. induction fuel as [|fuel IH]; intros n st; [discriminate|].
  simpl. destruct (dispatch (remote (sent st))) as [error | r].
  2:{ intros Heq. injection Heq as <- <-. reflexivity. }
  destruct (decide (status <$> response error = Some 401)).
  { intros Heq. injection Heq as <- <-. reflexivity. }
  destruct (decide (status <$> response error = Some 429)).
  { destruct (n <? maxRetries)%nat.
    - intros Heq. apply IH in Heq. exact Heq.
    - intros Heq. injection Heq as <- <-. reflexivity. }
  destruct (match status <$> response error with
            | Some s => negb (s =? 0) && (500 <=? s)
            | None => false
            end && (n <? maxRetries)%nat).
  - intros Heq. apply IH in Heq. exact Heq.
  - intros Heq. injection Heq as <- <-. reflexivity.
Qed.

(** X11. The rate-limit estimate changes only through a successful
    response: a call that fails leaves it as it was, whatever headers the
    failing answers carried, and a call that succeeds updates it from the
    headers of the response it returns, and from no answer before it. *)
Theorem estimate_follows_success remote st out st' :
  call remote st = Some (out, st') ->
  match out with
  | inl _ => rateLimitState st' = rateLimitState st
  | inr r =>
      remaining (rateLimitState st')
      = match headers r !! lit "x-ratelimit-remaining" with
        | Some v => parseInt v
        | None => remaining (rateLimitState st)
        end
      /\ resetAt (rateLimitState st')
         = match headers r !! lit "x-ratelimit-reset" with
           | Some v => times_1000 (parseInt v)
           | None => resetAt (rateLimitState st)
           end
  end.
Proof.
  intros Hcall. apply request_estimate in Hcall.
  destruct out as [e | r]; [exact Hcall|].
  rewrite Hcall. unfold on_response. simpl.
  destruct (headers r !! lit "x-ratelimit-remaining"),
    (headers r !! lit "x-ratelimit-reset"); simpl; auto.
Qed.

Lemma dispatch_response (reply : Reply Body) (error : AxiosError Body) r :
  dispatch reply = inl error -> response error = Some r ->
  exists after, reply = Answers after r.
Proof.
  unfold dispatch. destruct reply as [after r0| |].
  - destruct (timeout <? after); [intros Heq; injection Heq as <-; discriminate|].
    destruct ((200 <=? status r0) && (status r0 <? 300)); [discriminate|].
    intros Heq. injection Heq as <-. simpl. intros Hr. injection Hr as <-. eauto.
  - intros Heq. injection Heq as <-. discriminate.
  - intros Heq. injection Heq as <-. discriminate.
Qed.

Lemma schedule_cons (from retries : nat) :
  schedule from (S retries)
  = Some (calculateBackoffDelay from) :: schedule (S from) retries.
Proof. reflexivity. Qed.

Lemma request_schedule fuel remote n st out st' :
  (forall k after r, remote k = Answers after r ->
                     headers r !! lit "retry-after" = None) ->
  request fuel remote n st = Some (out, st') ->
  slept st' = slept st ++ schedule n (sent st' - sent st - 1).
Proof.
  intros Hplain. revert n st. induction fuel as [|fuel IH]; intros n st;
    [discriminate|].
  assert (Hstop : forall o,
             Some (o, count_sent st) = Some (out, st') ->
             slept st' = slept st ++ schedule n (sent st' - sent st - 1)).
  { intros o Heq. injection Heq as _ <-. simpl.
    replace (S (sent st) - sent st - 1)%nat with 0%nat by lia.
    now rewrite app_nil_r. }
  assert (Hgo : forall w,
             w = Some (calculateBackoffDelay n) ->
             request fuel remote (S n) (sleep w (count_sent st)) = Some (out, st') ->
             slept st' = slept st ++ schedule n (sent st' - sent st - 1)).
  { intros w -> Heq. pose proof (request_sent_grows _ _ _ _ _ _ Heq) as Hgrow.
    apply IH in Heq. simpl in Heq, Hgrow. rewrite Heq, <- app_assoc.
    replace (sent st' - sent st - 1)%nat
      with (S (sent st' - S (sent st) - 1)) by lia.
    now rewrite schedule_cons. }
  simpl. destruct (dispatch (remote (sent st))) as [error | r] eqn:Hd.
  2:{ intros Heq. injection Heq as _ <-. simpl.
      replace (S (sent st) - sent st - 1)%nat with 0%nat by lia.
      now rewrite app_nil_r. }
  destruct (decide (status <$> response error = Some 401)); [apply Hstop|].
  destruct (decide (status <$> response error = Some 429)) as [H429|].
  { destruct (n <? maxRetries)%nat; [|apply Hstop].
    apply Hgo.
    destruct (response error) as [r|] eqn:Hr; [|discriminate].
    destruct (dispatch_response _ _ _ Hd Hr) as [after Hrep].
    unfold rate_limit_wait. now rewrite (Hplain _ _ _ Hrep). }
  destruct (match status <$> response error with
            | Some s => negb (s =? 0) && (500 <=? s)
            | None => false
            end && (n <? maxRetries)%nat); [|apply Hstop].
  now apply Hgo.
Qed.

(** X12. When no answer carries a retry-after header, the delays of a call
    are the exponential schedule and nothing else: a call that dispatched
    [k + 1] requests slept 1 s, 2 s, ... before the retries, [k] delays in
    all, each twice the one before. *)
Theorem backoff_schedule remote st out st' :
  (forall k after r, remote k = Answers after r ->
                     headers r !! lit "retry-after" = None) ->
  call remote st = Some (out, st') ->
  slept st'
  = slept st
    ++ List.map (fun i => Some (1000 * 2 ^ Z.of_nat i))
         (seq 0 (sent st' - sent st - 1)).
Proof.
  intros Hplain Hcall. exact (request_schedule _ _ _ _ _ _ Hplain Hcall).
Qed.

End More.

Lemma client_errors_are_final_witness :
  request 4 not_found_once 0 (initial 0)
  = Some (inl (if decide (404 = 401) then AuthenticationFailed
               else Propagated (mkAxiosError BadStatus (Some (mkResponse 404 ∅ tt)))),
          mkClientState (rateLimitState (initial 0)) 1 []).
Proof.
  apply (client_errors_are_final not_found_once (initial 0) 0 3 0
           (mkResponse 404 ∅ tt)).
  - reflexivity.
  - vm_compute. discriminate.
  - simpl. lia.
  - simpl. lia.
  - simpl. lia.
Defined.

Lemma estimate_follows_success_witness :
  rateLimitState
    (mkClientState (mkRateLimitState (Some 1000) (Some 60000)) 4
       [Some 1000; Some 2000; Some 4000])
  = rateLimitState (initial 0).
Proof.
  apply (estimate_follows_success limited_then_down (initial 0)
           (inl (Propagated (mkAxiosError BadStatus (Some (mkResponse 503 ∅ tt)))))
           (mkClientState (mkRateLimitState (Some 1000) (Some 60000)) 4
              [Some 1000; Some 2000; Some 4000])).
  vm_compute. reflexivity.
Defined.

Example estimate_from_the_returned_response :
  rateLimitState <$> (snd <$> call down_twice (initial 0))
  = Some (mkRateLimitState (Some 41) (Some 60000)).
Proof. vm_compute. reflexivity. Qed.

Lemma backoff_schedule_witness :
  slept (mkClientState (mkRateLimitState (Some 41) (Some 60000)) 3
           [Some 1000; Some 2000])
  = slept (initial 0)
    ++ List.map (fun i => Some (1000 * 2 ^ Z.of_nat i)) (seq 0 (3 - 0 - 1)).
Proof.
  apply (backoff_schedule down_twice (initial 0)
           (inr (mkResponse 200 (<[lit "x-ratelimit-remaining" := lit "41"]> ∅) tt))).
  - intros k after r Hrep. unfold down_twice, scripted in Hrep.
    destruct k as [|[|[|k]]]; simpl in Hrep; injection Hrep as _ <-;
      reflexivity.
  - vm_compute. reflexivity.
Defined.

End ClientMore.

(** ** Credential resolution of the client factory *)

Module CredentialFacts.

Import Sessions RateLimit Credentials SessionMore.

Lemma truthy_cons (c : N) (t : jsstring) : truthy_ostr (Some (c :: t)) = true.
Proof. reflexivity. Qed.

(** A resolution that succeeds, in one equation. *)
Lemma resolve_live (w : World) (sessionId : jsstring) (s : Session) :
  sessionStore w !! sessionId = Some s ->
  ~ (expiresAt s < clock w (reads w)) ->
  exists store',
    getSessionToken sessionId true w
    = (Some (token s), mkWorld store' (clock w) (S (S (reads w)))).
Proof.
  intros Hget Hlive. eexists.
  apply (getSessionToken_refreshing w sessionId s Hget Hlive).
Qed.

(** The factory, once the request has been searched for a credential. *)
Lemma createClioClient_after (request : Request) (cookieToken : option jsstring)
    (w w1 : World) (found : option jsstring) :
  (do token <- from_query request;
   do token <- from_authorization request token;
   from_session_header request token) w = (found, w1) ->
  createClioClient false (Some request) cookieToken w
  = (let token := if negb (truthy_ostr found) then cookieToken else found in
     if negb (truthy_ostr token) then (inl token_not_found, w1)
     else (inr (RealClient (default [] token)
                  (Client.initial (clock w1 (reads w1)))),
           mkWorld (sessionStore w1) (clock w1) (S (reads w1)))).
Proof.
  intros Hmid. unfold createClioClient. unfold bind at 1. rewrite Hmid.
  cbv zeta.
  destruct (negb (truthy_ostr (if negb (truthy_ostr found) then cookieToken
                               else found))); reflexivity.
Qed.

(** X13. The session named in the query string comes first: when it
    resolves, the client is bound to that session's credential, whatever
    the headers and the cookie hold. *)
Theorem query_session_comes_first (request : Request) (cookieToken : option jsstring)
    (w : World) (sessionId : jsstring) (s : Session) :
  searchParams_get (lit "sessionId") (searchParams request) = Some sessionId ->
  sessionId <> [] ->
  sessionStore w !! sessionId = Some s ->
  ~ (expiresAt s < clock w (reads w)) ->
  token s <> [] ->
  bound_token (fst (createClioClient false (Some request) cookieToken w))
  = Some (token s).
Proof.
  intros Hq Hid Hget Hlive Htok.
  destruct (resolve_live w sessionId s Hget Hlive) as [store' Hres].
  destruct sessionId as [|c sid]; [contradiction|].
  destruct (token s) as [|c' t] eqn:Ht; [contradiction|].
  assert (Hmid :
    (do token <- from_query request;
     do token <- from_authorization request token;
     from_session_header request token) w
    = (Some (c' :: t), mkWorld store' (clock w) (S (S (reads w))))).
  { unfold bind, from_query. rewrite Hq, truthy_cons.
    change (default [] (Some (c :: sid))) with (c :: sid).
    rewrite Hres. unfold from_authorization, from_session_header.
    now rewrite truthy_cons. }
  rewrite (createClioClient_after _ cookieToken _ _ _ Hmid).
  rewrite truthy_cons. cbn [negb]. cbv zeta. rewrite truthy_cons.
  reflexivity.
Qed.

Lemma query_session_comes_first_witness :
  bound_token
    (fst (createClioClient false (Some crowded_request) (Some (lit "cookie-token"))
            two_sessions))
  = Some (token alice).
Proof.
  apply (query_session_comes_first crowded_request (Some (lit "cookie-token"))
           two_sessions (lit "a") alice).
  - reflexivity.
  - discriminate.
  - reflexivity.
  - vm_compute. discriminate.
  - discriminate.
Defined.

(** X14. An Authorization header of the form [Bearer session:<id>] is only
    ever a reference to a session: when that session does not resolve, the
    text after [Bearer ] is not taken as a credential; with no other source
    in the request the cookie decides, and without a cookie the factory
    fails with the not-found error. *)
Theorem session_reference_is_never_a_credential (request : Request)
    (cookieToken : option jsstring) (w : World) (sessionId : jsstring) :
  truthy_ostr (searchParams_get (lit "sessionId") (searchParams request)) = false ->
  headers_get (lit "Authorization") request = Some (bearer_session ++ sessionId) ->
  truthy_ostr (headers_get (lit "X-MCP-Session-ID") request) = false ->
  fst (getSessionToken sessionId true w) = None ->
  bound_token (fst (createClioClient false (Some request) cookieToken w))
  = (if truthy_ostr cookieToken then cookieToken else None)
  /\ (truthy_ostr cookieToken = false ->
      fst (createClioClient false (Some request) cookieToken w)
      = inl token_not_found).
Proof.
  intros Hq Hauth Hx Hnone.
  assert (Hmid :
    exists w1,
      (do token <- from_query request;
       do token <- from_authorization request token;
       from_session_header request token) w = (None, w1)).
  { unfold bind, from_query. rewrite Hq. unfold ret.
    unfold from_authorization. rewrite Hauth.
    replace (truthy_ostr (Some (bearer_session ++ sessionId))) with true
      by reflexivity.
    change (default [] (Some (bearer_session ++ sessionId)))
      with (bearer_session ++ sessionId).
    rewrite RateLimitFacts.starts_with_app.
    change (substring_from 15 (bearer_session ++ sessionId)) with sessionId.
    cbn [negb truthy_ostr].
    destruct (getSessionToken sessionId true w) as [r w1] eqn:Hres.
    simpl in Hnone. subst r.
    unfold from_session_header. cbn [negb truthy_ostr]. rewrite Hx.
    eexists. reflexivity. }
  destruct Hmid as [w1 Hmid].
  rewrite (createClioClient_after request cookieToken w w1 None Hmid).
  cbn [negb truthy_ostr]. cbv zeta.
  destruct (truthy_ostr cookieToken) eqn:Hc; cbn [negb fst].
  - split; [|discriminate].
    destruct cookieToken as [t|]; [reflexivity | discriminate].
  - split; [reflexivity|]. intros _. reflexivity.
Qed.

Lemma session_reference_is_never_a_credential_witness :
  bound_token (fst (createClioClient false (Some dangling_request) None two_sessions))
  = (if truthy_ostr None then None else None)
  /\ (truthy_ostr None = false ->
      fst (createClioClient false (Some dangling_request) None two_sessions)
      = inl token_not_found).
Proof.
  apply (session_reference_is_never_a_credential dangling_request None
           two_sessions (lit "gone")).
  - reflexivity.
  - reflexivity.
  - reflexivity.
  - reflexivity.
Defined.

(** X15. A credential given directly in the Authorization header is used as
    it stands: with no session in the query string, [Bearer <token>] binds
    the client to [<token>] without consulting or changing the session
    table. *)
Theorem direct_credential_is_used (request : Request)
    (cookieToken : option jsstring) (w : World) (t : jsstring) :
  truthy_ostr (searchParams_get (lit "sessionId") (searchParams request)) = false ->
  headers_get (lit "Authorization") request = Some (bearer ++ t) ->
  t <> [] ->
  starts_with (lit "session:") t = false ->
  bound_token (fst (createClioClient false (Some request) cookieToken w)) = Some t
  /\ sessionStore (snd (createClioClient false (Some request) cookieToken w))
     = sessionStore w.
Proof.
  intros Hq Hauth Ht Hns.
  destruct t as [|c t]; [contradiction|].
  assert (Hnot : starts_with bearer_session (bearer ++ c :: t) = false).
  { change bearer_session with (bearer ++ lit "session:").
    clear -Hns. unfold bearer. simpl. simpl in Hns. exact Hns. }
  assert (Hmid :
    (do token <- from_query request;
     do token <- from_authorization request token;
     from_session_header request token) w = (Some (c :: t), w)).
  { unfold bind, from_query. rewrite Hq. unfold ret.
    unfold from_authorization. rewrite Hauth.
    replace (truthy_ostr (Some (bearer ++ c :: t))) with true by reflexivity.
    change (default [] (Some (bearer ++ c :: t))) with (bearer ++ c :: t).
    cbn [negb truthy_ostr]. rewrite Hnot, RateLimitFacts.starts_with_app.
    change (substring_from 7 (bearer ++ c :: t)) with (c :: t).
    unfold ret, from_session_header. now rewrite truthy_cons. }
  rewrite (createClioClient_after request cookieToken w w (Some (c :: t)) Hmid).
  rewrite truthy_cons. cbn [negb]. cbv zeta. rewrite truthy_cons.
  split; reflexivity.
Qed.

Lemma direct_credential_is_used_witness :
  bound_token (fst (createClioClient false (Some direct_request) None two_sessions))
  = Some (lit "direct-token")
  /\ sessionStore (snd (createClioClient false (Some direct_request) None two_sessions))
     = sessionStore two_sessions.
Proof.
  apply (direct_credential_is_used direct_request None two_sessions
           (lit "direct-token")).
  - reflexivity.
  - reflexivity.
  - discriminate.
  - reflexivity.
Defined.

(** X16. The factory has three outcomes: in mock mode, and only then, it
    hands back the mock client and reads nothing; otherwise it fails with
    the not-found error or binds a client to a credential that is not
    empty. Without a request that credential is the cookie's, and the
    session table is not touched. *)
Theorem factory_outcomes (useMock : bool) (request : option Request)
    (cookieToken : option jsstring) (w : World) :
  match fst (createClioClient useMock request cookieToken w) with
  | inl message => useMock = false /\ message = token_not_found
  | inr MockClient =>
      useMock = true
      /\ snd (createClioClient useMock request cookieToken w) = w
  | inr (RealClient token state) =>
      useMock = false
      /\ token <> []
      /\ (request = None ->
          cookieToken = Some token
          /\ sessionStore (snd (createClioClient useMock request cookieToken w))
             = sessionStore w)
  end.
Proof.
  unfold createClioClient. destruct useMock; [now split|].
  unfold bind at 1.
  destruct (match request with
            | Some request0 =>
                do token <- from_query request0;
                do token0 <- from_authorization request0 token;
                from_session_header request0 token0
            | None => ret None
            end w) as [token w'] eqn:Hchain.
  destruct (negb (truthy_ostr
                    (if negb (truthy_ostr token) then cookieToken else token)))
    eqn:Hfound.
  - now split.
  - unfold bind, Date_now, ret. cbn [fst snd].
    split; [reflexivity|]. split.
    + apply negb_false_iff in Hfound.
      destruct (if negb (truthy_ostr token) then cookieToken else token)
        as [[|c t]|]; discriminate.
    + intros ->. unfold ret in Hchain. injection Hchain as <- <-.
      cbn [truthy_ostr negb] in *. apply negb_false_iff in Hfound.
      destruct cookieToken as [[|c t]|]; try discriminate.
      split; reflexivity.
Qed.

Example dedicated_header_resolves_a_session :
  bound_token
    (fst (createClioClient false (Some header_session_request) None two_sessions))
  = Some (token bob).
Proof. vm_compute. reflexivity. Qed.

End CredentialFacts.

(** ** More of the redaction filter *)

Module RedactionMore.

Import Redaction DeepRedaction.

Section NoMatch.

Variable P : N -> bool.

Lemma free_tail (c : N) (s : jsstring) : free P (c :: s) -> free P s.
Proof. intros H. now inversion H. Qed.

(** The matcher hands only what is left of the input to its continuation:
    if the continuation fails on every text free of [P], so does the
    matcher on such a text. *)
Lemma run_fails (r : regex) :
  forall (A : Set) (prev : option N) (s : jsstring)
         (k : option N -> jsstring -> option A),
    free P s ->
    (forall prev' s', free P s' -> k prev' s' = None) ->
    run r prev s k = None.
Proof.
  induction r as [|q|r1 IH1 r2 IH2|r1 IH1 r2 IH2|r1 IH1|r1 IH1| |r1 IH1| |];
    intros A prev s k Hs Hk; simpl.
  - now apply Hk.
  - destruct s as [|c s]; [reflexivity|].
    destruct (q c); [|reflexivity]. apply Hk. now apply free_tail in Hs.
  - apply IH1; [exact Hs|]. intros prev' s' Hs'. now apply IH2.
  - rewrite IH1 by assumption. now apply IH2.
  - rewrite IH1; [now apply Hk | exact Hs |].
    intros prev' s' Hs'. destruct (length s' <? length s)%nat; [|reflexivity].
    now apply Hk.
  - generalize (length s) as fuel. intros fuel. revert prev s Hs.
    induction fuel as [|fuel IHf]; intros prev s Hs; [now apply Hk|].
    rewrite IH1; [now apply Hk | exact Hs |].
    intros prev' s' Hs'. destruct (length s' <? length s)%nat; [|reflexivity].
    now apply IHf.
  - destruct (xorb (is_word_o prev) (is_word_o (head s))); [|reflexivity].
    now apply Hk.
  - destruct (run r1 prev s (fun _ _ => Some tt)); [reflexivity|].
    now apply Hk.
  - destruct prev; [reflexivity|]. now apply Hk.
  - destruct s; [|reflexivity]. now apply Hk.
Qed.

(** A pattern that needs a code unit of [P] matches nowhere in a text free
    of [P]. *)
Lemma needs_fails (r : regex) :
  needs P r ->
  forall (A : Set) (prev : option N) (s : jsstring)
         (k : option N -> jsstring -> option A),
    free P s -> run r prev s k = None.
Proof.
  induction 1 as [q Hq|r1 r2 _ IH|r1 r2 _ IH|r1 r2 _ IH1 _ IH2];
    intros A prev s k Hs; simpl.
  - destruct s as [|c s]; [reflexivity|].
    destruct (q c) eqn:Hqc; [|reflexivity].
    apply Hq in Hqc. inversion Hs as [|? ? Hc _]; subst. congruence.
  - now apply IH.
  - apply run_fails; [exact Hs|]. intros prev' s' Hs'. now apply IH.
  - rewrite IH1 by assumption. now apply IH2.
Qed.

Lemma replace_from_free (r : regex) (f : jsstring -> jsstring) :
  needs P r ->
  forall (fuel : nat) (prev : option N) (s : jsstring),
    free P s -> replace_from fuel r f prev s = s.
Proof.
  intros Hr. induction fuel as [|fuel IH]; intros prev s Hs; [reflexivity|].
  simpl. unfold match_here. rewrite (needs_fails r Hr) by exact Hs.
  destruct s as [|c s]; [reflexivity|].
  f_equal. apply IH. now apply free_tail in Hs.
Qed.

Lemma free_check (s : jsstring) :
  forallb (fun c => negb (P c)) s = true -> free P s.
Proof.
  intros Hall. apply Stdlib.Lists.List.Forall_forall. intros c Hc.
  apply negb_true_iff. revert c Hc. now apply forallb_forall.
Qed.

Lemma replace_all_free (r : regex) (f : jsstring -> jsstring) (s : jsstring) :
  needs P r -> free P s -> replace_all r f s = s.
Proof. intros Hr Hs. now apply replace_from_free. Qed.

End NoMatch.

Ltac trigger_class :=
  let c := fresh "c" in
  let Hc := fresh "Hc" in
  intros c Hc; unfold is_trigger; cbv beta in Hc;
  rewrite Hc; rewrite ?orb_true_r; reflexivity.

Ltac needs_trigger :=
  solve [ apply needs_chr; trigger_class
        | apply needs_cat_l; needs_trigger
        | apply needs_cat_r; needs_trigger
        | apply needs_alt; needs_trigger ].

Ltac open_pattern :=
  cbv [email_re phone_re1 phone_re2 phone_re3 ssn_dashed_re nine_digits_re
       card_grouped_re card_run_re name_field_re address_re
       cats plus rep rep_min rep_range chr digit].

Lemma email_needs : needs is_trigger email_re.
Proof. open_pattern. needs_trigger. Qed.

Lemma phone1_needs : needs is_trigger phone_re1.
Proof. open_pattern. needs_trigger. Qed.

Lemma phone2_needs : needs is_trigger phone_re2.
Proof. open_pattern. needs_trigger. Qed.

Lemma phone3_needs : needs is_trigger phone_re3.
Proof. open_pattern. needs_trigger. Qed.

Lemma ssn_dashed_needs : needs is_trigger ssn_dashed_re.
Proof. open_pattern. needs_trigger. Qed.

Lemma nine_digits_needs : needs is_trigger nine_digits_re.
Proof. open_pattern. needs_trigger. Qed.

Lemma card_grouped_needs : needs is_trigger card_grouped_re.
Proof. open_pattern. needs_trigger. Qed.

Lemma card_run_needs : needs is_trigger card_run_re.
Proof. open_pattern. needs_trigger. Qed.

Lemma name_field_needs : needs is_trigger name_field_re.
Proof. open_pattern. needs_trigger. Qed.

Lemma address_needs : needs is_trigger address_re.
Proof. open_pattern. needs_trigger. Qed.

(** X17. Text that holds no digit, no at sign and no double quote passes
    through the filter unchanged: none of the ten substitutions can match
    in it. *)
Theorem clean_text_is_untouched (text : jsstring) :
  Forall (fun c => is_trigger c = false) text ->
  redactPII text = text.
Proof.
  intros Hfree. unfold redactPII.
  destruct (negb (truthy_str text)); [reflexivity|].
  cbv zeta. unfold replace_with.
  rewrite (replace_all_free is_trigger email_re) by (exact email_needs || exact Hfree).
  rewrite (replace_all_free is_trigger phone_re1) by (exact phone1_needs || exact Hfree).
  rewrite (replace_all_free is_trigger phone_re2) by (exact phone2_needs || exact Hfree).
  rewrite (replace_all_free is_trigger phone_re3) by (exact phone3_needs || exact Hfree).
  rewrite (replace_all_free is_trigger ssn_dashed_re)
    by (exact ssn_dashed_needs || exact Hfree).
  rewrite (replace_all_free is_trigger nine_digits_re)
    by (exact nine_digits_needs || exact Hfree).
  rewrite (replace_all_free is_trigger card_grouped_re)
    by (exact card_grouped_needs || exact Hfree).
  rewrite (replace_all_free is_trigger card_run_re)
    by (exact card_run_needs || exact Hfree).
  rewrite (replace_all_free is_trigger name_field_re)
    by (exact name_field_needs || exact Hfree).
  now rewrite (replace_all_free is_trigger address_re)
    by (exact address_needs || exact Hfree).
Qed.

Lemma clean_text_is_untouched_witness :
  redactPII (lit "Drafted Motion to Dismiss defendant's counterclaim")
  = lit "Drafted Motion to Dismiss defendant's counterclaim".
Proof.
  apply clean_text_is_untouched, free_check. vm_compute. reflexivity.
Defined.

Lemma json_induction (Q : json -> Prop) :
  Q JNull -> Q JUndefined -> (forall b, Q (JBool b)) -> (forall z, Q (JNum z)) ->
  (forall s, Q (JStr s)) ->
  (forall items, Forall Q items -> Q (JArr items)) ->
  (forall entries, Forall (fun entry => Q (snd entry)) entries -> Q (JObj entries)) ->
  forall v, Q v.
Proof.
  intros Hnull Hundef Hbool Hnum Hstr Harr Hobj.
  fix IH 1. intros [ | | b | z | s | items | entries].
  - exact Hnull.
  - exact Hundef.
  - apply Hbool.
  - apply Hnum.
  - apply Hstr.
  - apply Harr. induction items as [|x items IHitems]; constructor;
      [apply IH | exact IHitems].
  - apply Hobj. induction entries as [|[key x] entries IHentries]; constructor;
      [apply IH | exact IHentries].
Qed.




(** A whole record: the number-like id and the address under Meta stay, the
    address in the array under an unsafe key goes, and the key that is
    itself an address stays. *)
Example redacted_record :
  redactPIIFromObject record_with_meta
  = JObj [(lit "id", JStr (lit "5551234567"));
          (lit "Meta", JObj [(lit "email", JStr (lit "jo@example.com"))]);
          (lit "jo@example.com",
           JArr [JStr (lit "[EMAIL_REDACTED]"); JNum 5; JNull])].
Proof. vm_compute. reflexivity. Qed.

End RedactionMore.

(** ** More of the vagueness classifier *)

Module VagueMore.

Import Vague.

Lemma drop_while_split {A} (p : A -> bool) (l : list A) :
  exists pre, l = pre ++ Js.drop_while p l.
Proof.
  induction l as [|x l [pre IH]]; simpl; [now exists []|].
  destruct (p x); [|now exists []].
  exists (x :: pre). simpl. now rewrite <- IH.
Qed.

Lemma drop_while_head {A} (p : A -> bool) (l : list A) (x : A) (rest : list A) :
  Js.drop_while p l = x :: rest -> p x = false.
Proof.
  induction l as [|y l IH]; simpl; [discriminate|].
  destruct (p y) eqn:Hy; [exact IH|]. intros Heq. now injection Heq as <- _.
Qed.

Lemma drop_while_keeps {A} (p : A -> bool) (x : A) (l : list A) :
  p x = false -> Js.drop_while p (x :: l) = x :: l.
Proof. intros Hx. simpl. now rewrite Hx. Qed.

(** Trimming what is trimmed changes nothing. *)
Lemma trim_trim (s : jsstring) : trim (trim s) = trim s.
Proof.
  unfold trim.
  set (a := Js.drop_while is_space s).
  destruct (Js.drop_while is_space (rev a)) as [|x b] eqn:Hb; [reflexivity|].
  pose proof (drop_while_head _ _ _ _ Hb) as Hx.
  destruct (drop_while_split is_space (rev a)) as [pre Hpre].
  rewrite Hb in Hpre.
  assert (Ha : a = rev (x :: b) ++ rev pre).
  { rewrite <- rev_app_distr, <- Hpre. now rewrite rev_involutive. }
  assert (Hfront : Js.drop_while is_space (rev (x :: b)) = rev (x :: b)).
  { destruct (rev (x :: b)) as [|y front] eqn:Hrev; [reflexivity|].
    apply drop_while_keeps.
    subst a. destruct (Js.drop_while is_space s) as [|z a'] eqn:Hs.
    - destruct (rev pre); discriminate.
    - simpl in Ha. injection Ha as -> _.
      exact (drop_while_head _ _ _ _ Hs). }
  rewrite Hfront, rev_involutive. now rewrite (drop_while_keeps _ _ _ Hx).
Qed.

Lemma is_blank_trim (d : jsstring) : is_blank (trim d) = is_blank d.
Proof.
  unfold is_blank. rewrite trim_trim.
  destruct d as [|c d]; [reflexivity|].
  destruct (trim (c :: d)); reflexivity.
Qed.

(** X20. White space around a description never changes the verdict or the
    reason given for it. *)
Theorem surrounding_space_is_ignored (description : jsstring) :
  isVagueDescription (trim description) = isVagueDescription description
  /\ getVagueReason (trim description) = getVagueReason description.
Proof.
  unfold isVagueDescription, getVagueReason.
  now rewrite is_blank_trim, trim_trim.
Qed.

Lemma class_check (p : N -> bool) (s : jsstring) :
  forallb p s = true -> Forall (fun c => p c = true) s.
Proof.
  intros Hall. apply Stdlib.Lists.List.Forall_forall.
  now apply forallb_forall.
Qed.

(** One more code unit of the class, taken greedily. *)
Lemma run_star_class_cons {A : Set} (p : N -> bool) (prev : option N) (c : N)
    (s : jsstring) (k : option N -> jsstring -> option A) :
  p c = true ->
  run (Star (Chr p)) prev (c :: s) k
  = match run (Star (Chr p)) (Some c) s k with
    | Some x => Some x
    | None => k prev (c :: s)
    end.
Proof.
  intros Hp. simpl. rewrite Hp.
  replace (length s <? S (length s))%nat with true
    by (symmetry; apply Nat.ltb_lt; lia).
  reflexivity.
Qed.

(** A run of code units of one class is taken whole when the rest of the
    pattern accepts the end of the text. *)
Lemma run_star_class {A : Set} (p : N -> bool)
    (k : option N -> jsstring -> option A) (s : jsstring) :
  Forall (fun c => p c = true) s ->
  (forall prev, is_Some (k prev [])) ->
  forall prev, is_Some (run (Star (Chr p)) prev s k).
Proof.
  intros Hs Hk. induction Hs as [|c s Hc _ IH]; intros prev.
  - simpl. apply Hk.
  - rewrite run_star_class_cons by exact Hc.
    destruct (IH (Some c)) as [x ->]. now exists x.
Qed.

(** A text made of one class of code units matches the anchored pattern of
    one or more of that class. *)
Lemma class_only_matches (p : N -> bool) (t : jsstring) :
  t <> [] -> Forall (fun c => p c = true) t ->
  test (anchored (plus (Chr p))) t = true.
Proof.
  intros Hne Ht. destruct t as [|c t]; [congruence|].
  inversion Ht as [|? ? Hc Ht']; subst.
  unfold test. cbn [test_from]. unfold match_here.
  set (rest := fun (prev' : option N) (s' : jsstring) =>
                 run (Star space) prev' s'
                   (fun prev'' s'' => run Eol prev'' s'' (fun _ s3 => Some s3))).
  change (run (anchored (plus (Chr p))) None (c :: t) (fun _ s' => Some s'))
    with (if p c then run (Star (Chr p)) (Some c) t rest else None).
  rewrite Hc.
  destruct (run_star_class p rest t Ht' (fun prev => ltac:(now exists []))
              (Some c)) as [x Hx].
  now rewrite Hx.
Qed.

(** X21. A description that is, apart from surrounding white space, made of
    digits only, or of code units that are neither word characters nor white
    space only, is vague however long it is. *)
Theorem digits_or_punctuation_are_vague (description : jsstring) :
  Forall (fun c => is_digit c = true) (trim description)
  \/ Forall (fun c => negb (is_word c || is_space c) = true) (trim description) ->
  isVagueDescription description = true.
Proof.
  intros Hclass. unfold isVagueDescription.
  destruct (is_blank description) eqn:Hblank; [reflexivity|].
  destruct (length (trim description) <? threshold)%nat; [reflexivity|].
  assert (Hne : trim description <> []).
  { intros Hnil. unfold is_blank in Hblank. rewrite Hnil in Hblank.
    now rewrite orb_true_r in Hblank. }
  apply existsb_exists. destruct Hclass as [Hdigits|Hpunct].
  - exists (anchored (plus digit)). split.
    + unfold vaguePatterns. do 5 right. left. reflexivity.
    + now apply class_only_matches.
  - exists (anchored (plus (Chr (fun c => negb (is_word c || is_space c))))).
    split.
    + unfold vaguePatterns. do 6 right. left. reflexivity.
    + now apply class_only_matches.
Qed.

Lemma digits_or_punctuation_are_vague_witness :
  isVagueDescription (lit "  20240115 00931 447  ") = false
  /\ isVagueDescription (lit " 202401150093144700 ") = true
  /\ isVagueDescription (lit "---------- ??? ----------") = false
  /\ isVagueDescription (lit "----------???----------") = true.
Proof.
  split; [reflexivity|]. split; [|split; [reflexivity|]].
  - apply digits_or_punctuation_are_vague. left.
    apply (class_check is_digit). vm_compute. reflexivity.
  - apply digits_or_punctuation_are_vague. right.
    apply (class_check (fun c => negb (is_word c || is_space c))).
    vm_compute. reflexivity.
Defined.

End VagueMore.

(** ** More of the audit *)

Module AuditMore.

Import Vague Audit AuditViews.

Section Bookkeeping.

Context {num : Type} `{JsNumber num}.

Lemma process_entry (acc : AuditResult (num := num)) (a : Activity) :
  activities (process acc a) = activities acc ++ [entry_of a]
  /\ vague_descriptions_count (process acc a)
     = (vague_descriptions_count acc
        + length (List.filter vague_description_flag [entry_of a]))%nat
  /\ total_unbilled_activities (process acc a) = total_unbilled_activities acc.
Proof.
  split; [reflexivity|]. split; [|reflexivity].
  unfold process, entry_of. simpl.
  destruct (isVagueDescription _); simpl; lia.
Qed.

Lemma fold_process_entries (l : list Activity) (acc : AuditResult (num := num)) :
  activities (fold_left process l acc) = activities acc ++ List.map entry_of l
  /\ vague_descriptions_count (fold_left process l acc)
     = (vague_descriptions_count acc
        + length (List.filter vague_description_flag (List.map entry_of l)))%nat
  /\ total_unbilled_activities (fold_left process l acc)
     = total_unbilled_activities acc.
Proof.
  revert acc. induction l as [|a l IH]; intros acc.
  - simpl. rewrite app_nil_r. repeat split; lia.
  - cbn [fold_left]. destruct (IH (process acc a)) as (Ha & Hv & Ht).
    destruct (process_entry acc a) as (Ha' & Hv' & Ht').
    rewrite Ha, Hv, Ht, Ha', Hv', Ht'. split; [|split; [|reflexivity]].
    + now rewrite <- app_assoc.
    + cbn [List.map]. change (entry_of a :: List.map entry_of l)
        with ([entry_of a] ++ List.map entry_of l).
      rewrite List.filter_app, length_app. lia.
Qed.


End Bookkeeping.

Section Fallback.

Context {num : Type} `{JsNumber num}.
Variable Error : Type.
Variable sort_by_date
  : list (UnbilledActivity (num := num)) -> list (UnbilledActivity (num := num)).

(** X23. The audit asks the time entries endpoint only when the activities
    endpoint fails, and then reports on the time entries as it would have on
    activities; it fails only when both endpoints fail, always with the same
    message, whatever the two errors were. *)
Theorem audit_falls_back_to_time_entries
    (get_activities get_time_entries : jsstring -> Error + option (list Activity))
    (matterId : jsstring) :
  (forall data other,
     get_activities matterId = inr data ->
     auditUnbilledActivities Error get_activities get_time_entries
       sort_by_date matterId
     = auditUnbilledActivities Error get_activities other sort_by_date matterId)
  /\ (forall e,
        get_activities matterId = inl e ->
        auditUnbilledActivities Error get_activities get_time_entries
          sort_by_date matterId
        = match get_time_entries matterId with
          | inr _ =>
              auditUnbilledActivities Error get_time_entries get_time_entries
                sort_by_date matterId
          | inl _ => inl unavailable
          end)
  /\ (forall message,
        auditUnbilledActivities Error get_activities get_time_entries
          sort_by_date matterId = inl message ->
        message = unavailable
        /\ (exists e, get_activities matterId = inl e)
        /\ (exists e, get_time_entries matterId = inl e)).
Proof.
  unfold auditUnbilledActivities. split; [|split].
  - intros data other ->. reflexivity.
  - intros e ->. now destruct (get_time_entries matterId).
  - intros message.
    destruct (get_activities matterId) as [e1|data]; [|discriminate].
    destruct (get_time_entries matterId) as [e2|data]; [|discriminate].
    intros Hm. injection Hm as <-. eauto.
Qed.

End Fallback.

Section Report.

Context {num : Type} `{JsNumber num}.

Lemma filter_partition_length {A} (f : A -> bool) (l : list A) :
  length l
  = (length (List.filter f l) + length (List.filter (fun a => negb (f a)) l))%nat.
Proof.
  induction l as [|x l IH]; [reflexivity|].
  simpl. destruct (f x); simpl; lia.
Qed.

(** X24. A report lists the first twenty clear entries only: two results
    with the same figures, the same vague entries, the same first twenty
    clear entries and as many clear entries give the same report. *)
Theorem report_lists_twenty_clear_entries (r1 r2 : AuditResult (num := num)) :
  matter_id r1 = matter_id r2 ->
  total_unbilled_activities r1 = total_unbilled_activities r2 ->
  total_billable_amount r1 = total_billable_amount r2 ->
  vague_descriptions_count r1 = vague_descriptions_count r2 ->
  List.filter vague_description_flag (activities r1)
  = List.filter vague_description_flag (activities r2) ->
  take 20 (List.filter is_clear (activities r1))
  = take 20 (List.filter is_clear (activities r2)) ->
  length (List.filter is_clear (activities r1))
  = length (List.filter is_clear (activities r2)) ->
  formatAuditReport r1 = formatAuditReport r2.
Proof.
  intros Hm Ht Hb Hv Hvague Htake Hlen.
  assert (Hall : length (activities r1) = length (activities r2)).
  { rewrite (filter_partition_length vague_description_flag (activities r1)),
      (filter_partition_length vague_description_flag (activities r2)).
    unfold is_clear in Hlen. now rewrite Hvague, Hlen. }
  unfold formatAuditReport, is_clear in *.
  now rewrite Hm, Ht, Hb, Hv, Hvague, Htake, Hlen, Hall.
Qed.

End Report.

Lemma report_lists_twenty_clear_entries_witness :
  long_result 100 <> long_result 350
  /\ formatAuditReport (long_result 100) = formatAuditReport (long_result 350).
Proof.
  split; [discriminate|].
  apply report_lists_twenty_clear_entries; vm_compute; reflexivity.
Defined.

Lemma audit_falls_back_to_time_entries_witness :
  auditUnbilledActivities jsstring no_activities time_entries_ok (fun l => l)
    (lit "12345")
  = auditUnbilledActivities jsstring time_entries_ok time_entries_ok
      (fun l => l) (lit "12345")
  /\ auditUnbilledActivities jsstring no_activities time_entries_down
       (fun l => l) (lit "12345")
     = inl unavailable.
Proof.
  split.
  - exact (proj1 (proj2 (audit_falls_back_to_time_entries jsstring (fun l => l)
                           no_activities time_entries_ok (lit "12345")))
             (lit "404 Not Found") eq_refl).
  - exact (proj1 (proj2 (audit_falls_back_to_time_entries jsstring (fun l => l)
                           no_activities time_entries_down (lit "12345")))
             (lit "404 Not Found") eq_refl).
Defined.

End AuditMore.

(** ** Assembling the brief *)

Module BriefFetchFacts.

Import ConflictCheck Brief BriefFetch.

Section Objects.

Context {V : Type}.

Implicit Types (entries : list (jsstring * V)) (key : jsstring) (value : V).

Lemma has_key_In key entries :
  has_key key entries = true <-> List.In key (List.map fst entries).
Proof.
  unfold has_key. induction entries as [|[k v] entries IH]; simpl.
  - split; [discriminate | tauto].
  - rewrite orb_true_iff, IH, bool_decide_eq_true. reflexivity.
Qed.

Lemma has_key_false key entries :
  has_key key entries = false <-> ~ List.In key (List.map fst entries).
Proof.
  rewrite <- has_key_In. destruct (has_key key entries); split; congruence.
Qed.

Lemma replace_keeps_keys key value entries :
  List.map fst
    (List.map (fun entry =>
                 if bool_decide (fst entry = key) then (key, value) else entry)
       entries)
  = List.map fst entries.
Proof.
  rewrite List.map_map. apply List.map_ext. intros [k v]. simpl.
  destruct (bool_decide_reflect (k = key)); simpl; congruence.
Qed.

Lemma insert_index_In n key value entries (k : jsstring) :
  List.In k (List.map fst (insert_index n key value entries))
  <-> k = key \/ List.In k (List.map fst entries).
Proof.
  induction entries as [|[k' v'] entries IH]; simpl.
  - intuition.
  - destruct (index_of k') as [m|]; [destruct (n <? m)%N|]; simpl;
      rewrite ?IH; intuition.
Qed.

Lemma insert_index_NoDup n key value entries :
  ~ List.In key (List.map fst entries) ->
  List.NoDup (List.map fst entries) ->
  List.NoDup (List.map fst (insert_index n key value entries)).
Proof.
  induction entries as [|[k' v'] entries IH]; simpl; intros Hnew Hnd.
  - constructor; [tauto | constructor].
  - destruct (index_of k') as [m|]; [destruct (n <? m)%N|]; simpl.
    + constructor; [exact Hnew | exact Hnd].
    + apply Stdlib.Lists.List.NoDup_cons_iff in Hnd as [Hk' Hnd].
      constructor.
      * rewrite insert_index_In. intuition.
      * apply IH; tauto.
    + constructor; [exact Hnew | exact Hnd].
Qed.

Lemma set_property_NoDup key value entries :
  List.NoDup (List.map fst entries) ->
  List.NoDup (List.map fst (set_property key value entries)).
Proof.
  intros Hnd. unfold set_property.
  destruct (has_key key entries) eqn:Hk.
  - now rewrite replace_keeps_keys.
  - apply has_key_false in Hk. destruct (index_of key) as [n|].
    + now apply insert_index_NoDup.
    + rewrite List.map_app. simpl.
      apply Stdlib.Lists.List.NoDup_app;
        [exact Hnd | constructor; [tauto | constructor] |].
      intros k Hin [<-|[]]. contradiction.
Qed.

Lemma get_property_absent key entries :
  ~ List.In key (List.map fst entries) -> get_property key entries = None.
Proof.
  induction entries as [|[k v] entries IH]; simpl; [reflexivity|].
  intros Hnot. destruct (bool_decide_reflect (k = key)); [tauto|].
  apply IH. tauto.
Qed.

Lemma get_insert_index n key value entries (k : jsstring) :
  ~ List.In key (List.map fst entries) ->
  get_property k (insert_index n key value entries)
  = if bool_decide (k = key) then Some value else get_property k entries.
Proof.
  induction entries as [|[k' v'] entries IH]; simpl; intros Hnew.
  - destruct (bool_decide_reflect (key = k)), (bool_decide_reflect (k = key));
      congruence.
  - assert (Hhead : get_property k ((key, value) :: (k', v') :: entries)
                    = if bool_decide (k = key) then Some value
                      else if bool_decide (k' = k) then Some v'
                           else get_property k entries).
    { simpl. destruct (bool_decide_reflect (key = k)),
        (bool_decide_reflect (k = key)); congruence. }
    destruct (index_of k') as [m|]; [destruct (n <? m)%N|]; try exact Hhead.
    simpl. rewrite IH by tauto.
    destruct (bool_decide_reflect (k' = k)), (bool_decide_reflect (k = key));
      try reflexivity.
    subst. tauto.
Qed.

Lemma get_replaced key value entries (k : jsstring) :
  get_property k
    (List.map (fun entry =>
                 if bool_decide (fst entry = key) then (key, value) else entry)
       entries)
  = if bool_decide (k = key)
    then (if has_key key entries then Some value else None)
    else get_property k entries.
Proof.
  unfold has_key. induction entries as [|[k' v'] entries IH]; simpl.
  - now destruct (bool_decide (k = key)).
  - destruct (bool_decide_reflect (k' = key)) as [->|Hne]; simpl.
    + destruct (bool_decide_reflect (key = k)) as [<-|Hk].
      * now rewrite bool_decide_eq_true_2.
      * rewrite IH. rewrite bool_decide_eq_false_2 by congruence. reflexivity.
    + destruct (bool_decide_reflect (k' = k)) as [<-|Hk].
      * now rewrite bool_decide_eq_false_2.
      * exact IH.
Qed.

(** Reading a property after an assignment. *)
Lemma get_set_property key value entries (k : jsstring) :
  get_property k (set_property key value entries)
  = if bool_decide (k = key) then Some value else get_property k entries.
Proof.
  unfold set_property. destruct (has_key key entries) eqn:Hk.
  - rewrite get_replaced, Hk. reflexivity.
  - apply has_key_false in Hk. destruct (index_of key) as [n|].
    + now apply get_insert_index.
    + clear -Hk. induction entries as [|[k' v'] entries IH]; simpl in *.
      * destruct (bool_decide_reflect (key = k)),
          (bool_decide_reflect (k = key)); congruence.
      * rewrite IH by tauto.
        destruct (bool_decide_reflect (k' = k)), (bool_decide_reflect (k = key));
          try reflexivity.
        subst. tauto.
Qed.

(** In an object every key has one entry, the one read under that key. *)
Lemma In_get_property key value entries :
  List.NoDup (List.map fst entries) ->
  (List.In (key, value) entries <-> get_property key entries = Some value).
Proof.
  induction entries as [|[k v] entries IH]; simpl; intros Hnd.
  - split; [tauto | discriminate].
  - apply Stdlib.Lists.List.NoDup_cons_iff in Hnd as [Hk Hnd].
    destruct (bool_decide_reflect (k = key)) as [->|Hne].
    + split.
      * intros [Heq|Hin]; [congruence|].
        exfalso. apply Hk. apply in_map_iff. now exists (key, value).
      * intros Heq. left. congruence.
    + rewrite <- (IH Hnd). split; [|tauto].
      intros [Heq|Hin]; [congruence | exact Hin].
Qed.

End Objects.

Section Fields.

Context {Value : Type} (is_empty_string : Value -> bool).

Local Abbreviation collect' := (collect is_empty_string).
Local Abbreviation has_value' := (has_value is_empty_string).

Lemma collect_snoc (fields : list (RemoteField Value)) (field : RemoteField Value) :
  collect' (fields ++ [field])
  = match rf_value field with
    | Some value =>
        if negb (is_empty_string value)
        then set_property (field_key field) value (collect' fields)
        else collect' fields
    | None => collect' fields
    end.
Proof. unfold collect. now rewrite fold_left_app. Qed.

Lemma collect_NoDup (fields : list (RemoteField Value)) :
  List.NoDup (List.map fst (collect' fields)).
Proof.
  induction fields as [|field fields IH] using rev_ind; [constructor|].
  rewrite collect_snoc. destruct (rf_value field) as [value|]; [|exact IH].
  destruct (negb (is_empty_string value)); [|exact IH].
  now apply set_property_NoDup.
Qed.

Lemma split_last {A} (l before after : list A) (x y : A) :
  l ++ [x] = before ++ y :: after ->
  (after = [] /\ before = l /\ y = x)
  \/ exists after', after = after' ++ [x] /\ l = before ++ y :: after'.
Proof.
  destruct after as [|z after _] using rev_ind; intros Heq.
  - left. apply app_inj_tail in Heq as [-> ->]. tauto.
  - right. exists after.
    change (l ++ [x] = before ++ (y :: after) ++ [z]) in Heq.
    rewrite app_assoc in Heq. apply app_inj_tail in Heq as [-> ->]. tauto.
Qed.

(** What is read under a key is the value of the last field given that key
    among the fields that have a value. *)
Lemma collect_get (fields : list (RemoteField Value)) (key : jsstring)
    (value : Value) :
  get_property key (collect' fields) = Some value
  <-> exists before field after,
        fields = before ++ field :: after
        /\ field_key field = key
        /\ rf_value field = Some value
        /\ is_empty_string value = false
        /\ Forall (fun later => field_key later = key -> has_value' later = false)
             after.
Proof.
  induction fields as [|last fields IH] using rev_ind.
  - simpl. split; [discriminate|]. intros (before & field & after & Heq & _).
    destruct before; discriminate.
  - rewrite collect_snoc.
    assert (Hkeep :
              has_value' last = false ->
              (get_property key (collect' fields) = Some value
               <-> exists before field after,
                     fields ++ [last] = before ++ field :: after
                     /\ field_key field = key
                     /\ rf_value field = Some value
                     /\ is_empty_string value = false
                     /\ Forall (fun later =>
                                  field_key later = key -> has_value' later = false)
                          after)).
    { intros Hlast. rewrite IH. split.
      - intros (before & field & after & -> & Hk & Hv & He & Hafter).
        exists before, field, (after ++ [last]).
        split; [now rewrite <- app_assoc|]. repeat (split; [assumption|]).
        apply Forall_app. split; [exact Hafter|]. now constructor.
      - intros (before & field & after & Heq & Hk & Hv & He & Hafter).
        apply split_last in Heq as [(-> & -> & ->) | (after' & -> & ->)].
        + unfold has_value in Hlast. rewrite Hv, He in Hlast. discriminate.
        + exists before, field, after'. repeat (split; [assumption || reflexivity|]).
          now apply Forall_app in Hafter as [Hafter _]. }
    destruct (rf_value last) as [v|] eqn:Hv;
      [destruct (is_empty_string v) eqn:He|]; simpl.
    + apply Hkeep. unfold has_value. now rewrite Hv, He.
    + rewrite get_set_property.
      destruct (bool_decide_reflect (key = field_key last)) as [->|Hne].
      * split.
        -- intros Heq. injection Heq as ->.
           exists fields, last, []. repeat (split; [assumption || reflexivity|]).
           constructor.
        -- intros (before & field & after & Heq & Hk & Hv' & He' & Hafter).
           apply split_last in Heq as [(-> & -> & ->) | (after' & -> & ->)].
           ++ congruence.
           ++ apply Forall_app in Hafter as [_ Hlast].
              inversion Hlast as [|? ? Hl _]; subst.
              specialize (Hl eq_refl). unfold has_value in Hl.
              rewrite Hv, He in Hl. discriminate.
      * rewrite IH. split.
        -- intros (before & field & after & -> & Hk & Hv' & He' & Hafter).
           exists before, field, (after ++ [last]).
           split; [now rewrite <- app_assoc|]. repeat (split; [assumption|]).
           apply Forall_app. split; [exact Hafter|].
           constructor; [|constructor]. congruence.
        -- intros (before & field & after & Heq & Hk & Hv' & He' & Hafter).
           apply split_last in Heq as [(-> & -> & ->) | (after' & -> & ->)].
           ++ congruence.
           ++ exists before, field, after'.
              repeat (split; [assumption || reflexivity|]).
              now apply Forall_app in Hafter as [Hafter _].
    + apply Hkeep. unfold has_value. now rewrite Hv.
Qed.


End Fields.

Section Fetches.

Context {Value : Type} (String_of : Value -> jsstring)
  (is_empty_string : Value -> bool) (Error : Type).

Implicit Types
  (get_matter : jsstring -> Error + RemoteMatter Value)
  (get_file_notes : jsstring -> Error + option (list Note))
  (get_calendar_entries : jsstring -> Error + option (list Entry)).

(** X26. The brief is produced whichever of its three fetches fail, and a
    failed fetch cannot be told from an empty answer: without the notes the
    Recent Activity section shows its placeholder, without the calendar
    entries the Pending Tasks section shows its own, and without the matter
    the brief is that of a matter with no attribute at all. *)
Theorem failed_fetch_reads_as_empty
    get_matter get_file_notes get_calendar_entries (matterId : jsstring) :
  (forall e, get_matter matterId = inl e ->
     getMatterIntelligenceBrief Value String_of is_empty_string Error
       get_matter get_file_notes get_calendar_entries matterId
     = getMatterIntelligenceBrief Value String_of is_empty_string Error
         (fun _ => inr no_matter) get_file_notes get_calendar_entries matterId)
  /\ (forall e, get_file_notes matterId = inl e ->
        getMatterIntelligenceBrief Value String_of is_empty_string Error
          get_matter get_file_notes get_calendar_entries matterId
        = getMatterIntelligenceBrief Value String_of is_empty_string Error
            get_matter (fun _ => inr (Some [])) get_calendar_entries matterId
        /\ exists before rest,
             getMatterIntelligenceBrief Value String_of is_empty_string Error
               get_matter get_file_notes get_calendar_entries matterId
             = before ++ recent_heading ++ no_notes ++ pending_heading ++ rest)
  /\ (forall e, get_calendar_entries matterId = inl e ->
        getMatterIntelligenceBrief Value String_of is_empty_string Error
          get_matter get_file_notes get_calendar_entries matterId
        = getMatterIntelligenceBrief Value String_of is_empty_string Error
            get_matter get_file_notes (fun _ => inr (Some [])) matterId
        /\ exists before rest,
             getMatterIntelligenceBrief Value String_of is_empty_string Error
               get_matter get_file_notes get_calendar_entries matterId
             = before ++ pending_heading ++ no_entries ++ metadata_heading
                 ++ rest).
Proof.
  unfold getMatterIntelligenceBrief. split; [|split].
  - intros e He. unfold brief_result. now rewrite He.
  - intros e He. split; [unfold brief_result; now rewrite He|].
    rewrite BriefFacts.format_sections.
    unfold brief_result at 2. rewrite He. cbn [recent_activity take List.map
      render_recent].
    match goal with
    | |- exists before rest, ?h ++ ?rh ++ ?nn ++ ?ph ++ ?tail = _ =>
        exists h, tail
    end.
    reflexivity.
  - intros e He. split; [unfold brief_result; now rewrite He|].
    rewrite BriefFacts.format_sections.
    unfold brief_result at 3. rewrite He. cbn [pending_tasks List.map
      render_pending].
    match goal with
    | |- exists before rest, ?h ++ ?rh ++ ?rr ++ ?ph ++ ?ne ++ ?mh ++ ?tail = _ =>
        exists (h ++ rh ++ rr), tail
    end.
    now rewrite <- !app_assoc.
Qed.

(** X27. Only the first five notes that the remote side returns reach the
    brief, in the order returned; the calendar entries all do. *)
Theorem five_notes_are_shown
    get_matter get_file_notes get_calendar_entries (matterId : jsstring)
    (notes : list Note) (entries : list Entry) :
  get_file_notes matterId = inr (Some notes) ->
  get_calendar_entries matterId = inr (Some entries) ->
  getMatterIntelligenceBrief Value String_of is_empty_string Error
    get_matter get_file_notes get_calendar_entries matterId
  = getMatterIntelligenceBrief Value String_of is_empty_string Error
      get_matter (fun _ => inr (Some (take 5 notes))) get_calendar_entries
      matterId
  /\ List.map note
       (recent_activity
          (brief_result Value is_empty_string Error get_matter get_file_notes
             get_calendar_entries matterId))
     = List.map (fun n => or_str (or_ostr (n_note n) (n_body n)) [])
         (take 5 notes)
  /\ length
       (pending_tasks
          (brief_result Value is_empty_string Error get_matter get_file_notes
             get_calendar_entries matterId))
     = length entries.
Proof.
  intros Hn He. unfold getMatterIntelligenceBrief, brief_result.
  rewrite Hn, He. cbv beta.
  cbn [default from_option id recent_activity pending_tasks].
  split; [|split].
  - now rewrite take_take, Nat.min_id.
  - now rewrite List.map_map.
  - now rewrite length_map.
Qed.

End Fetches.

Lemma failed_fetch_reads_as_empty_witness :
  getMatterIntelligenceBrief jsstring (fun v => v) is_empty jsstring
    matter_down notes_down entries_down (lit "12345")
  = getMatterIntelligenceBrief jsstring (fun v => v) is_empty jsstring
      (fun _ => inr no_matter) notes_down entries_down (lit "12345").
Proof.
  exact (proj1 (failed_fetch_reads_as_empty (fun v => v) is_empty jsstring
                  matter_down notes_down entries_down (lit "12345"))
           (lit "404 Not Found") eq_refl).
Defined.

Lemma five_notes_are_shown_witness :
  getMatterIntelligenceBrief jsstring (fun v => v) is_empty jsstring
    matter_ok (notes_of 7) (fun _ => inr (Some [])) (lit "12345")
  = getMatterIntelligenceBrief jsstring (fun v => v) is_empty jsstring
      matter_ok (notes_of 5) (fun _ => inr (Some [])) (lit "12345").
Proof.
  exact (proj1 (five_notes_are_shown (fun v => v) is_empty jsstring
                  matter_ok (notes_of 7) (fun _ => inr (Some [])) (lit "12345")
                  (List.map numbered_note (seq 1 7)) [] eq_refl eq_refl)).
Defined.

(** With the matter, the notes and the calendar all unavailable the brief
    is still produced. *)
Example brief_of_nothing :
  getMatterIntelligenceBrief jsstring (fun v => v) is_empty jsstring
    matter_down notes_down entries_down (lit "12345")
  = lit "# Matter Intelligence Brief" ++ [nl; nl] ++ lit "**Matter:** " ++ [nl; nl]
    ++ lit "---" ++ [nl; nl]
    ++ recent_heading ++ no_notes ++ pending_heading ++ no_entries
    ++ metadata_heading.
Proof. vm_compute. reflexivity. Qed.

(** The six sample fields give three entries: the two index keys first, in
    ascending order, then the name, with the value given last. *)
Example sample_fields_collected :
  collect is_empty sample_fields
  = [(lit "4", lit "high"); (lit "17", lit "2024-01-15");
     (lit "Opposing Counsel", lit "Jones LLP")].
Proof. vm_compute. reflexivity. Qed.

End BriefFetchFacts.

(** ** More of the conflict check *)

Module ConflictCheckMore.

Import ConflictCheck ConflictSamples.

Section Later.

Variable Error : Type.
Variable toLowerCase : jsstring -> jsstring.
Variable search_contacts : jsstring -> nat -> Error + option (list Contact).
Variable search_matters : jsstring -> nat -> Error + option (list Matter).
Variable settles_first : Side.

Implicit Types
  (list_matters : nat -> Error + option (list Matter))
  (get_matter : jsstring -> Error + MatterDetail).

Lemma related_contacts_sound (q : jsstring) (m : Matter) (rels : list ContactRel) :
  Forall (fun r =>
            r_type r = contact
            /\ r_source_matter_id r = m_id m
            /\ includes (toLowerCase q) (toLowerCase (r_name r)) = true)
    (related_contacts toLowerCase q m rels).
Proof.
  unfold related_contacts. induction rels as [|rel rels IH]; [constructor|].
  cbn [flat_map]. apply Forall_app. split; [|exact IH].
  destruct (includes _ _) eqn:Hinc; constructor; [|constructor].
  cbn [r_type r_source_matter_id r_name]. tauto.
Qed.

Lemma related_fields_sound (q : jsstring) (m : Matter) (fields : list CustomField) :
  Forall (fun r =>
            r_type r = matter
            /\ r_source_matter_id r = m_id m
            /\ r_id r = Some (m_id m))
    (related_fields toLowerCase q m fields).
Proof.
  unfold related_fields. induction fields as [|field fields IH]; [constructor|].
  cbn [flat_map]. apply Forall_app. split; [|exact IH].
  destruct (includes _ _); constructor; [|constructor].
  cbn [r_type r_source_matter_id r_id]. tauto.
Qed.

Lemma related_of_sound get_matter (q : jsstring) (m : Matter) :
  Forall (fun r =>
            r_source_matter_id r = m_id m
            /\ (r_type r = contact ->
                includes (toLowerCase q) (toLowerCase (r_name r)) = true)
            /\ (r_type r = matter -> r_id r = Some (m_id m)))
    (related_of Error toLowerCase get_matter q m).
Proof.
  unfold related_of. destruct (get_matter (m_id m)) as [e|d]; [constructor|].
  apply Forall_app. split.
  - eapply Forall_impl; [apply related_contacts_sound|].
    intros r (Ht & Hs & Hi). cbv beta. rewrite Ht.
    split; [exact Hs|]. split; [tauto | discriminate].
  - eapply Forall_impl; [apply related_fields_sound|].
    intros r (Ht & Hs & Hi). cbv beta. rewrite Ht.
    split; [exact Hs|]. split; [discriminate | tauto].
Qed.

Lemma candidates_keep_hits list_matters (ms : list Matter) :
  exists added,
    candidates Error list_matters ms = ms ++ added
    /\ Forall (fun m => ~ List.In (m_id m) (List.map m_id ms)) added.
Proof.
  unfold candidates. destruct (length ms <? 100)%nat.
  - destruct (list_matters 100%nat) as [e|data].
    + exists []. now rewrite app_nil_r.
    + eexists. split; [reflexivity|].
      apply Stdlib.Lists.List.Forall_forall. intros m Hm.
      apply filter_In in Hm as [_ Hnew]. apply negb_true_iff in Hnew.
      intros Hin. apply in_map_iff in Hin as (m' & Hid & Hm').
      assert (Hex : existsb (fun m' => bool_decide (m_id m' = m_id m)) ms = true).
      { apply existsb_exists. exists m'. split; [exact Hm'|].
        now apply bool_decide_eq_true. }
      congruence.
  - exists []. now rewrite app_nil_r.
Qed.

(** X28. Every related-party match of a report comes from one of the first
    twenty matters looked into; a related contact is reported only when its
    name contains the query, letter case apart; a custom-field match is
    reported under the id of its own matter. *)
Theorem related_matches_are_sound list_matters get_matter (q : jsstring)
    (report : ConflictCheckResult) :
  performEthicalConflictCheck Error toLowerCase search_contacts search_matters
    list_matters get_matter settles_first q = inr report ->
  exists ms looked_into,
    search_matters q 100 = inr ms
    /\ looked_into = take 20 (candidates Error list_matters (default [] ms))
    /\ Forall (fun r =>
                 (exists m, List.In m looked_into /\ r_source_matter_id r = m_id m)
                 /\ (r_type r = contact ->
                     includes (toLowerCase q) (toLowerCase (r_name r)) = true)
                 /\ (r_type r = matter -> r_id r = Some (r_source_matter_id r)))
         (related_party_matches report).
Proof.
  unfold performEthicalConflictCheck, promise_all2.
  destruct (search_contacts q 100) as [e1|cs];
    destruct (search_matters q 100) as [e2|ms]; intros Hr;
    try discriminate Hr.
  injection Hr as <-.
  exists ms, (take 20 (candidates Error list_matters (default [] ms))). split; [reflexivity|].
  split; [reflexivity|]. cbn [related_party_matches].
  induction (take 20 (candidates Error list_matters (default [] ms)))
    as [|m looked IH]; [constructor|].
  cbn [flat_map]. apply Forall_app. split.
  - eapply Forall_impl; [apply related_of_sound|].
    intros r (Hs & Hc & Hm). cbv beta. split; [|split].
    + exists m. split; [now left | exact Hs].
    + exact Hc.
    + rewrite Hs. exact Hm.
  - eapply Forall_impl; [exact IH|].
    intros r ((m' & Hin & Hs) & Hc & Hm). cbv beta.
    split; [|tauto]. exists m'. split; [now right | exact Hs].
Qed.

(** X29. The listing of all matters only fills up the matters looked into:
    the hits of the search come first and are all kept, a listed matter is
    added only when its id is not among the hits, and when the search finds
    twenty matters or more the report does not depend on the listing. *)
Theorem listing_only_fills_up list_matters get_matter (q : jsstring)
    (ms : list Matter) :
  search_matters q 100 = inr (Some ms) ->
  (exists added,
     candidates Error list_matters ms = ms ++ added
     /\ Forall (fun m => ~ List.In (m_id m) (List.map m_id ms)) added)
  /\ ((20 <= length ms)%nat ->
      forall list_matters',
        performEthicalConflictCheck Error toLowerCase search_contacts
          search_matters list_matters get_matter settles_first q
        = performEthicalConflictCheck Error toLowerCase search_contacts
            search_matters list_matters' get_matter settles_first q).
Proof.
  intros Hms. split; [apply candidates_keep_hits|].
  intros Hlen list_matters'. unfold performEthicalConflictCheck.
  destruct (promise_all2 Error settles_first (search_contacts q 100)
              (search_matters q 100)) as [e|[cs ms']] eqn:Hall; [reflexivity|].
  assert (Hms' : ms' = Some ms).
  { unfold promise_all2 in Hall. rewrite Hms in Hall.
    destruct (search_contacts q 100); [discriminate|]. congruence. }
  subst ms'. cbn [default from_option id].
  destruct (candidates_keep_hits list_matters ms) as (added & -> & _).
  destruct (candidates_keep_hits list_matters' ms) as (added' & -> & _).
  now rewrite !take_app_le by exact Hlen.
Qed.

(** X30. Once the two searches have succeeded the check cannot fail: a
    failed listing of the matters counts as an empty listing, and a matter
    whose details cannot be fetched counts as a matter without related
    contacts and custom fields. *)
Theorem later_failures_are_tolerated list_matters get_matter (q : jsstring)
    cs ms :
  search_contacts q 100 = inr cs ->
  search_matters q 100 = inr ms ->
  (exists report,
     performEthicalConflictCheck Error toLowerCase search_contacts
       search_matters list_matters get_matter settles_first q = inr report)
  /\ ((exists e, list_matters 100%nat = inl e) ->
      performEthicalConflictCheck Error toLowerCase search_contacts
        search_matters list_matters get_matter settles_first q
      = performEthicalConflictCheck Error toLowerCase search_contacts
          search_matters (fun _ => inr (Some [])) get_matter settles_first q)
  /\ performEthicalConflictCheck Error toLowerCase search_contacts
       search_matters list_matters get_matter settles_first q
     = performEthicalConflictCheck Error toLowerCase search_contacts
         search_matters list_matters
         (fun id => match get_matter id with
                    | inl _ => inr (mkMatterDetail None None)
                    | inr matterDetail => inr matterDetail
                    end)
         settles_first q.
Proof.
  intros Hc Hm. unfold performEthicalConflictCheck, promise_all2.
  rewrite Hc, Hm. split; [eexists; reflexivity|]. split.
  - intros [e He]. unfold candidates. rewrite He.
    destruct (length (default [] ms) <? 100)%nat; [|reflexivity].
    cbn [default from_option id List.filter]. now rewrite app_nil_r.
  - do 2 f_equal. apply flat_map_ext. intros m. unfold related_of.
    now destruct (get_matter (m_id m)).
Qed.

End Later.

Lemma related_matches_are_sound_witness :
  exists report,
    performEthicalConflictCheck jsstring RateLimit.lower_name contacts_ok
      one_matter listing detail First (lit "SMITH") = inr report
    /\ List.map r_name (related_party_matches report)
       = [lit "John Smithson"; lit "2024-1"; lit "John Smithson"; lit "2024-30"]
    /\ Forall (fun r =>
                 r_type r = contact ->
                 includes (RateLimit.lower_name (lit "SMITH"))
                   (RateLimit.lower_name (r_name r)) = true)
         (related_party_matches report).
Proof.
  eexists. split; [reflexivity|]. split; [vm_compute; reflexivity|].
  destruct (related_matches_are_sound jsstring RateLimit.lower_name contacts_ok
              one_matter First listing detail (lit "SMITH") _ eq_refl)
    as (ms & looked & _ & _ & Hall).
  eapply Forall_impl; [exact Hall|]. intros r (_ & Hc & _). exact Hc.
Defined.

Lemma listing_only_fills_up_witness :
  performEthicalConflictCheck jsstring RateLimit.lower_name contacts_ok
    twenty_matters listing detail First (lit "smith")
  = performEthicalConflictCheck jsstring RateLimit.lower_name contacts_ok
      twenty_matters listing_down detail First (lit "smith").
Proof.
  refine (proj2 (listing_only_fills_up jsstring RateLimit.lower_name contacts_ok
                   twenty_matters First listing detail (lit "smith")
                   (List.map numbered_matter (seq 1 20)) eq_refl) _ listing_down).
  vm_compute. constructor.
Defined.

Lemma later_failures_are_tolerated_witness :
  performEthicalConflictCheck jsstring RateLimit.lower_name contacts_ok
    one_matter listing_down no_detail First (lit "smith")
  = performEthicalConflictCheck jsstring RateLimit.lower_name contacts_ok
      one_matter (fun _ => inr (Some [])) no_detail First (lit "smith").
Proof.
  refine (proj1 (proj2 (later_failures_are_tolerated jsstring
                          RateLimit.lower_name contacts_ok one_matter First
                          listing_down no_detail (lit "smith") _ _
                          eq_refl eq_refl)) _).
  exists (lit "503 Service Unavailable"). reflexivity.
Defined.

End ConflictCheckMore.
